(** * Vue 2.6 reactivity core: a shallow embedding and its verified properties

    The development embeds the observer ([observer/index.js], [observer/array.js]),
    the subscriber ([observer/watcher.js]), the deep traversal
    ([observer/traverse.js]) and the deferred-callback queue ([util/next-tick.js])
    as state-passing functions over an explicit JavaScript store, and proves
    the properties the design document states about them. *)

From Stdlib Require Import ZArith String.
From stdpp Require Import gmap strings list fin_maps.

#[local] Set Warnings "-clear-no-such-hyp".

(** ** JavaScript values *)

Abbreviation addr := nat (only parsing).
Abbreviation dep_id := nat (only parsing).
Abbreviation wid := nat (only parsing).
Abbreviation cell_id := nat (only parsing).
Abbreviation fn := nat (only parsing).
Abbreviation promise_id := nat (only parsing).

(** A number is either [NaN] or a finite number; finite numbers are
    represented by integers, which is all that identity comparison needs. *)
Inductive number := NaN | Fin (z : Z).

Inductive value :=
| VUndefined
| VNull
| VBool (b : bool)
| VNum (n : number)
| VStr (s : string)
| VObj (a : addr).

#[global] Instance number_eq_dec : EqDecision number.
Proof. solve_decision. Defined.
#[global] Instance value_eq_dec : EqDecision value.
Proof. solve_decision. Defined.

(** [x === y] *)
Definition strict_eq (x y : value) : bool :=
  match x, y with
  | VUndefined, VUndefined => true
  | VNull, VNull => true
  | VBool a, VBool b => bool_decide (a = b)
  | VNum (Fin a), VNum (Fin b) => bool_decide (a = b)
  | VStr a, VStr b => bool_decide (a = b)
  | VObj a, VObj b => bool_decide (a = b)
  | _, _ => false
  end.

(** Truthiness, as used by [&&], [if] and [!]. *)
Definition truthy (v : value) : bool :=
  match v with
  | VUndefined | VNull => false
  | VBool b => b
  | VNum NaN => false
  | VNum (Fin z) => negb (bool_decide (z = 0%Z))
  | VStr s => negb (bool_decide (s = EmptyString))
  | VObj _ => true
  end.

(** Modelled from the spec: the predicates [isUndef], [isPrimitive] and
    [isObject] of shared/util, which is not among the sources, with the
    meaning their names and their uses give them. *)
Definition isUndef (v : value) : bool :=
  match v with VUndefined | VNull => true | _ => false end.

Definition isPrimitive (v : value) : bool :=
  match v with VStr _ | VNum _ | VBool _ => true | _ => false end.

Definition isObject (v : value) : bool :=
  match v with VObj _ => true | _ => false end.

(** A property key.  [KIdx i] is a key that is a valid array index, as a
    number or as its decimal string; [KStr s] is any other key.  The hidden
    [__ob__] property is not a key: it is a field of the object. *)
Inductive key := KIdx (i : nat) | KStr (s : string).

#[global] Instance key_eq_dec : EqDecision key.
Proof. solve_decision. Defined.

(** Modelled from the spec: [isValidArrayIndex] of shared/util, which is not
    among the sources. *)
Definition isValidArrayIndex (k : key) : bool :=
  match k with KIdx _ => true | KStr _ => false end.

(** ** Objects *)

Inductive oclass := CArray | CPlain | CVNode | COther.

#[global] Instance oclass_eq_dec : EqDecision oclass.
Proof. solve_decision. Defined.

(** An own property is a data property, a user-defined accessor pair, or the
    accessor pair installed by [defineReactive], whose two closures share
    the reactive cell [c]. *)
Inductive prop_kind :=
| PData (v : value)
| PAccessor (get set : option fn)
| PReactive (c : cell_id).

Record prop := Prop_ {
  p_kind : prop_kind;
  p_enumerable : bool;
  p_configurable : bool
}.

(** An [Observer] instance: [value] is the wrapped object, [dep] the
    container-level Dep.  [vmCount] is mutable and kept with the object. *)
Record ob_ref := ObRef { ob_value : addr; ob_dep : dep_id }.

#[global] Instance ob_ref_eq_dec : EqDecision ob_ref.
Proof. solve_decision. Defined.

Record obj := Obj {
  o_class : oclass;
  o_props : list (key * prop);      (* own properties, in insertion order *)
  o_elems : list value;             (* the elements, when an array *)
  o_extensible : bool;
  o_frozen : bool;
  o_ob : option ob_ref;             (* the hidden [__ob__] property *)
  o_vmCount : nat;                  (* [__ob__.vmCount] *)
  o_augmented : bool                (* intercepted array methods installed *)
}.

(** The getter or setter a reactive cell delegates to: a user function, or
    the closure of an earlier reactive cell on the same property. *)
Inductive accessor_fn := AUser (f : fn) | ACell (c : cell_id).

(** The closure state of one [defineReactive] call. *)
Record cell := Cell {
  c_obj : addr;
  c_val : value;
  c_childOb : option ob_ref;
  c_dep : dep_id;
  c_getter : option accessor_fn;
  c_setter : option accessor_fn;
  c_shallow : bool;
  c_customSetter : option fn
}.

(** ** Watchers *)

Record watcher := Watcher {
  w_vm : value;
  w_getter : fn;
  w_cb : fn;
  w_deep : bool;
  w_user : bool;
  w_lazy : bool;
  w_sync : bool;
  w_dirty : bool;
  w_active : bool;
  w_deps : list dep_id;
  w_newDeps : list dep_id;
  w_depIds : gset dep_id;
  w_newDepIds : gset dep_id;
  w_value : value;
  w_expression : string
}.

(** ** The diagnostic channel and the deferred-callback queue *)

Inductive event :=
| EvWarn (msg : string)
| EvHandleError (e : value) (info : string)
| EvTimer.                           (* one call of [timerFunc] *)

(** One entry of [callbacks]: the closure pushed by [nextTick], which
    captures [cb], [ctx] and the promise whose resolver is [_resolve]. *)
Record tick := Tick {
  t_cb : option fn;
  t_ctx : value;
  t_resolve : option promise_id
}.

(** ** The store *)

Record St := mkSt {
  heap : gmap addr obj;
  cells : gmap cell_id cell;
  next_cell : nat;
  dep_uid : nat;                    (* [uid] of dep.js *)
  subs : gmap dep_id (list wid);    (* [dep.subs] of every Dep *)
  targetStack : list wid;           (* top first; [Dep.target] is the top *)
  watchers : gmap wid watcher;
  shouldObserve : bool;
  seenObjects : gset dep_id;
  callbacks : list tick;
  pending : bool;
  promises : list (option value);   (* [None]: pending, [Some v]: resolved *)
  log : list event
}.

Definition set_heap (f : gmap addr obj → gmap addr obj) (s : St) : St :=
  mkSt (f (heap s)) (cells s) (next_cell s) (dep_uid s) (subs s) (targetStack s)
       (watchers s) (shouldObserve s) (seenObjects s) (callbacks s) (pending s)
       (promises s) (log s).
Definition set_cells (f : gmap cell_id cell → gmap cell_id cell) (s : St) : St :=
  mkSt (heap s) (f (cells s)) (next_cell s) (dep_uid s) (subs s) (targetStack s)
       (watchers s) (shouldObserve s) (seenObjects s) (callbacks s) (pending s)
       (promises s) (log s).
Definition set_next_cell (f : nat → nat) (s : St) : St :=
  mkSt (heap s) (cells s) (f (next_cell s)) (dep_uid s) (subs s) (targetStack s)
       (watchers s) (shouldObserve s) (seenObjects s) (callbacks s) (pending s)
       (promises s) (log s).
Definition set_dep_uid (f : nat → nat) (s : St) : St :=
  mkSt (heap s) (cells s) (next_cell s) (f (dep_uid s)) (subs s) (targetStack s)
       (watchers s) (shouldObserve s) (seenObjects s) (callbacks s) (pending s)
       (promises s) (log s).
Definition set_subs (f : gmap dep_id (list wid) → gmap dep_id (list wid)) (s : St) : St :=
  mkSt (heap s) (cells s) (next_cell s) (dep_uid s) (f (subs s)) (targetStack s)
       (watchers s) (shouldObserve s) (seenObjects s) (callbacks s) (pending s)
       (promises s) (log s).
Definition set_targetStack (f : list wid → list wid) (s : St) : St :=
  mkSt (heap s) (cells s) (next_cell s) (dep_uid s) (subs s) (f (targetStack s))
       (watchers s) (shouldObserve s) (seenObjects s) (callbacks s) (pending s)
       (promises s) (log s).
Definition set_watchers (f : gmap wid watcher → gmap wid watcher) (s : St) : St :=
  mkSt (heap s) (cells s) (next_cell s) (dep_uid s) (subs s) (targetStack s)
       (f (watchers s)) (shouldObserve s) (seenObjects s) (callbacks s) (pending s)
       (promises s) (log s).
Definition set_shouldObserve (b : bool) (s : St) : St :=
  mkSt (heap s) (cells s) (next_cell s) (dep_uid s) (subs s) (targetStack s)
       (watchers s) b (seenObjects s) (callbacks s) (pending s)
       (promises s) (log s).
Definition set_seenObjects (f : gset dep_id → gset dep_id) (s : St) : St :=
  mkSt (heap s) (cells s) (next_cell s) (dep_uid s) (subs s) (targetStack s)
       (watchers s) (shouldObserve s) (f (seenObjects s)) (callbacks s) (pending s)
       (promises s) (log s).
Definition set_callbacks (f : list tick → list tick) (s : St) : St :=
  mkSt (heap s) (cells s) (next_cell s) (dep_uid s) (subs s) (targetStack s)
       (watchers s) (shouldObserve s) (seenObjects s) (f (callbacks s)) (pending s)
       (promises s) (log s).
Definition set_pending (b : bool) (s : St) : St :=
  mkSt (heap s) (cells s) (next_cell s) (dep_uid s) (subs s) (targetStack s)
       (watchers s) (shouldObserve s) (seenObjects s) (callbacks s) b
       (promises s) (log s).
Definition set_promises (f : list (option value) → list (option value)) (s : St) : St :=
  mkSt (heap s) (cells s) (next_cell s) (dep_uid s) (subs s) (targetStack s)
       (watchers s) (shouldObserve s) (seenObjects s) (callbacks s) (pending s)
       (f (promises s)) (log s).
Definition add_log (e : event) (s : St) : St :=
  mkSt (heap s) (cells s) (next_cell s) (dep_uid s) (subs s) (targetStack s)
       (watchers s) (shouldObserve s) (seenObjects s) (callbacks s) (pending s)
       (promises s) (log s ++ [e]).

(** ** The monad of JavaScript computations

    A computation transforms the store and returns, throws, or does not
    terminate ([Diverge]: the recursion budget of the model ran out). *)

Inductive res (A : Type) :=
| Ok (a : A)
| Throw (e : value)
| Diverge.
Arguments Ok {A} a.
Arguments Throw {A} e.
Arguments Diverge {A}.

Definition M (A : Type) : Type := St → St * res A.

Definition ret {A} (a : A) : M A := λ s, (s, Ok a).

Definition bind {A B} (m : M A) (f : A → M B) : M B :=
  λ s, match m s with
       | (s', Ok a) => f a s'
       | (s', Throw e) => (s', Throw e)
       | (s', Diverge) => (s', Diverge)
       end.

#[global] Instance M_ret : MRet M := @ret.
#[global] Instance M_bind : MBind M := λ A B f m, bind m f.

Definition throw {A} (e : value) : M A := λ s, (s, Throw e).
Definition diverge {A} : M A := λ s, (s, Diverge).
Definition modify (f : St → St) : M unit := λ s, (f s, Ok tt).
Definition gets {A} (f : St → A) : M A := λ s, (s, Ok (f s)).

(** [try { m } catch (e) { h e }] *)
Definition try_catch {A} (m : M A) (h : value → M A) : M A :=
  λ s, match m s with
       | (s', Throw e) => h e s'
       | r => r
       end.

Definition when (b : bool) (m : M unit) : M unit := if b then m else ret tt.

(** [for (x of l) f x], stopping at the first exception. *)
Fixpoint forM {A} (l : list A) (f : A → M unit) : M unit :=
  match l with
  | [] => ret tt
  | x :: l' => bind (f x) (λ _, forM l' f)
  end.

Definition TypeError : value := VStr "TypeError".

(** Modelled from the spec: the diagnostic channel, [handleError] of
    util/error and [warn] of util/debug, which are not among the sources:
    both only report, and by contract never throw. *)
Definition handleError (e : value) (info : string) : M unit :=
  modify (add_log (EvHandleError e info)).

Definition warn (msg : string) : M unit :=
  modify (add_log (EvWarn msg)).

(** The texts of the four diagnostics of [set] and [del]. *)
Definition msg_set_primitive : string :=
  "Cannot set reactive property on undefined, null, or primitive value".
Definition msg_set_root : string :=
  "Avoid adding reactive properties to a Vue instance or its root $data at runtime - declare it upfront in the data option.".
Definition msg_del_primitive : string :=
  "Cannot delete reactive property on undefined, null, or primitive value".
Definition msg_del_root : string :=
  "Avoid deleting properties on a Vue instance or its root $data - just set it to null.".

(** ** Dep

    The Subject class [Dep] lives in observer/dep.js, which is not among the
    sources; every definition of this part is modelled from the
    specification.  Deps and watchers are identified by their ids, which the
    code allocates from monotonic counters. *)

(** Modelled from the spec: the subscriber list [dep.subs] of the Dep with
    the id [d], in subscription order. *)
Definition dep_subs (s : St) (d : dep_id) : list wid :=
  default [] (subs s !! d).

(** Modelled from the spec: [new Dep ()], which takes the next id. *)
Definition new_Dep : M dep_id :=
  λ s, (set_dep_uid S s, Ok (dep_uid s)).

(** Modelled from the spec: [dep.addSub (sub)], list insertion. *)
Definition Dep_addSub (d : dep_id) (w : wid) : M unit :=
  modify (λ s, set_subs <[d := dep_subs s d ++ [w]]> s).

(** Modelled from the spec: removal of an item from a list by reference
    (its first occurrence), the [remove] helper of shared/util. *)
Fixpoint remove_first (w : wid) (l : list wid) : list wid :=
  match l with
  | [] => []
  | x :: l' => if decide (x = w) then l' else x :: remove_first w l'
  end.

(** Modelled from the spec: [dep.removeSub (sub)], list removal by
    reference. *)
Definition Dep_removeSub (d : dep_id) (w : wid) : M unit :=
  modify (λ s, set_subs <[d := remove_first w (dep_subs s d)]> s).

(** Modelled from the spec: [Dep.target], the active watcher, is the top of
    the stack that [pushTarget] and [popTarget] maintain. *)
Definition Dep_target (s : St) : option wid := head (targetStack s).

Definition pushTarget (w : wid) : M unit :=
  modify (set_targetStack (cons w)).

Definition popTarget : M unit :=
  modify (set_targetStack tail).

(** ** Watcher: dependency bookkeeping (observer/watcher.js) *)

Definition the_watcher (w : wid) : M watcher :=
  λ s, match watchers s !! w with
       | Some W => (s, Ok W)
       | None => (s, Throw TypeError)
       end.

Definition set_tracking (deps newDeps : list dep_id) (depIds newDepIds : gset dep_id)
    (W : watcher) : watcher :=
  Watcher (w_vm W) (w_getter W) (w_cb W) (w_deep W) (w_user W) (w_lazy W)
    (w_sync W) (w_dirty W) (w_active W) deps newDeps depIds newDepIds
    (w_value W) (w_expression W).

Definition set_value (v : value) (W : watcher) : watcher :=
  Watcher (w_vm W) (w_getter W) (w_cb W) (w_deep W) (w_user W) (w_lazy W)
    (w_sync W) (w_dirty W) (w_active W) (w_deps W) (w_newDeps W) (w_depIds W)
    (w_newDepIds W) v (w_expression W).

Definition set_dirty (b : bool) (W : watcher) : watcher :=
  Watcher (w_vm W) (w_getter W) (w_cb W) (w_deep W) (w_user W) (w_lazy W)
    (w_sync W) b (w_active W) (w_deps W) (w_newDeps W) (w_depIds W)
    (w_newDepIds W) (w_value W) (w_expression W).

Definition set_active (b : bool) (W : watcher) : watcher :=
  Watcher (w_vm W) (w_getter W) (w_cb W) (w_deep W) (w_user W) (w_lazy W)
    (w_sync W) (w_dirty W) b (w_deps W) (w_newDeps W) (w_depIds W)
    (w_newDepIds W) (w_value W) (w_expression W).

Definition update_watcher (w : wid) (f : watcher → watcher) : M unit :=
  modify (set_watchers (alter f w)).

(** [addDep (dep)] *)
Definition Watcher_addDep (w : wid) (d : dep_id) : M unit :=
  W ← the_watcher w;
  if decide (d ∈ w_newDepIds W) then mret tt
  else
    update_watcher w (λ W, set_tracking (w_deps W) (w_newDeps W ++ [d])
                             (w_depIds W) ({[d]} ∪ w_newDepIds W) W);;
    if decide (d ∈ w_depIds W) then mret tt else Dep_addSub d w.

(** [cleanupDeps ()]: the loop visits [deps] from the last index down; the
    two swaps followed by [clear()] and [length = 0] leave the fresh
    collections in [deps]/[depIds] and empty ones in [newDeps]/[newDepIds]. *)
Definition Watcher_cleanupDeps (w : wid) : M unit :=
  W ← the_watcher w;
  forM (reverse (w_deps W))
    (λ d, if decide (d ∈ w_newDepIds W) then mret tt else Dep_removeSub d w);;
  update_watcher w (λ W, set_tracking (w_newDeps W) [] (w_newDepIds W) ∅ W).

(** Modelled from the spec: [dep.depend ()] registers the Dep with the
    active watcher, if there is one: [Dep.target.addDep (this)]. *)
Definition Dep_depend (d : dep_id) : M unit :=
  tgt ← gets Dep_target;
  match tgt with
  | Some w => Watcher_addDep w d
  | None => mret tt
  end.

(** [depend ()] of a watcher *)
Definition Watcher_depend (w : wid) : M unit :=
  W ← the_watcher w;
  forM (reverse (w_deps W)) Dep_depend.

(** [teardown ()]; the owner's [_watchers] list is outside the model. *)
Definition Watcher_teardown (w : wid) : M unit :=
  W ← the_watcher w;
  if w_active W then
    forM (reverse (w_deps W)) (λ d, Dep_removeSub d w);;
    update_watcher w (set_active false)
  else mret tt.

(** ** Reading the heap *)

Definition is_array (o : obj) : bool := bool_decide (o_class o = CArray).

Fixpoint assoc (k : key) (l : list (key * prop)) : option prop :=
  match l with
  | [] => None
  | (k', p) :: l' => if decide (k' = k) then Some p else assoc k l'
  end.

Definition lookup_prop (o : obj) (k : key) : option prop := assoc k (o_props o).

(** [Object.keys (o)]: the enumerable own keys. *)
Definition object_keys (o : obj) : list key :=
  (filter (λ kp, p_enumerable kp.2 = true) (o_props o)).*1.

Definition the_cell (c : cell_id) : M cell :=
  λ s, match cells s !! c with
       | Some C => (s, Ok C)
       | None => (s, Throw TypeError)
       end.

(** [Array.isArray (v)] *)
Definition isArray (s : St) (v : value) : bool :=
  match v with
  | VObj a => from_option is_array false (heap s !! a)
  | _ => false
  end.

(** ** Updating the heap *)

Definition with_props (f : list (key * prop) → list (key * prop)) (o : obj) : obj :=
  Obj (o_class o) (f (o_props o)) (o_elems o) (o_extensible o) (o_frozen o)
      (o_ob o) (o_vmCount o) (o_augmented o).
Definition with_elems (f : list value → list value) (o : obj) : obj :=
  Obj (o_class o) (o_props o) (f (o_elems o)) (o_extensible o) (o_frozen o)
      (o_ob o) (o_vmCount o) (o_augmented o).
Definition with_ob (r : option ob_ref) (o : obj) : obj :=
  Obj (o_class o) (o_props o) (o_elems o) (o_extensible o) (o_frozen o)
      r (o_vmCount o) (o_augmented o).
Definition with_vmCount (f : nat → nat) (o : obj) : obj :=
  Obj (o_class o) (o_props o) (o_elems o) (o_extensible o) (o_frozen o)
      (o_ob o) (f (o_vmCount o)) (o_augmented o).
Definition with_augmented (b : bool) (o : obj) : obj :=
  Obj (o_class o) (o_props o) (o_elems o) (o_extensible o) (o_frozen o)
      (o_ob o) (o_vmCount o) b.

Definition update_obj (a : addr) (f : obj → obj) : M unit :=
  modify (set_heap (alter f a)).

Definition with_val (v : value) (C : cell) : cell :=
  Cell (c_obj C) v (c_childOb C) (c_dep C) (c_getter C) (c_setter C)
       (c_shallow C) (c_customSetter C).
Definition with_childOb (r : option ob_ref) (C : cell) : cell :=
  Cell (c_obj C) (c_val C) r (c_dep C) (c_getter C) (c_setter C)
       (c_shallow C) (c_customSetter C).

Definition update_cell (c : cell_id) (f : cell → cell) : M unit :=
  modify (set_cells (alter f c)).

(** Replace the property [k] in place, or append it. *)
Fixpoint put_assoc (k : key) (p : prop) (l : list (key * prop)) : list (key * prop) :=
  match l with
  | [] => [(k, p)]
  | (k', p') :: l' =>
    if decide (k' = k) then (k, p) :: l' else (k', p') :: put_assoc k p l'
  end.

Definition del_assoc (k : key) (l : list (key * prop)) : list (key * prop) :=
  filter (λ kp, kp.1 ≠ k) l.

Definition is_plain (o : obj) : bool := bool_decide (o_class o = CPlain).

(** The intercepted array methods ([methodsToPatch] of observer/array.js). *)
Inductive method := Push | Pop | Shift | Unshift | Splice | Sort | Reverse.

#[global] Instance method_eq_dec : EqDecision method.
Proof. solve_decision. Defined.

Definition methodsToPatch : list method :=
  [Push; Pop; Shift; Unshift; Splice; Sort; Reverse].

Section Engine.

(** The environment: build flags, platform facts, and the code the core
    calls but does not own. *)
Variable production : bool.        (* [process.env.NODE_ENV === 'production'] *)
Variable serverRendering : bool.   (* [isServerRendering ()] *)
Variable hasPromise : bool.        (* [typeof Promise !== 'undefined'] *)
(** [f.call (this, ...args)] for a user function [f]. *)
Variable call : fn → value → list value → M value.
(** [queueWatcher] of observer/scheduler.js, which is not among the
    sources. *)
Variable queueWatcher : wid → M unit.
(** The platform's [Array.prototype.sort] on the elements of an array. *)
Variable nativeSort : list value → list value → M (list value).
(** Keys reachable through the prototype chain of an object of a class,
    and the keys of [Object.prototype]. *)
Variable inherited : oclass → key → bool.
Variable inObjectPrototype : key → bool.
(** [ToIntegerOrInfinity] of the platform on strings and objects. *)
Variable toInteger : value → Z.

(** One iteration of the loop of [dependArray]; [rec] is [dependArray]. *)
Definition dependArray_item (rec : addr → M unit) (e : value) : M unit :=
  match e with
  | VObj b =>
    o' ← gets (λ s, heap s !! b);
    match o' with
    | Some o' =>
      match o_ob o' with
      | Some r => Dep_depend (ob_dep r)
      | None => mret tt
      end;;
      if is_array o' then rec b else mret tt
    | None => mret tt
    end
  | _ => mret tt
  end.

(** [dependArray (value)]; [depend ()] never changes the heap, so the
    elements are read once. *)
Fixpoint dependArray (n : nat) (a : addr) : M unit :=
  match n with
  | 0 => diverge
  | S n' =>
    o ← gets (λ s, heap s !! a);
    forM (from_option o_elems [] o) (dependArray_item (dependArray n'))
  end.

(** The dependency collection of [reactiveGetter]:
    [if (Dep.target) { dep.depend (); if (childOb) { ... } }] *)
Definition collect (n : nat) (c : cell_id) (C : cell) (value : value) : M unit :=
  tgt ← gets Dep_target;
  match tgt with
  | Some _ =>
    Dep_depend (c_dep C);;
    C' ← the_cell c;
    match c_childOb C' with
    | Some r =>
      Dep_depend (ob_dep r);;
      isA ← gets (λ s, isArray s value);
      match value with
      | VObj a => if (isA : bool) then dependArray n a else mret tt
      | _ => mret tt
      end
    | None => mret tt
    end
  | None => mret tt
  end.

(** [reactiveGetter ()] of the cell [c] *)
Fixpoint reactiveGetter (n : nat) (c : cell_id) : M value :=
  match n with
  | 0 => diverge
  | S n' =>
    C ← the_cell c;
    value ← match c_getter C with
            | Some (AUser g) => call g (VObj (c_obj C)) []
            | Some (ACell c') => reactiveGetter n' c'
            | None => mret (c_val C)
            end;
    collect n' c C value;;
    mret value
  end.

(** [v[k]] *)
Definition get_prop (n : nat) (v : value) (k : key) : M value :=
  match v with
  | VObj a =>
    o ← gets (λ s, heap s !! a);
    match o with
    | None => mret VUndefined
    | Some o =>
      match k with
      | KIdx i =>
        if is_array o then mret (default VUndefined (o_elems o !! i))
        else
          match lookup_prop o k with
          | Some p =>
            match p_kind p with
            | PData x => mret x
            | PAccessor (Some g) _ => call g v []
            | PAccessor None _ => mret VUndefined
            | PReactive c => reactiveGetter n c
            end
          | None => mret VUndefined
          end
      | KStr _ =>
        match lookup_prop o k with
        | Some p =>
          match p_kind p with
          | PData x => mret x
          | PAccessor (Some g) _ => call g v []
          | PAccessor None _ => mret VUndefined
          | PReactive c => reactiveGetter n c
          end
        | None => mret VUndefined
        end
      end
    end
  | VUndefined | VNull => throw TypeError
  | _ => mret VUndefined
  end.

(** ** observer/traverse.js *)

(** The cycle check of [_traverse]: whether to go on into the object. *)
Definition mark_seen (o : obj) : M bool :=
  match o_ob o with
  | Some r =>
    seen ← gets seenObjects;
    if decide (ob_dep r ∈ seen) then mret false
    else modify (set_seenObjects (λ seen, {[ob_dep r]} ∪ seen));;
         mret true
  | None => mret true
  end.

(** The two loops of [_traverse]; [rec] is [_traverse]. *)
Definition traverse_children (rec : value → M unit) (n : nat) (val : value)
    (o : obj) : M unit :=
  if is_array o then
    forM (reverse (seq 0 (length (o_elems o))))
      (λ i, x ← get_prop n val (KIdx i); rec x)
  else
    forM (reverse (object_keys o))
      (λ k, x ← get_prop n val k; rec x).

Fixpoint _traverse (n : nat) (val : value) : M unit :=
  match n with
  | 0 => diverge
  | S n' =>
    match val with
    | VObj a =>
      o ← gets (λ s, heap s !! a);
      match o with
      | None => mret tt
      | Some o =>
        if o_frozen o || bool_decide (o_class o = CVNode) then mret tt
        else
          go_on ← mark_seen o;
          if (go_on : bool) then traverse_children (_traverse n') n' val o
          else mret tt
      end
    | _ => mret tt
    end
  end.

Definition traverse (n : nat) (val : value) : M unit :=
  _traverse n val;;
  modify (set_seenObjects (λ _, ∅)).

(** ** Watcher: evaluation (observer/watcher.js) *)

(** [try { m } finally { f }] where the [finally] block reads a variable the
    [try] block assigns: [f] receives the value when [m] returned. *)
Definition try_finally {A} (m : M A) (f : option A → M unit) : M A :=
  λ s, match m s with
       | (s', Ok a) => bind (f (Some a)) (λ _, ret a) s'
       | (s', Throw e) => bind (f None) (λ _, throw e) s'
       | (s', Diverge) => (s', Diverge)
       end.

(** The [try]/[catch] part of [get ()]. *)
Definition Watcher_compute (w : wid) : M value :=
  W ← the_watcher w;
  try_catch (call (w_getter W) (w_vm W) [w_vm W])
    (λ e, U ← the_watcher w;
          if w_user U then
            handleError e ("getter for watcher " ++ w_expression U);;
            mret VUndefined
          else throw e).

(** The [finally] part of [get ()]; [value] is [undefined] when the getter
    threw.  First the deep traversal, [if (this.deep) traverse (value)]. *)
Definition Watcher_touch (n : nat) (w : wid) (r : option value) : M unit :=
  W ← the_watcher w;
  when (w_deep W) (traverse n (default VUndefined r)).

Definition Watcher_finish (n : nat) (w : wid) (r : option value) : M unit :=
  Watcher_touch n w r;;
  popTarget;;
  Watcher_cleanupDeps w.

(** [get ()] *)
Definition Watcher_get (n : nat) (w : wid) : M value :=
  pushTarget w;;
  try_finally (Watcher_compute w) (Watcher_finish n w).

(** Modelled from the spec: [invokeWithErrorHandling] of util/error.js,
    which is not among the sources: an error of the callback is caught
    and reported through the error channel instead of propagating. *)
Definition invokeWithErrorHandling (f : fn) (ctx : value) (args : list value)
    (info : string) : M unit :=
  try_catch (call f ctx args;; mret tt) (λ e, handleError e info).

(** [run ()] *)
Definition Watcher_run (n : nat) (w : wid) : M unit :=
  W ← the_watcher w;
  if w_active W then
    value ← Watcher_get n w;
    W1 ← the_watcher w;
    if negb (strict_eq value (w_value W1)) || isObject value || w_deep W1 then
      let oldValue := w_value W1 in
      update_watcher w (set_value value);;
      if w_user W1 then
        invokeWithErrorHandling (w_cb W1) (w_vm W1) [value; oldValue]
          ("callback for watcher " ++ w_expression W1)
      else
        call (w_cb W1) (w_vm W1) [value; oldValue];; mret tt
    else mret tt
  else mret tt.

(** [update ()] *)
Definition Watcher_update (n : nat) (w : wid) : M unit :=
  W ← the_watcher w;
  if w_lazy W then update_watcher w (set_dirty true)
  else if w_sync W then Watcher_run n w
  else queueWatcher w.

(** [evaluate ()] *)
Definition Watcher_evaluate (n : nat) (w : wid) : M unit :=
  v ← Watcher_get n w;
  update_watcher w (set_value v);;
  update_watcher w (set_dirty false).

(** Modelled from the spec: [Dep.prototype.notify] (observer/dep.js is not
    among the sources): [update ()] is invoked on a snapshot of the
    subscriber list, in subscription order. *)
Definition Dep_notify (n : nat) (d : dep_id) : M unit :=
  snapshot ← gets (λ s, dep_subs s d);
  forM snapshot (Watcher_update n).

(** ** observer/index.js: observation *)

Definition isSome {A} (x : option A) : bool :=
  match x with Some _ => true | None => false end.

(** [value._isVue], read as a property. *)
Definition read_isVue (n : nat) (v : value) : M bool :=
  x ← get_prop n v (KStr "_isVue");
  mret (truthy x).

(** [property.get] and [property.set] of an own property descriptor. *)
Definition descriptor_get (p : prop) : option accessor_fn :=
  match p_kind p with
  | PData _ => None
  | PAccessor g _ => AUser <$> g
  | PReactive c => Some (ACell c)
  end.

Definition descriptor_set (p : prop) : option accessor_fn :=
  match p_kind p with
  | PData _ => None
  | PAccessor _ f => AUser <$> f
  | PReactive c => Some (ACell c)
  end.

Definition new_cell (C : cell) : M cell_id :=
  λ s, (set_next_cell S (set_cells <[next_cell s := C]> s), Ok (next_cell s)).

(** [defineReactive (obj, key, val, customSetter, shallow)]; [val] is
    [None] when the call has two arguments, and [obs] is [observe]. *)
Definition defineReactive_with (obs : value → M (option ob_ref)) (n : nat)
    (a : addr) (k : key) (val : option value) (customSetter : option fn)
    (shallow : bool) : M unit :=
  dep ← new_Dep;
  o ← gets (λ s, heap s !! a);
  match o with
  | None => throw TypeError
  | Some o =>
    let property := lookup_prop o k in
    if from_option (λ p, negb (p_configurable p)) false property then mret tt
    else
      let getter := property ≫= descriptor_get in
      let setter := property ≫= descriptor_set in
      v ← (if (negb (isSome getter) || isSome setter) && negb (isSome val)
           then get_prop n (VObj a) k
           else mret (default VUndefined val));
      childOb ← (if shallow then mret None else obs v);
      (* Object.defineProperty (obj, key, { enumerable, configurable, get, set }) *)
      o' ← gets (λ s, heap s !! a);
      match o' with
      | None => throw TypeError
      | Some o' =>
        if match lookup_prop o' k with
           | Some p => p_configurable p
           | None => o_extensible o'
           end
        then
          c ← new_cell (Cell a v childOb dep getter setter shallow customSetter);
          update_obj a (with_props (put_assoc k (Prop_ (PReactive c) true true)))
        else throw TypeError
      end
  end.

(** [observeArray (items)]: [items.length] is read once, the items as
    the loop reaches them. *)
Definition observeArray_with (obs : value → M (option ob_ref)) (len : nat)
    (item : nat → M value) : M unit :=
  forM (seq 0 len) (λ i, x ← item i; obs x;; mret tt).

(** [new Observer (value)] *)
Definition new_Observer_with (obs : value → M (option ob_ref)) (n : nat)
    (a : addr) : M ob_ref :=
  dep ← new_Dep;
  let r := ObRef a dep in
  update_obj a (λ o, with_vmCount (λ _, 0) (with_ob (Some r) o));;
  o ← gets (λ s, heap s !! a);
  match o with
  | None => throw TypeError
  | Some o =>
    if is_array o then
      (* protoAugment or copyAugment, according to hasProto *)
      update_obj a (with_augmented true);;
      observeArray_with obs (length (o_elems o))
        (λ i, gets (λ s, default VUndefined
                           (from_option o_elems [] (heap s !! a) !! i)))
    else
      (* walk *)
      forM (object_keys o) (λ k, defineReactive_with obs n a k None None false)
  end;;
  mret r.

(** [observe (value, asRootData)] *)
Fixpoint observe (n : nat) (v : value) (asRootData : bool) : M (option ob_ref) :=
  match n with
  | 0 => diverge
  | S n' =>
    match v with
    | VObj a =>
      o ← gets (λ s, heap s !! a);
      match o with
      | None => mret None
      | Some o =>
        if bool_decide (o_class o = CVNode) then mret None
        else
          ob ← match o_ob o with
               | Some r => mret (Some r)
               | None =>
                 so ← gets shouldObserve;
                 if (so : bool) && negb serverRendering
                    && (is_array o || is_plain o) && o_extensible o
                 then
                   isv ← read_isVue n' v;
                   if (isv : bool) then mret None
                   else
                     r ← new_Observer_with (λ x, observe n' x false) n' a;
                     mret (Some r)
                 else mret None
               end;
          match ob with
          | Some r => when asRootData (update_obj (ob_value r) (with_vmCount S))
          | None => mret tt
          end;;
          mret ob
      end
    | _ => mret None
    end
  end.

Definition defineReactive (n : nat) :=
  defineReactive_with (λ x, observe n x false) n.

Definition observeArray (n : nat) (items : list value) : M unit :=
  observeArray_with (λ x, observe n x false) (length items)
    (λ i, mret (default VUndefined (items !! i))).

(** ** observer/index.js: the reactive setter *)

(** [getter ? getter.call (obj) : val] *)
Definition current_value (n : nat) (C : cell) : M value :=
  match c_getter C with
  | Some (AUser g) => call g (VObj (c_obj C)) []
  | Some (ACell c') => reactiveGetter n c'
  | None => mret (c_val C)
  end.

(** [newVal === value || (newVal !== newVal && value !== value)] *)
Definition unchanged (newVal value : value) : bool :=
  strict_eq newVal value
  || (negb (strict_eq newVal newVal) && negb (strict_eq value value)).

(** [if (process.env.NODE_ENV !== 'production' && customSetter) customSetter ()] *)
Definition custom_hook (C : cell) : M unit :=
  match (if production then None else c_customSetter C) with
  | Some f => call f VUndefined [];; mret tt
  | None => mret tt
  end.

(** [reactiveSetter (newVal)] of the cell [c] *)
Fixpoint reactiveSetter (n : nat) (c : cell_id) (newVal : value) : M unit :=
  match n with
  | 0 => diverge
  | S n' =>
    C ← the_cell c;
    value ← current_value n' C;
    if unchanged newVal value then mret tt
    else
      custom_hook C;;
      (* #7981: for accessor properties without setter *)
      if isSome (c_getter C) && negb (isSome (c_setter C)) then mret tt
      else
        match c_setter C with
        | Some (AUser f) => call f (VObj (c_obj C)) [newVal];; mret tt
        | Some (ACell c') => reactiveSetter n' c' newVal
        | None => update_cell c (with_val newVal)
        end;;
        childOb ← (if c_shallow C then mret None else observe n' newVal false);
        update_cell c (with_childOb childOb);;
        Dep_notify n' (c_dep C)
  end.

(** ** Property assignment and deletion

    Strict-mode semantics (the sources are ES modules): a failed
    assignment or deletion throws a [TypeError].  Properties found on the
    prototype chain are taken to be plain data or methods. *)

Definition has_own (o : obj) (k : key) : bool :=
  isSome (lookup_prop o k)
  || (is_array o
      && match k with
         | KIdx i => bool_decide (i < length (o_elems o))
         | KStr s => bool_decide (s = "length")
         end).

(** [hasOwn (target, key)] *)
Definition hasOwn (target : value) (k : key) : M bool :=
  match target with
  | VObj a =>
    o ← gets (λ s, heap s !! a);
    mret (from_option (λ o, has_own o k) false o)
  | VStr str =>
    mret match k with
         | KIdx i => bool_decide (i < String.length str)
         | KStr s => bool_decide (s = "length")
         end
  | VUndefined | VNull => throw TypeError
  | _ => mret false
  end.

(** [key in target] *)
Definition key_in (target : value) (k : key) : M bool :=
  match target with
  | VObj a =>
    o ← gets (λ s, heap s !! a);
    mret (from_option (λ o, has_own o k || inherited (o_class o) k) false o)
  | _ => throw TypeError
  end.

(** [target.length = len], for an array *)
Definition set_length (a : addr) (len : nat) : M unit :=
  o ← gets (λ s, heap s !! a);
  match o with
  | Some o =>
    if bool_decide (len = length (o_elems o)) then mret tt
    else if o_frozen o then throw TypeError
    else update_obj a (with_elems (λ xs,
           take len xs ++ replicate (len - length xs) VUndefined))
  | None => throw TypeError
  end.

(** [target[key] = val] *)
Definition assign_prop (n : nat) (target : value) (k : key) (val : value) : M unit :=
  match target with
  | VObj a =>
    o ← gets (λ s, heap s !! a);
    match o with
    | None => throw TypeError
    | Some o =>
      match lookup_prop o k with
      | Some p =>
        match p_kind p with
        | PData _ =>
          if o_frozen o then throw TypeError
          else update_obj a (with_props (put_assoc k
                 (Prop_ (PData val) (p_enumerable p) (p_configurable p))))
        | PAccessor _ (Some f) => call f target [val];; mret tt
        | PAccessor _ None => throw TypeError
        | PReactive c => reactiveSetter n c val
        end
      | None =>
        if is_array o then
          match k with
          | KIdx i =>
            if o_frozen o then throw TypeError
            else if bool_decide (i < length (o_elems o)) then
              update_obj a (with_elems (λ xs, <[i := val]> xs))
            else if o_extensible o then
              update_obj a (with_elems (λ xs,
                xs ++ replicate (i - length xs) VUndefined ++ [val]))
            else throw TypeError
          | KStr s =>
            if bool_decide (s = "length") then
              match val with
              | VNum (Fin z) =>
                if bool_decide (0 ≤ z)%Z then set_length a (Z.to_nat z)
                else throw (VStr "RangeError")
              | _ => throw (VStr "RangeError")
              end
            else if o_extensible o then
              update_obj a (with_props (put_assoc k (Prop_ (PData val) true true)))
            else throw TypeError
          end
        else if o_extensible o then
          update_obj a (with_props (put_assoc k (Prop_ (PData val) true true)))
        else throw TypeError
      end
    end
  | _ => throw TypeError
  end.

(** [delete target[key]], for an own key *)
Definition delete_prop (target : value) (k : key) : M unit :=
  match target with
  | VObj a =>
    o ← gets (λ s, heap s !! a);
    match o with
    | None => mret tt
    | Some o =>
      match lookup_prop o k with
      | Some p =>
        if p_configurable p && negb (o_frozen o)
        then update_obj a (with_props (del_assoc k))
        else throw TypeError
      | None =>
        if is_array o then
          match k with
          | KIdx i =>
            if o_frozen o then throw TypeError
            else update_obj a (with_elems (λ xs, <[i := VUndefined]> xs))
          | KStr s => if bool_decide (s = "length") then throw TypeError else mret tt
          end
        else mret tt
      end
    end
  | VStr _ => throw TypeError
  | VUndefined | VNull => throw TypeError
  | _ => mret tt
  end.

(** ** observer/array.js *)

(** [ToIntegerOrInfinity]; the conversion of strings and objects to
    numbers is the platform's. *)
Definition to_integer (v : value) : Z :=
  match v with
  | VNum (Fin z) => z
  | VNum NaN | VUndefined | VNull => 0%Z
  | VBool b => if b then 1%Z else 0%Z
  | _ => toInteger v
  end.

Definition alloc_array (xs : list value) : M addr :=
  λ s, let a := fresh (dom (heap s)) in
       (set_heap <[a := Obj CArray [] xs true false None 0 false]> s, Ok a).

(** [original.apply (this, args)]: the platform's array method. *)
Definition original (m : method) (a : addr) (args : list value) : M value :=
  o ← gets (λ s, heap s !! a);
  match o with
  | None => throw TypeError
  | Some o =>
    if negb (is_array o) || o_frozen o then throw TypeError
    else
      let xs := o_elems o in
      let store (xs' : list value) : M unit :=
        if negb (o_extensible o) && bool_decide (length xs < length xs')
        then throw TypeError
        else update_obj a (with_elems (λ _, xs')) in
      match m with
      | Push =>
        store (xs ++ args);;
        mret (VNum (Fin (Z.of_nat (length (xs ++ args)))))
      | Pop =>
        match last xs with
        | Some x => store (removelast xs);; mret x
        | None => mret VUndefined
        end
      | Shift =>
        match xs with
        | x :: xs' => store xs';; mret x
        | [] => mret VUndefined
        end
      | Unshift =>
        store (args ++ xs);;
        mret (VNum (Fin (Z.of_nat (length (args ++ xs)))))
      | Splice =>
        let len := Z.of_nat (length xs) in
        let rel := match args with [] => 0%Z | st :: _ => to_integer st end in
        let start := if (rel <? 0)%Z then Z.max (len + rel) 0 else Z.min rel len in
        let dc := match args with
                  | [] => 0%Z
                  | [_] => (len - start)%Z
                  | _ :: d :: _ => Z.min (Z.max (to_integer d) 0) (len - start)
                  end in
        let removed := take (Z.to_nat dc) (drop (Z.to_nat start) xs) in
        store (take (Z.to_nat start) xs ++ drop 2 args
               ++ drop (Z.to_nat (start + dc)) xs);;
        r ← alloc_array removed;
        mret (VObj r)
      | Sort =>
        xs' ← nativeSort xs args;
        store xs';;
        mret (VObj a)
      | Reverse =>
        store (reverse xs);;
        mret (VObj a)
      end
  end.

(** The arguments that are newly inserted elements. *)
Definition inserted (m : method) (args : list value) : option (list value) :=
  match m with
  | Push | Unshift => Some args
  | Splice => Some (drop 2 args)
  | _ => None
  end.

(** [mutator (...args)] for the method [m], with [this] the array [a] *)
Definition mutator (n : nat) (m : method) (a : addr) (args : list value) : M value :=
  result ← original m a args;
  ob ← gets (λ s, heap s !! a ≫= o_ob);
  match ob with
  | None => throw TypeError
  | Some ob =>
    match inserted m args with
    | Some ins => observeArray n ins
    | None => mret tt
    end;;
    Dep_notify n (ob_dep ob);;
    mret result
  end.

(** [target.m (...args)] for an array: the intercepted method when the
    array has been augmented, the platform's otherwise. *)
Definition call_method (n : nat) (m : method) (a : addr) (args : list value) : M value :=
  aug ← gets (λ s, from_option o_augmented false (heap s !! a));
  if (aug : bool) then mutator n m a args else original m a args.

(** ** observer/index.js: [set] and [del] *)

Definition key_value (k : key) : value :=
  match k with
  | KIdx i => VNum (Fin (Z.of_nat i))
  | KStr s => VStr s
  end.

Definition ob_of (target : value) : M (option ob_ref) :=
  match target with
  | VObj a => gets (λ s, heap s !! a ≫= o_ob)
  | VUndefined | VNull => throw TypeError
  | _ => mret None
  end.

(** [target._isVue || (ob && ob.vmCount)] *)
Definition is_root (n : nat) (target : value) (ob : option ob_ref) : M bool :=
  isv ← read_isVue n target;
  if (isv : bool) then mret true
  else
    match ob with
    | Some r =>
      gets (λ s, negb (bool_decide
              (from_option o_vmCount 0 (heap s !! ob_value r) = 0)))
    | None => mret false
    end.

(** The part of [set] after the array branch. *)
Definition set_on_object (n : nat) (target : value) (k : key) (val : value) : M value :=
  inT ← key_in target k;
  if (inT : bool) && negb (inObjectPrototype k) then
    assign_prop n target k val;;
    mret val
  else
    ob ← ob_of target;
    root ← is_root n target ob;
    if (root : bool) then
      when (negb production)
        (warn msg_set_root);;
      mret val
    else
      match ob with
      | None => assign_prop n target k val;; mret val
      | Some r =>
        defineReactive n (ob_value r) k (Some val) None false;;
        Dep_notify n (ob_dep r);;
        mret val
      end.

(** [set (target, key, val)] *)
Definition set (n : nat) (target : value) (k : key) (val : value) : M value :=
  when (negb production && (isUndef target || isPrimitive target))
    (warn msg_set_primitive);;
  isA ← gets (λ s, isArray s target);
  match target, k with
  | VObj a, KIdx i =>
    if (isA : bool) then
      len ← gets (λ s, length (from_option o_elems [] (heap s !! a)));
      set_length a (Nat.max len i);;
      call_method n Splice a [key_value k; VNum (Fin 1); val];;
      mret val
    else set_on_object n target k val
  | _, _ => set_on_object n target k val
  end.

(** The part of [del] after the array branch. *)
Definition del_on_object (n : nat) (target : value) (k : key) : M unit :=
  ob ← ob_of target;
  root ← is_root n target ob;
  if (root : bool) then
    when (negb production)
      (warn msg_del_root)
  else
    own ← hasOwn target k;
    if (own : bool) then
      delete_prop target k;;
      match ob with
      | None => mret tt
      | Some r => Dep_notify n (ob_dep r)
      end
    else mret tt.

(** [del (target, key)] *)
Definition del (n : nat) (target : value) (k : key) : M unit :=
  when (negb production && (isUndef target || isPrimitive target))
    (warn msg_del_primitive);;
  isA ← gets (λ s, isArray s target);
  match target, k with
  | VObj a, KIdx i =>
    if (isA : bool) then
      call_method n Splice a [key_value k; VNum (Fin 1)];;
      mret tt
    else del_on_object n target k
  | _, _ => del_on_object n target k
  end.

(** ** util/next-tick.js *)

(** [_resolve (ctx)]: settles the promise if it is still pending. *)
Definition resolve (p : promise_id) (v : value) : M unit :=
  modify (set_promises (λ ps,
    match ps !! p with
    | Some None => <[p := Some v]> ps
    | _ => ps
    end)).

(** The closure [nextTick] pushes onto [callbacks]. *)
Definition run_tick (t : tick) : M unit :=
  match t_cb t with
  | Some cb =>
    try_catch (call cb (t_ctx t) [];; mret tt)
              (λ e, handleError e "nextTick")
  | None =>
    match t_resolve t with
    | Some p => resolve p (t_ctx t)
    | None => mret tt
    end
  end.

Definition flushCallbacks : M unit :=
  modify (set_pending false);;
  copies ← gets callbacks;
  modify (set_callbacks (λ _, []));;
  forM copies run_tick.

(** [timerFunc ()]: asks the platform to run [flushCallbacks] once the
    current synchronous work is over; recorded as an event. *)
Definition timerFunc : M unit :=
  modify (add_log EvTimer).

(** [nextTick (cb, ctx)].  The closure captures the variable [_resolve],
    which is assigned when the promise is created at the end of the call,
    before any queued closure can run; the entry therefore carries the
    promise that is about to be created. *)
Definition nextTick (cb : option fn) (ctx : value) : M (option promise_id) :=
  let wants_promise := negb (isSome cb) && hasPromise in
  p ← gets (λ s, length (promises s));
  modify (set_callbacks (λ q,
    q ++ [Tick cb ctx (if wants_promise then Some p else None)]));;
  pend ← gets pending;
  when (negb pend) (modify (set_pending true);; timerFunc);;
  if wants_promise then
    modify (set_promises (λ ps, ps ++ [None]));;
    mret (Some p)
  else mret None.

End Engine.


(** * Further functions of the sources *)

(** ** util/options.js: the merge strategy of lifecycle hooks

    A hook is a function; functions are identified as user functions are
    everywhere else, so that [indexOf] compares them by identity. *)

(** [l.indexOf (x)]: the first index of [x], or [-1]. *)
Definition indexOf (x : fn) (l : list fn) : Z :=
  match list_find (λ y, y = x) l with
  | Some (i, _) => Z.of_nat i
  | None => (-1)%Z
  end.

(** [dedupeHooks (hooks)]; the accumulator of the loop is [res]. *)
Definition dedupeHooks (hooks : list fn) : list fn :=
  foldl (λ res h, if (indexOf h res =? -1)%Z then res ++ [h] else res) [] hooks.

(** The child's value of a hook option: one function, or an array. *)
Inductive hook_option := HFn (f : fn) | HArr (l : list fn).

(** [parentVal.concat (childVal)] *)
Definition concat_hooks (parentVal : list fn) (childVal : hook_option) : list fn :=
  match childVal with
  | HFn f => parentVal ++ [f]
  | HArr l => parentVal ++ l
  end.

(** [mergeHook (parentVal, childVal)]; [None] is [undefined]. *)
Definition mergeHook (parentVal : option (list fn)) (childVal : option hook_option)
    : option (list fn) :=
  let res :=
    match childVal with
    | Some c =>
      match parentVal with
      | Some p => Some (concat_hooks p c)
      | None => Some (match c with HArr l => l | HFn f => [f] end)
      end
    | None => parentVal
    end in
  match res with
  | Some res => Some (dedupeHooks res)
  | None => None
  end.

(** ** Watcher: the end of its life (observer/watcher.js) *)

Section Lifecycle.

Variable call : fn → value → list value → M value.
(** [remove (vm._watchers, w)]: the list of the watchers of a component is
    kept by the component, whose code (instance/state.js) is not among the
    sources, and so is the [remove] helper of shared/util. *)
Variable remove_from_owner : value → wid → M unit.

(** [teardown ()] *)
Definition teardown (n : nat) (w : wid) : M unit :=
  W ← the_watcher w;
  if w_active W then
    destroyed ← get_prop call n (w_vm W) (KStr "_isBeingDestroyed");
    when (negb (truthy destroyed)) (remove_from_owner (w_vm W) w);;
    W' ← the_watcher w;
    forM (reverse (w_deps W')) (λ d, Dep_removeSub d w);;
    update_watcher w (set_active false)
  else mret tt.

End Lifecycle.

(** ** observer/index.js: the observation switch *)

(** [toggleObserving (value)] *)
Definition toggleObserving (value : bool) : M unit :=
  modify (set_shouldObserve value).

(** ** util/options.js: merging of data objects *)

(** [isPlainObject (v)], on what [observe] takes for a plain object. *)
Definition isPlainObject (s : St) (v : value) : bool :=
  match v with
  | VObj a => from_option is_plain false (heap s !! a)
  | _ => false
  end.

(** The index keys of an array. *)
Definition index_keys (o : obj) : list key :=
  if is_array o then KIdx <$> seq 0 (length (o_elems o)) else [].

(** [Reflect.ownKeys (o)]: all own keys, apart from the hidden [__ob__],
    which the loop of [mergeData] skips and the model keeps as a field. *)
Definition own_keys (o : obj) : list key :=
  index_keys o ++ (if is_array o then [KStr "length"] else [])
  ++ (o_props o).*1.

(** [Object.keys (o)], for arrays too. *)
Definition enumerable_keys (o : obj) : list key :=
  index_keys o ++ object_keys o.

Section MergeData.

Variable production : bool.
Variable serverRendering : bool.
Variable hasSymbol : bool.          (* [hasSymbol] of util/env *)
Variable call : fn → value → list value → M value.
Variable queueWatcher : wid → M unit.
Variable nativeSort : list value → list value → M (list value).
Variable inherited : oclass → key → bool.
Variable inObjectPrototype : key → bool.
Variable toInteger : value → Z.

(** [v[key]], with the [length] of an array. *)
Definition member (n : nat) (v : value) (k : key) : M value :=
  match v, k with
  | VObj a, KStr str =>
    o ← gets (λ s, heap s !! a);
    if from_option is_array false o && bool_decide (str = "length")
    then mret (VNum (Fin (Z.of_nat (length (from_option o_elems [] o)))))
    else get_prop call n v k
  | _, _ => get_prop call n v k
  end.

(** [mergeData (to, from)]; [from] is [None] when it is [undefined]. *)
Fixpoint mergeData (n : nat) (to : addr) (from : option addr) : M addr :=
  match n with
  | 0 => diverge
  | S n' =>
    match from with
    | None => mret to
    | Some from =>
      o ← gets (λ s, heap s !! from);
      let keys :=
        from_option (if hasSymbol then own_keys else enumerable_keys) [] o in
      forM keys (λ key,
        if decide (key = KStr "__ob__") then mret tt
        else
          toVal ← member n' (VObj to) key;
          fromVal ← member n' (VObj from) key;
          own ← hasOwn (VObj to) key;
          if negb own then
            set production serverRendering call queueWatcher nativeSort
              inherited inObjectPrototype toInteger n' (VObj to) key fromVal;;
            mret tt
          else
            plain ← gets (λ s, isPlainObject s toVal && isPlainObject s fromVal);
            if negb (strict_eq toVal fromVal) && plain then
              match toVal, fromVal with
              | VObj to', VObj from' => mergeData n' to' (Some from');; mret tt
              | _, _ => mret tt
              end
            else mret tt);;
      mret to
    end
  end.

End MergeData.


(** * Specification predicates *)

(** ** Dependency bookkeeping *)

Definition same_tracking (W W' : watcher) : Prop :=
  w_deps W = w_deps W' ∧ w_newDeps W = w_newDeps W' ∧
  w_depIds W = w_depIds W' ∧ w_newDepIds W = w_newDepIds W'.

(** A watcher as its constructor leaves the four collections. *)
Definition fresh_watcher (W : watcher) : Prop :=
  w_deps W = [] ∧ w_newDeps W = [] ∧ w_depIds W = ∅ ∧ w_newDepIds W = ∅.

Definition init_store : St :=
  mkSt ∅ ∅ 0 0 ∅ [] ∅ true ∅ [] false [] [].

(** The stores the engine can reach, as far as subscriptions are concerned:
    watchers are created, dependencies are recorded by [addDep] in any
    order and number, evaluations end with [cleanupDeps], watchers are torn
    down, and everything else leaves subscriber lists and the four
    collections alone. *)
Inductive reachable : St → Prop :=
| reach_init : reachable init_store
| reach_new_watcher s w W :
    reachable s → watchers s !! w = None → fresh_watcher W →
    reachable (set_watchers <[w := W]> s)
| reach_addDep s w d :
    reachable s → reachable (Watcher_addDep w d s).1
| reach_cleanupDeps s w :
    reachable s → reachable (Watcher_cleanupDeps w s).1
| reach_teardown s w :
    reachable s → reachable (Watcher_teardown w s).1
| reach_other s s' :
    reachable s → subs s' = subs s →
    (∀ w, option_Forall2 same_tracking (watchers s !! w) (watchers s' !! w)) →
    reachable s'.

Record tracking_ok (s : St) : Prop := TrackingOk {
  ok_newDeps : ∀ w W, watchers s !! w = Some W → NoDup (w_newDeps W);
  ok_newDepIds : ∀ w W d, watchers s !! w = Some W →
                 d ∈ w_newDepIds W ↔ d ∈ w_newDeps W;
  ok_depIds : ∀ w W d, watchers s !! w = Some W →
              d ∈ w_depIds W → d ∈ w_deps W;
  ok_subs : ∀ d, NoDup (dep_subs s d);
  ok_tracked : ∀ d w, w ∈ dep_subs s d →
               ∃ W, watchers s !! w = Some W ∧
                    (d ∈ w_depIds W ∨ d ∈ w_newDepIds W)
}.

(** A computation preserves a property of the store, whatever its
    outcome. *)
Definition preserves (P : St → Prop) {A} (m : M A) : Prop :=
  ∀ s, P s → P (m s).1.

(** ** Object graphs *)

(** The ids of the container-level Deps present in a heap. *)
Definition ob_ids (h : gmap addr obj) : gset dep_id :=
  list_to_set (omap (λ ao, ob_dep <$> o_ob ao.2) (map_to_list h)).

(** The value a read of the property returns when the read runs no user
    code: the property is a data property, or a reactive property whose cell
    has no pre-existing getter. *)
Definition stored_value (cs : gmap cell_id cell) (p : prop) : option value :=
  match p_kind p with
  | PData v => Some v
  | PAccessor _ _ => None
  | PReactive c =>
    match cs !! c with
    | Some C => if isSome (c_getter C) then None else Some (c_val C)
    | None => None
    end
  end.

(** A store of plain data: no own property has a user-defined getter. *)
Definition plain_data (s : St) : Prop :=
  ∀ a o k p, heap s !! a = Some o → (k, p) ∈ o_props o →
             is_Some (stored_value (cells s) p).

(** The values an object refers to: its elements and its property values. *)
Definition children (cs : gmap cell_id cell) (o : obj) : list value :=
  o_elems o ++ omap (λ kp, stored_value cs kp.2) (o_props o).

(** [rank] witnesses that the references of the store have no cycle made
    only of unobserved objects, and no array that contains itself through
    nested arrays: it decreases along every reference out of an unobserved
    object that [_traverse] descends into, and from an array to an array
    among its elements. *)
Definition rank_ok (s : St) (rank : addr → nat) : Prop :=
  (∀ a o b, heap s !! a = Some o → o_ob o = None → o_frozen o = false →
            o_class o ≠ CVNode → VObj b ∈ children (cells s) o →
            rank b < rank a)
  ∧ (∀ a o b o', heap s !! a = Some o → VObj b ∈ o_elems o →
                 heap s !! b = Some o' → is_array o' = true →
                 rank b < rank a).

(** The active watcher, if any, exists. *)
Definition target_ok (s : St) : Prop :=
  ∀ w, Dep_target s = Some w → is_Some (watchers s !! w).

Definition rank_of (rank : addr → nat) (v : value) : nat :=
  match v with VObj a => rank a | _ => 0 end.

(** A recursion budget that suffices for [_traverse]: every Dep id not yet
    seen allows one more descent through an observed object, and between
    two of them the rank bounds the descent. *)
Definition traverse_fuel (rank : addr → nat) (R : nat) (s : St) (v : value) : nat :=
  size (ob_ids (heap s) ∖ seenObjects s) * (R + 1) + rank_of rank v + (R + 3).

(** What a traversal leaves alone. *)
Definition frame (s s' : St) : Prop :=
  heap s' = heap s ∧ cells s' = cells s ∧ targetStack s' = targetStack s
  ∧ (∀ w, is_Some (watchers s !! w) → is_Some (watchers s' !! w))
  ∧ seenObjects s ⊆ seenObjects s'.

(** The outcome of a computation whose value is discarded. *)
Definition discard {A} (r : res A) : res unit :=
  match r with Ok _ => Ok tt | Throw e => Throw e | Diverge => Diverge end.

Definition returned (r : res value) : option value :=
  match r with Ok v => Some v | _ => None end.

(** The store after a diagnostic: a warning is logged unless the build is
    a production build. *)
Definition diagnostic (production : bool) (msg : string) (s : St) : St :=
  if production then s else add_log (EvWarn msg) s.

(** Case split on whether a looked-up watcher is the updated one. *)
Ltac at_watcher w' w :=
  destruct (decide (w' = w)) as [->|];
  [rewrite lookup_insert_eq; intros [= <-]; simpl
  |rewrite lookup_insert_ne by done; intros ?].


(** The write of a changed value in the words of the specification, to be
    compared with [reactiveSetter]: store the new value, re-derive the nested
    wrapper by observing it, call [notify] of the field's Dep. *)
Definition write_as_specified (serverRendering : bool)
    (call : fn → value → list value → M value) (queueWatcher : wid → M unit)
    (n : nat) (c : cell_id) (newVal : value) : M unit :=
  C ← the_cell c;
  update_cell c (with_val newVal);;
  childOb ← observe serverRendering call n newVal false;
  update_cell c (with_childOb childOb);;
  Dep_notify call queueWatcher n (c_dep C).

(** ** Hooks *)

(** The first occurrences of the elements of a list, in order. *)
Fixpoint first_occurrences (l : list fn) : list fn :=
  match l with
  | [] => []
  | x :: l' => x :: filter (λ y, y ≠ x) (first_occurrences l')
  end.

(** The hooks a child's option gives. *)
Definition hooks_of (c : hook_option) : list fn :=
  match c with HFn f => [f] | HArr l => l end.

(** ** Subscriptions *)

(** A watcher is in the subscriber list of every Dep it has recorded. *)
Definition subscribed (s : St) : Prop :=
  ∀ w W d, watchers s !! w = Some W →
    d ∈ w_depIds W ∨ d ∈ w_newDepIds W → w ∈ dep_subs s d.

(** The two sides of the subscription relation agree. *)
Definition in_agreement (s : St) : Prop := tracking_ok s ∧ subscribed s.

(** The watcher [W] after [addDep] has recorded the Dep [d]. *)
Definition recorded (d : dep_id) (W : watcher) : watcher :=
  if decide (d ∈ w_newDepIds W) then W
  else set_tracking (w_deps W) (w_newDeps W ++ [d]) (w_depIds W)
         ({[d]} ∪ w_newDepIds W) W.

(** ** Instrumented fields *)

(** The store after [defineReactive] has turned the field [k] of the object
    [a] into a reactive field that holds [v] and has no nested observer: a
    Dep id and a cell have been taken, and the property is the accessor
    pair of the cell. *)
Definition instrumented (a : addr) (k : key) (v : value) (custom : option fn)
    (shallow : bool) (s : St) : St :=
  set_heap (alter (with_props
                     (put_assoc k (Prop_ (PReactive (next_cell s)) true true))) a)
    (set_next_cell S
       (set_cells
          <[next_cell s := Cell a v None (dep_uid s) None None shallow custom]>
          (set_dep_uid S s))).

(** The value a data field holds, [undefined] for an absent field. *)
Definition field_value (o : obj) (k : key) : option value :=
  match lookup_prop o k with
  | Some p => match p_kind p with PData v => Some v | _ => None end
  | None => Some VUndefined
  end.

(** Observation only allocates Dep ids and cells and changes the heap. *)
Definition observation_frame (s s' : St) : Prop :=
  subs s' = subs s ∧ targetStack s' = targetStack s
  ∧ watchers s' = watchers s ∧ shouldObserve s' = shouldObserve s
  ∧ seenObjects s' = seenObjects s ∧ callbacks s' = callbacks s
  ∧ pending s' = pending s ∧ promises s' = promises s ∧ log s' = log s.

(** An object whose own properties are data properties holding primitive
    values, under distinct keys. *)
Definition flat_object (o : obj) : Prop :=
  NoDup (o_props o).*1
  ∧ ∀ k p, (k, p) ∈ o_props o → ∃ v, p_kind p = PData v ∧ isObject v = false.

(** The enumerable properties of the object are reactive fields that hold
    primitive values, without a pre-existing getter and without a nested
    observer; [deps] are the ids of their Deps, in the order of the keys. *)
Definition reactive_fields (s : St) (o : obj) (deps : list dep_id) : Prop :=
  Forall2 (λ k d, ∃ p c C,
             lookup_prop o k = Some p ∧ p_kind p = PReactive c
             ∧ cells s !! c = Some C ∧ c_dep C = d ∧ c_getter C = None
             ∧ c_childOb C = None ∧ isObject (c_val C) = false)
    (object_keys o) deps.

(** ** Requests for deferred callbacks *)

(** A sequence of [nextTick (cb, ctx)] calls, their results discarded. *)
Definition schedule (hasPromise : bool) (reqs : list (option fn * value)) : M unit :=
  forM reqs (λ r, nextTick hasPromise r.1 r.2;; mret tt).

(** The callback and the context a queue entry was made for. *)
Definition tick_request (t : tick) : option fn * value := (t_cb t, t_ctx t).

(** ** Arrays *)

(** The ids of the Deps that [dependArray] registers for one element: the
    Dep of its Observer, if it has one, followed, when the element is an
    array, by the ids [nested] gives for it. *)
Definition item_deps (h : gmap addr obj) (nested : addr → option (list dep_id))
    (e : value) : option (list dep_id) :=
  match e with
  | VObj b =>
    match h !! b with
    | Some o' =>
      let own := option_list (ob_dep <$> o_ob o') in
      if is_array o' then (own ++.) <$> nested b else Some own
    | None => Some []
    end
  | _ => Some []
  end.

(** The ids of the Deps that [dependArray] registers for the array [a], in
    order, within the nesting depth [n]; [None] when the arrays are nested
    deeper than that. *)
Fixpoint array_deps (h : gmap addr obj) (n : nat) (a : addr) : option (list dep_id) :=
  match n with
  | 0 => None
  | S n' =>
    mjoin <$> mapM (item_deps h (array_deps h n'))
                 (from_option o_elems [] (h !! a))
  end.

(** A store with the heap [h] in which the watcher [t] is being evaluated. *)
Definition tracking_target (h : gmap addr obj) (t : wid) (s : St) : Prop :=
  heap s = h ∧ Dep_target s = Some t ∧ is_Some (watchers s !! t).

(** ** Merged data *)

(** An object whose own properties are data properties under distinct
    keys. *)
Definition data_object (o : obj) : Prop :=
  NoDup (o_props o).*1
  ∧ ∀ k p, (k, p) ∈ o_props o → ∃ v, p_kind p = PData v.

(** The property [mergeData] adds to [oT] for the key [k] of [oF], if any. *)
Definition merged_in (oT oF : obj) (k : key) : option (key * prop) :=
  match lookup_prop oT k, field_value oF k with
  | None, Some v => Some (k, Prop_ (PData v) true true)
  | _, _ => None
  end.

(** The keys of [from] that [mergeData] visits. *)
Definition visited_keys (hasSymbol : bool) (o : obj) : list key :=
  if hasSymbol then (o_props o).*1 else object_keys o.

(** ** Inserted elements *)

(** An element that [observeArray] promotes without looking further into
    the heap: a value that is not an object, an object that is observed, or
    an unobserved, extensible plain object whose properties are data
    properties holding primitive values and whose [_isVue] flag is not set;
    not a VNode. *)
Definition promotable (s : St) (v : value) : Prop :=
  match v with
  | VObj b =>
    ∃ o, heap s !! b = Some o ∧ o_class o ≠ CVNode
      ∧ (o_ob o = None →
         o_class o = CPlain ∧ o_extensible o = true ∧ flat_object o
         ∧ ∀ p x, lookup_prop o (KStr "_isVue") = Some p →
                  p_kind p = PData x → truthy x = false)
  | _ => True
  end.

(** * Scenarios

    Concrete stores and user functions on which the properties are
    exercised. *)

(** User code that does nothing, a scheduler that ignores its argument, a
    sort that keeps the order, no inherited keys. *)
Definition no_calls : fn → value → list value → M value :=
  λ _ _ _, mret VUndefined.
Definition no_queue : wid → M unit := λ _, mret tt.
Definition keep_order : list value → list value → M (list value) :=
  λ xs _, mret xs.
Definition no_keys : key → bool := λ _, false.
Definition no_inherited : oclass → key → bool := λ _ _, false.
Definition no_integer : value → Z := λ _, 0%Z.

(** A watcher as its constructor leaves it. *)
Definition new_watcher (getter cb : fn) (deep user lazy sync : bool) : watcher :=
  Watcher VUndefined getter cb deep user lazy sync lazy true [] [] ∅ ∅
          VUndefined "w".

Definition data_prop (v : value) : prop := Prop_ (PData v) true true.

Definition plain_object (props : list (key * prop)) : obj :=
  Obj CPlain props [] true false None 0 false.

(** ** A watcher that has recorded one dependency *)

Definition one_watcher : St :=
  set_watchers <[1 := new_watcher 1 2 false false false false]> init_store.

Definition one_dependency : St := (Watcher_addDep 1 7 one_watcher).1.

Definition one_dependency_watcher : watcher :=
  set_tracking [] [7] ∅ ({[7]} ∪ ∅) (new_watcher 1 2 false false false false).

(** ** A field with a getter and no setter

    The object [0] has the accessor property [x] whose getter, the user
    function [1], returns [1]; [defineReactive] has instrumented it, and the
    lazy watcher [1], evaluated and clean, has subscribed to the field's
    Dep, whose id is [0]. *)

Definition getter_calls : fn → value → list value → M value :=
  λ f _ _, if decide (f = 1) then mret (VNum (Fin 1)) else mret VUndefined.

Definition accessor_object : St :=
  set_heap <[0 := plain_object
                    [(KStr "x", Prop_ (PAccessor (Some 1) None) true true)]]>
    init_store.

Definition getter_only_store : St :=
  (Watcher_cleanupDeps 1
     (Watcher_addDep 1 0
        (set_watchers
           <[1 := set_dirty false (new_watcher 3 4 false false true false)]>
           (defineReactive false getter_calls 1 0 (KStr "x") None None false
              accessor_object).1)).1).1.

(** ** A deep watcher over an object whose getter throws

    The watcher [1] is deep and user-defined; its computation, the user
    function [1], reads a field whose Dep id is [7] and returns the observed
    object [0], whose reactive property [x] has a pre-existing getter, the
    user function [2], that throws.  In the previous cycle the watcher
    depended on the Dep [9]. *)

Definition throwing_calls : fn → value → list value → M value :=
  λ f _ _,
    if decide (f = 1) then Dep_depend 7;; mret (VObj 0)
    else if decide (f = 2) then throw (VStr "boom")
    else mret VUndefined.

Definition deep_throw_store : St :=
  set_subs <[9 := [1]]>
    (set_watchers
       <[1 := set_tracking [9] [] {[9]} ∅ (new_watcher 1 3 true true false false)]>
       (set_cells
          <[0 := Cell 0 VUndefined None 4 (Some (AUser 2)) None false None]>
          (set_heap
             <[0 := Obj CPlain [(KStr "x", Prop_ (PReactive 0) true true)] []
                        true false (Some (ObRef 0 3)) 0 false]>
             init_store))).

(** ** An observed array *)

Definition array_store : St :=
  set_heap
    <[0 := Obj CArray [] [VNum (Fin 1)] true false (Some (ObRef 0 2)) 0 true]>
    init_store.

(** ** Watchers whose computation or callback throws, or logs *)

Definition run_calls : fn → value → list value → M value :=
  λ f _ _,
    if decide (f = 1) then mret (VNum (Fin 5))
    else if decide (f = 2) then modify (add_log (EvWarn "callback"));; mret VUndefined
    else if decide (f = 3) then throw (VStr "boom")
    else mret VUndefined.

(** The watcher [1] computes [5] and logs in its callback; the user watcher
    [2] has a computation that throws; the user watcher [3] computes [5] and
    has a callback that throws. *)
Definition run_store : St :=
  set_watchers
    (λ _, <[1 := set_value (VNum (Fin 4)) (new_watcher 1 2 false false false false)]>
          (<[2 := new_watcher 3 2 false true false false]>
           (<[3 := new_watcher 1 3 false true false false]> ∅)))
    init_store.

(** ** Targets of [set] and [del] *)

(** A Vue instance, as [_init] leaves it: [_isVue] is set and [_self] refers
    to the instance itself; it also carries a property [count]. *)
Definition vue_instance : obj :=
  plain_object [(KStr "_isVue", data_prop (VBool true));
                (KStr "_self", data_prop (VObj 0));
                (KStr "count", data_prop (VNum (Fin 0)))].

Definition vue_store : St := set_heap <[0 := vue_instance]> init_store.

(** An observed object counted once as root data. *)
Definition root_store : St :=
  set_heap <[0 := Obj CPlain [] [] true false (Some (ObRef 0 2)) 1 false]>
    init_store.

(** ** Callbacks for [nextTick] *)

(** The callback [1] schedules the callback [2]; the callback [3] throws. *)
Definition tick_calls : fn → value → list value → M value :=
  λ f _ _,
    if decide (f = 1) then nextTick true (Some 2) VNull;; mret VUndefined
    else if decide (f = 3) then throw (VStr "boom")
    else mret VUndefined.

Definition one_tick : St :=
  set_pending true (set_callbacks (λ _, [Tick (Some 1) VUndefined None]) init_store).

(** ** Two observed objects that refer to each other *)

Definition cycle_store : St :=
  set_heap
    (λ _, <[0 := Obj CPlain [(KStr "peer", data_prop (VObj 1))] [] true false
                     (Some (ObRef 0 0)) 0 false]>
          (<[1 := Obj CPlain [(KStr "peer", data_prop (VObj 0))] [] true false
                      (Some (ObRef 1 1)) 0 false]> ∅))
    init_store.

Definition flat : addr → nat := λ _, 0.

(** ** An instrumented data field

    The object [0] has the data property [y], holding [1], which
    [defineReactive] has instrumented; the field's Dep has the id [0]. *)

Definition data_store : St :=
  (defineReactive false no_calls 1 0 (KStr "y") None None false
     (set_heap <[0 := plain_object [(KStr "y", data_prop (VNum (Fin 1)))]]>
        init_store)).1.

Definition data_cell : cell :=
  Cell 0 (VNum (Fin 1)) None 0 None None false None.

(** The stores after the evaluation of the watchers [1] and [3] of
    [run_store]. *)
Definition run_store_1 : St := (Watcher_get run_calls 3 1 run_store).1.
Definition run_store_3 : St := (Watcher_get run_calls 3 3 run_store).1.

(** Case analysis on a lookup in a store built by insertions. *)
Ltac heap_cases H :=
  repeat (apply lookup_insert_Some in H as [[<- <-]|[? H]]);
  [..|by rewrite lookup_empty in H].

(** ** A watcher owned by a component

    The watcher [1] belongs to the instance at [0]; it depends on the Dep
    [7], which an evaluation recorded and [cleanupDeps] kept. *)

Definition no_owner : value → wid → M unit := λ _ _, mret tt.

Definition owned_watcher : watcher :=
  Watcher (VObj 0) 1 2 false false false false false true [] [] ∅ ∅
          VUndefined "w".

Definition owned_store : St :=
  set_heap <[0 := vue_instance]>
    (Watcher_cleanupDeps 1
       (Watcher_addDep 1 7
          (set_watchers <[1 := owned_watcher]> init_store)).1).1.

(** ** A computed watcher read during an evaluation

    The watcher [1] depends on the Dep [7]; the watcher [2] is being
    evaluated. *)

Definition depend_store : St :=
  set_targetStack (cons 2)
    (set_watchers <[2 := new_watcher 3 4 false false true false]>
       (Watcher_cleanupDeps 1 one_dependency).1).

(** ** A plain object and an array, not yet observed *)

Definition plain_y : obj := plain_object [(KStr "y", data_prop (VNum (Fin 1)))].

Definition plain_store : St := set_heap <[0 := plain_y]> init_store.

Definition plain_array : obj :=
  Obj CArray [] [VNum (Fin 1)] true false None 0 false.

Definition plain_array_store : St := set_heap <[0 := plain_array]> init_store.

(** ** An instrumented field read during an evaluation

    The field [y] of [data_store], while the watcher [1] is being
    evaluated. *)

Definition reactive_y : obj :=
  plain_object [(KStr "y", Prop_ (PReactive 0) true true)].

Definition tracked_data_store : St :=
  set_targetStack (cons 1)
    (set_watchers <[1 := new_watcher 1 2 true false false false]> data_store).

(** ** An array that holds an observed object

    The array [0] holds the object [1], whose Observer has the Dep [5], and
    a number; the watcher [1] is being evaluated. *)

Definition observed_item : obj :=
  Obj CPlain [] [] true false (Some (ObRef 1 5)) 0 false.

Definition item_array : obj :=
  Obj CArray [] [VObj 1; VNum (Fin 1)] true false (Some (ObRef 0 4)) 0 true.

Definition item_store : St :=
  set_targetStack (cons 1)
    (set_watchers <[1 := new_watcher 1 2 false false false false]>
       (set_heap (λ _, <[0 := item_array]> (<[1 := observed_item]> ∅))
          init_store)).

(** ** Two data objects to merge

    The object [0] has the field [a]; the object [1] has the fields [a] and
    [b]. *)

Definition merge_to : obj := plain_object [(KStr "a", data_prop (VNum (Fin 1)))].

Definition merge_from : obj :=
  plain_object [(KStr "a", data_prop (VNum (Fin 2)));
                (KStr "b", data_prop (VNum (Fin 3)))].

Definition merge_store : St :=
  set_heap (λ _, <[0 := merge_to]> (<[1 := merge_from]> ∅)) init_store.

Definition merge_result : obj :=
  plain_object [(KStr "a", data_prop (VNum (Fin 1)));
                (KStr "b", data_prop (VNum (Fin 3)))].

(** ** Watchers that hold a stale dependency and whose computation throws

    The user watcher [1] and the internal watcher [2] both depended on the
    Dep [9] in their previous evaluation; their computation, the user
    function [1], reads a field whose Dep has the id [7] and then throws. *)

Definition stale_calls : fn → value → list value → M value :=
  λ f _ _,
    if decide (f = 1) then Dep_depend 7;; throw (VStr "boom")
    else mret VUndefined.

Definition stale_store : St :=
  (Watcher_cleanupDeps 2
     (Watcher_addDep 2 9
        (Watcher_cleanupDeps 1
           (Watcher_addDep 1 9
              (set_watchers <[2 := new_watcher 1 3 false false false false]>
                 (set_watchers <[1 := new_watcher 1 3 false true false false]>
                    init_store))).1).1).1).1.

(** The store in which the computation of the watcher [w] throws. *)
Definition stale_read (w : wid) : St :=
  (Watcher_addDep w 7 (set_targetStack (cons w) stale_store)).1.

(** ** An observed array with a subscriber

    The array [0] is observed, and the lazy watcher [1], evaluated and
    clean, has subscribed to the Dep of its Observer, whose id is [2]; the
    plain object [1] is not observed. *)

Definition watched_array_store : St :=
  set_dep_uid (λ _, 3)
    (set_subs <[2 := [1]]>
       (set_watchers
          <[1 := set_dirty false
                   (set_tracking [2] [] {[2]} ∅
                      (new_watcher 3 4 false false true false))]>
          (set_heap
             (λ _, <[0 := Obj CArray [] [VNum (Fin 1)] true false
                              (Some (ObRef 0 2)) 0 true]>
                   (<[1 := plain_object
                             [(KStr "y", data_prop (VNum (Fin 1)))]]> ∅))
             init_store))).

Definition watched_array_pushed : St :=
  (original keep_order no_integer Push 0 [VObj 1; VNum (Fin 2)]
     watched_array_store).1.

(** * Properties *)

(** ** Subscriber lists *)

Lemma remove_first_subset w l x : x ∈ remove_first w l → x ∈ l.
Proof.
  induction l as [|y l IH]; simpl; [done|].
  case_decide; set_solver.
Qed.

Lemma remove_first_NoDup w l : NoDup l → NoDup (remove_first w l).
Proof.
  induction 1 as [|y l Hy Hl IH]; simpl; [constructor|].
  case_decide; [done|].
  constructor; [|done]. intros Hin. by apply remove_first_subset in Hin.
Qed.

Lemma remove_first_absent w l : w ∉ l → remove_first w l = l.
Proof.
  induction l as [|y l IH]; simpl; [done|].
  intros Hw. case_decide; [set_solver|]. f_equal. apply IH. set_solver.
Qed.

Lemma remove_first_gone w l : NoDup l → w ∉ remove_first w l.
Proof.
  induction 1 as [|y l Hy Hl IH]; simpl; [set_solver|].
  case_decide; [by subst|]. set_solver.
Qed.

Lemma dep_subs_set_subs s f d :
  dep_subs (set_subs f s) d = default [] (f (subs s) !! d).
Proof. done. Qed.

(** The loop of [cleanupDeps] and [teardown]: [removeSub] on every listed
    Dep that is not in [N]. *)
Lemma prune_loop w (N : gset dep_id) (L : list dep_id) s :
  (∀ d, NoDup (dep_subs s d)) →
  ∃ s', forM L (λ d, if decide (d ∈ N) then mret tt else Dep_removeSub d w) s
          = (s', Ok tt)
        ∧ s' = set_subs (λ _, subs s') s
        ∧ ∀ d, dep_subs s' d =
               if decide (d ∈ L ∧ d ∉ N) then remove_first w (dep_subs s d)
               else dep_subs s d.
Proof.
  revert s. induction L as [|d0 L IH]; intros s Hnd.
  - exists s. split; [done|]. split; [by destruct s|].
    intros d. case_decide as H; [set_solver|done].
  - simpl. unfold bind at 1.
    destruct (decide (d0 ∈ N)) as [Hin|Hout].
    + simpl. destruct (IH s Hnd) as (s' & Hrun & Hfr & Hs').
      exists s'. split; [done|]. split; [done|].
      intros d. rewrite Hs'.
      repeat case_decide; try done; set_solver.
    + unfold Dep_removeSub at 1, modify at 1.
      set (s1 := set_subs <[d0:=remove_first w (dep_subs s d0)]> s).
      assert (Hs1 : ∀ d, dep_subs s1 d =
                if decide (d = d0) then remove_first w (dep_subs s d0)
                else dep_subs s d).
      { intros d. unfold s1. rewrite dep_subs_set_subs.
        case_decide; simplify_map_eq; done. }
      assert (Hnd1 : ∀ d, NoDup (dep_subs s1 d)).
      { intros d. rewrite Hs1. case_decide; [|done].
        by apply remove_first_NoDup. }
      destruct (IH s1 Hnd1) as (s' & Hrun & Hfr & Hs').
      exists s'. split; [done|]. split.
      { rewrite Hfr. by destruct s. }
      intros d. rewrite Hs', Hs1.
      destruct (decide (d = d0)) as [->|Hne].
      * rewrite (decide_True (P := d0 ∈ d0 :: L ∧ d0 ∉ N)) by set_solver.
        case_decide; [|done].
        apply remove_first_absent, remove_first_gone, Hnd.
      * repeat case_decide; try done; set_solver.
Qed.

Lemma prune_loop_all w (L : list dep_id) s :
  (∀ d, NoDup (dep_subs s d)) →
  ∃ s', forM L (λ d, Dep_removeSub d w) s = (s', Ok tt)
        ∧ s' = set_subs (λ _, subs s') s
        ∧ ∀ d, dep_subs s' d =
               if decide (d ∈ L) then remove_first w (dep_subs s d)
               else dep_subs s d.
Proof.
  intros Hnd. destruct (prune_loop w ∅ L s Hnd) as (s' & Hrun & Hfr & Hs').
  exists s'. split; [|split; [done|]].
  - rewrite <- Hrun. clear. revert s.
    induction L as [|d L IH]; intros s; [done|].
    simpl. unfold bind. rewrite decide_False by set_solver.
    destruct (Dep_removeSub d w s) as [s1 [[]| |]]; auto.
  - intros d. rewrite Hs'. repeat case_decide; try done; set_solver.
Qed.

(** ** The bookkeeping invariant *)

Lemma tracking_ok_init : tracking_ok init_store.
Proof.
  split; try (intros * H; by rewrite ?lookup_empty in H).
  - intros d. unfold dep_subs. simpl. rewrite lookup_empty. constructor.
  - intros d w H. unfold dep_subs in H. simpl in H.
    rewrite lookup_empty in H. set_solver.
Qed.

Lemma tracking_ok_new_watcher s w W :
  tracking_ok s → watchers s !! w = None → fresh_watcher W →
  tracking_ok (set_watchers <[w := W]> s).
Proof.
  intros [H1 H2 H3 H4 H5] Hw (Hd & Hn & Hdi & Hni).
  split; simpl.
  - intros w' W' HW'. destruct (decide (w' = w)) as [->|];
      simplify_map_eq; [rewrite Hn; constructor|eauto].
  - intros w' W' d HW'. destruct (decide (w' = w)) as [->|];
      simplify_map_eq; [rewrite Hn, Hni; set_solver|eauto].
  - intros w' W' d HW'. destruct (decide (w' = w)) as [->|];
      simplify_map_eq; [rewrite Hdi; set_solver|eauto].
  - done.
  - intros d w' Hin. destruct (H5 d w' Hin) as (W' & HW' & Hd').
    exists W'. split; [|done].
    rewrite lookup_insert_ne; [done|]. intros ->. congruence.
Qed.

Lemma update_watcher_at s w W f :
  watchers s !! w = Some W →
  set_watchers (alter f w) s = set_watchers (λ m, <[w := f W]> m) s.
Proof.
  intros HW. unfold set_watchers. f_equal.
  apply map_eq. intros i. destruct (decide (i = w)) as [->|].
  - by rewrite lookup_alter_eq, lookup_insert_eq, HW.
  - by rewrite lookup_alter_ne, lookup_insert_ne.
Qed.

Lemma tracking_ok_addDep s w d :
  tracking_ok s → tracking_ok (Watcher_addDep w d s).1.
Proof.
  intros Hok. pose proof Hok as [H1 H2 H3 H4 H5].
  unfold Watcher_addDep, mbind, M_bind, bind, the_watcher.
  destruct (watchers s !! w) as [W|] eqn:HW; [|done].
  destruct (decide (d ∈ w_newDepIds W)) as [Hin|Hnew]; [done|].
  unfold update_watcher, modify. simpl.
  rewrite (update_watcher_at s w W) by done.
  set (W' := set_tracking _ _ _ _ W).
  assert (Hfresh : d ∉ w_newDeps W) by (by rewrite <- (H2 w W d HW)).
  assert (Hmid : tracking_ok (set_watchers (λ m, <[w := W']> m) s)).
  { split; simpl.
    - intros w' X HX. destruct (decide (w' = w)) as [->|]; simplify_map_eq; [|eauto].
      apply NoDup_app. split_and!; [eauto|set_solver|apply NoDup_singleton].
    - intros w' X d' HX. destruct (decide (w' = w)) as [->|]; simplify_map_eq; [|eauto].
      specialize (H2 w W d' HW). set_solver.
    - intros w' X d' HX. destruct (decide (w' = w)) as [->|]; simplify_map_eq; eauto.
    - done.
    - intros d' w' Hin. destruct (H5 d' w' Hin) as (X & HX & Hd').
      destruct (decide (w' = w)) as [->|]; simplify_map_eq.
      + exists W'. split; [done|]. simpl. set_solver.
      + exists X. done. }
  destruct (decide (d ∈ w_depIds W)) as [Hold|Hnot]; [done|].
  simpl. destruct Hmid as [G1 G2 G3 G4 G5].
  assert (Hw : w ∉ dep_subs s d).
  { intros Hin. destruct (H5 d w Hin) as (X & HX & [?|?]); simplify_eq; done. }
  split; simpl; try done.
  - intros d'. rewrite dep_subs_set_subs. simpl.
    destruct (decide (d' = d)) as [->|]; simplify_map_eq.
    + apply NoDup_app. split_and!; [apply H4|set_solver|apply NoDup_singleton].
    + apply H4.
  - intros d' w'. rewrite dep_subs_set_subs. simpl.
    destruct (decide (d' = d)) as [->|]; simplify_map_eq.
    + intros [Hin| ->%list_elem_of_singleton]%elem_of_app.
      * apply (G5 d w' Hin).
      * exists W'. simplify_map_eq. split; [done|].
        simpl. set_solver.
    + intros Hin. apply (G5 d' w' Hin).
Qed.

Lemma cleanupDeps_run s w W :
  watchers s !! w = Some W → (∀ d, NoDup (dep_subs s d)) →
  ∃ s', Watcher_cleanupDeps w s = (s', Ok tt)
    ∧ s' = set_watchers (λ _, watchers s') (set_subs (λ _, subs s') s)
    ∧ watchers s' =
        <[w := set_tracking (w_newDeps W) [] (w_newDepIds W) ∅ W]> (watchers s)
    ∧ ∀ d, dep_subs s' d =
           if decide (d ∈ w_deps W ∧ d ∉ w_newDepIds W)
           then remove_first w (dep_subs s d) else dep_subs s d.
Proof.
  intros HW Hnd.
  unfold Watcher_cleanupDeps, mbind, M_bind, bind, the_watcher. rewrite HW.
  destruct (prune_loop w (w_newDepIds W) (reverse (w_deps W)) s Hnd)
    as (s1 & Hrun & Hfr & Hs1).
  rewrite Hrun. unfold update_watcher, modify.
  assert (HW1 : watchers s1 !! w = Some W) by (by rewrite Hfr).
  rewrite (update_watcher_at s1 w W) by done.
  eexists. split; [done|]. simpl. split_and!.
  - rewrite Hfr. by destruct s.
  - rewrite Hfr. done.
  - intros d. change (dep_subs (set_watchers _ s1) d) with (dep_subs s1 d).
    rewrite Hs1. repeat case_decide; try done; rewrite elem_of_reverse in *; tauto.
Qed.

Lemma tracking_ok_cleanupDeps s w :
  tracking_ok s → tracking_ok (Watcher_cleanupDeps w s).1.
Proof.
  intros Hok. pose proof Hok as [H1 H2 H3 H4 H5].
  destruct (watchers s !! w) as [W|] eqn:HW.
  2:{ unfold Watcher_cleanupDeps, mbind, M_bind, bind, the_watcher.
      by rewrite HW. }
  destruct (cleanupDeps_run s w W HW H4) as (s' & -> & _ & HWs & Hsubs).
  simpl. split.
  - intros w' X. rewrite HWs. at_watcher w' w; [constructor|eauto].
  - intros w' X d. rewrite HWs. at_watcher w' w; [set_solver|eauto].
  - intros w' X d. rewrite HWs. at_watcher w' w; [|eauto].
    by rewrite (H2 w W d HW).
  - intros d. rewrite Hsubs. case_decide; [by apply remove_first_NoDup|done].
  - intros d w'. rewrite Hsubs, HWs. intros Hin.
    assert (Hin0 : w' ∈ dep_subs s d).
    { case_decide; [by eapply remove_first_subset|done]. }
    destruct (H5 d w' Hin0) as (X & HX & Hd).
    destruct (decide (w' = w)) as [->|];
      [rewrite lookup_insert_eq|rewrite lookup_insert_ne by done; eauto].
    simplify_eq. eexists. split; [done|]. simpl. left.
    destruct (decide (d ∈ w_newDepIds W)) as [|Hn]; [done|].
    destruct Hd as [Hd|Hd]; [|done].
    rewrite decide_True in Hin by eauto.
    by apply remove_first_gone in Hin.
Qed.

Lemma tracking_ok_teardown s w :
  tracking_ok s → tracking_ok (Watcher_teardown w s).1.
Proof.
  intros Hok. pose proof Hok as [H1 H2 H3 H4 H5].
  unfold Watcher_teardown, mbind, M_bind, bind, the_watcher.
  destruct (watchers s !! w) as [W|] eqn:HW; [|done].
  destruct (w_active W); [|done].
  destruct (prune_loop_all w (reverse (w_deps W)) s H4) as (s1 & Hrun & Hfr & Hs1).
  rewrite Hrun. unfold update_watcher, modify. simpl.
  assert (HW1 : watchers s1 !! w = Some W) by (by rewrite Hfr).
  rewrite (update_watcher_at s1 w W) by done.
  assert (Hws : watchers s1 = watchers s) by (by rewrite Hfr).
  split; simpl.
  - intros w' X. rewrite Hws. at_watcher w' w; eauto.
  - intros w' X d. rewrite Hws. at_watcher w' w; eauto.
  - intros w' X d. rewrite Hws. at_watcher w' w; eauto.
  - intros d. change (dep_subs (set_watchers _ s1) d) with (dep_subs s1 d).
    rewrite Hs1. case_decide; [by apply remove_first_NoDup|done].
  - intros d w'. change (dep_subs (set_watchers _ s1) d) with (dep_subs s1 d).
    rewrite Hs1, Hws. intros Hin.
    assert (Hin0 : w' ∈ dep_subs s d).
    { case_decide; [by eapply remove_first_subset|done]. }
    destruct (H5 d w' Hin0) as (X & HX & Hd).
    destruct (decide (w' = w)) as [->|];
      [rewrite lookup_insert_eq|rewrite lookup_insert_ne by done; eauto].
    simplify_eq. eexists. split; [done|]. done.
Qed.

Lemma tracking_ok_other s s' :
  tracking_ok s → subs s' = subs s →
  (∀ w, option_Forall2 same_tracking (watchers s !! w) (watchers s' !! w)) →
  tracking_ok s'.
Proof.
  intros [H1 H2 H3 H4 H5] Hsubs Hw.
  assert (Hback : ∀ w X', watchers s' !! w = Some X' →
            ∃ X, watchers s !! w = Some X ∧ same_tracking X X').
  { intros w X' HX'. specialize (Hw w). rewrite HX' in Hw.
    inversion Hw; simplify_eq. eauto. }
  assert (Hds : ∀ d, dep_subs s' d = dep_subs s d).
  { intros d. unfold dep_subs. by rewrite Hsubs. }
  split.
  - intros w X' (X & HX & (_ & <- & _))%Hback. eauto.
  - intros w X' d (X & HX & (_ & <- & _ & <-))%Hback. eauto.
  - intros w X' d (X & HX & (<- & _ & <- & _))%Hback. eauto.
  - intros d. rewrite Hds. done.
  - intros d w. rewrite Hds. intros (X & HX & Hd)%H5.
    specialize (Hw w). rewrite HX in Hw. inversion Hw as [? X' Hst|]; simplify_eq.
    exists X'. split; [done|]. destruct Hst as (_ & _ & <- & <-). done.
Qed.

Lemma reachable_tracking_ok s : reachable s → tracking_ok s.
Proof.
  induction 1;
    eauto using tracking_ok_init, tracking_ok_new_watcher, tracking_ok_addDep,
      tracking_ok_cleanupDeps, tracking_ok_teardown, tracking_ok_other.
Qed.

(** ** C3: a Dep is recorded once, a watcher subscribed once *)

(** C3.  In every store the engine can reach, [addDep] records a Dep at most
    once in the current-cycle collections (a Dep whose id is in [newDepIds]
    is skipped altogether), calls [dep.addSub (this)] only when the id is in
    neither [newDepIds] nor [depIds], and a watcher never occurs twice in the
    subscriber list of any Dep, before or after the call, whatever reads and
    re-evaluations came before. *)
Theorem addDep_subscribes_at_most_once s w W d :
  reachable s → watchers s !! w = Some W →
  let s' := (Watcher_addDep w d s).1 in
  (d ∈ w_newDepIds W → s' = s)
  ∧ (d ∈ w_depIds W → subs s' = subs s)
  ∧ (d ∉ w_newDepIds W → d ∉ w_depIds W →
     dep_subs s' d = dep_subs s d ++ [w])
  ∧ (∃ W', watchers s' !! w = Some W'
           ∧ NoDup (w_newDeps W') ∧ d ∈ w_newDeps W'
           ∧ w_deps W' = w_deps W ∧ w_depIds W' = w_depIds W)
  ∧ (∀ d', NoDup (dep_subs s d') ∧ NoDup (dep_subs s' d')).
Proof.
  intros Hr HW s'.
  assert (Hok : tracking_ok s) by by apply reachable_tracking_ok.
  assert (Hok' : tracking_ok s') by by apply tracking_ok_addDep.
  assert (Hs' : s' = (Watcher_addDep w d s).1) by done.
  clearbody s'. revert Hs'.
  unfold Watcher_addDep, mbind, M_bind, bind, the_watcher. rewrite HW.
  destruct (decide (d ∈ w_newDepIds W)) as [Hin|Hnew].
  - simpl. intros ->. split_and!; try done.
    + exists W. split_and!; try done.
      * by apply (ok_newDeps s Hok w).
      * by apply (ok_newDepIds s Hok w W d HW).
    + intros d'. split; apply (ok_subs s Hok).
  - unfold update_watcher, modify.
    rewrite (update_watcher_at s w W) by done.
    destruct (decide (d ∈ w_depIds W)) as [Hold|Hnot]; simpl; intros ->.
    + split_and!; try done.
      * eexists. simpl. rewrite lookup_insert_eq. split; [done|]. simpl.
        split_and!; try done; [|set_solver].
        apply NoDup_app; split_and!;
          [by apply (ok_newDeps s Hok w)
          |intros x Hx ->%list_elem_of_singleton;
           by apply Hnew, (ok_newDepIds s Hok w W d HW)
          |apply NoDup_singleton].
      * intros d'. split; [apply (ok_subs s Hok)|apply (ok_subs _ Hok')].
    + split_and!; try done.
      * intros _ _. rewrite dep_subs_set_subs. simpl.
        by rewrite lookup_insert_eq.
      * eexists. simpl. rewrite lookup_insert_eq. split; [done|]. simpl.
        split_and!; try done; [|set_solver].
        apply NoDup_app; split_and!;
          [by apply (ok_newDeps s Hok w)
          |intros x Hx ->%list_elem_of_singleton;
           by apply Hnew, (ok_newDepIds s Hok w W d HW)
          |apply NoDup_singleton].
      * intros d'. split; [apply (ok_subs s Hok)|apply (ok_subs _ Hok')].
Qed.


(** ** The engine stays within the reachable stores *)

Section Preservation.

Context (P : St → Prop).

Lemma preserves_ret {A} (a : A) : preserves P (mret a : M A).
Proof. by intros s. Qed.

Lemma preserves_bind {A B} (m : M A) (f : A → M B) :
  preserves P m → (∀ a, preserves P (f a)) → preserves P (m ≫= f).
Proof.
  intros Hm Hf s Hs. specialize (Hm s Hs).
  unfold mbind, M_bind, bind. destruct (m s) as [s1 [a| |]]; [|done..].
  by apply Hf.
Qed.

Lemma preserves_throw {A} e : preserves P (throw e : M A).
Proof. by intros s. Qed.

Lemma preserves_diverge {A} : preserves P (diverge : M A).
Proof. by intros s. Qed.

Lemma preserves_gets {A} (f : St → A) : preserves P (gets f).
Proof. by intros s. Qed.

Lemma preserves_the_watcher w : preserves P (the_watcher w).
Proof. intros s Hs. unfold the_watcher. by destruct (watchers s !! w). Qed.

Lemma preserves_the_cell c : preserves P (the_cell c).
Proof. intros s Hs. unfold the_cell. by destruct (cells s !! c). Qed.

Lemma preserves_when b m : preserves P m → preserves P (when b m).
Proof. destruct b; [done|]. intros _. apply preserves_ret. Qed.

Lemma preserves_forM {A} (l : list A) (f : A → M unit) :
  (∀ x, preserves P (f x)) → preserves P (forM l f).
Proof.
  intros Hf. induction l as [|x l IH]; [apply preserves_ret|].
  simpl. by apply (preserves_bind (f x) (λ _, forM l f)).
Qed.

Lemma preserves_try_catch {A} (m : M A) (h : value → M A) :
  preserves P m → (∀ e, preserves P (h e)) → preserves P (try_catch m h).
Proof.
  intros Hm Hh s Hs. specialize (Hm s Hs). unfold try_catch.
  destruct (m s) as [s1 [a|e|]]; [done| |done]. by apply Hh.
Qed.

Lemma preserves_try_finally {A} (m : M A) (f : option A → M unit) :
  preserves P m → (∀ r, preserves P (f r)) → preserves P (try_finally m f).
Proof.
  intros Hm Hf s Hs. specialize (Hm s Hs). unfold try_finally.
  destruct (m s) as [s1 [a|e|]]; [| |done].
  - by apply (preserves_bind (f (Some a)) (λ _, ret a));
      [|intros; apply preserves_ret|].
  - by apply (preserves_bind (f None) (λ _, throw e));
      [|intros; apply preserves_throw|].
Qed.

End Preservation.

Lemma same_tracking_refl x : option_Forall2 same_tracking x x.
Proof. destruct x; constructor. by split_and!. Qed.

(** A store update that touches neither the subscriber lists nor the
    watchers. *)
Lemma reachable_modify f :
  (∀ s, subs (f s) = subs s) → (∀ s, watchers (f s) = watchers s) →
  preserves reachable (modify f).
Proof.
  intros Hs Hw s Hr. simpl. apply (reach_other s); [done|apply Hs|].
  intros w. rewrite Hw. apply same_tracking_refl.
Qed.

(** An update of fields of a watcher other than the four collections. *)
Lemma reachable_update_watcher w f :
  (∀ W, same_tracking W (f W)) →
  preserves reachable (update_watcher w f).
Proof.
  intros Hf s Hr. simpl. apply (reach_other s); [done..|].
  intros w'. simpl. destruct (decide (w' = w)) as [->|].
  - rewrite lookup_alter_eq. destruct (watchers s !! w); constructor. apply Hf.
  - rewrite lookup_alter_ne by done. apply same_tracking_refl.
Qed.

Lemma reachable_addDep w d : preserves reachable (Watcher_addDep w d).
Proof. intros s. apply reach_addDep. Qed.

Lemma reachable_cleanupDeps w : preserves reachable (Watcher_cleanupDeps w).
Proof. intros s. apply reach_cleanupDeps. Qed.

Lemma reachable_Dep_depend d : preserves reachable (Dep_depend d).
Proof.
  intros s Hr. unfold Dep_depend, mbind, M_bind, bind, gets.
  destruct (Dep_target s); [by apply reach_addDep|done].
Qed.

(** Decompose a computation into the pieces whose preservation is known. *)
Ltac preserve :=
  repeat first
    [ assumption
    | match goal with
      | H : context [preserves] |- preserves _ _ => apply H
      end
    | apply preserves_ret
    | apply preserves_throw
    | apply preserves_diverge
    | apply preserves_gets
    | apply preserves_the_watcher
    | apply preserves_the_cell
    | apply reachable_Dep_depend
    | apply reachable_addDep
    | apply reachable_cleanupDeps
    | apply reachable_modify; [done|done]
    | apply reachable_update_watcher; [by intros ?; split_and!]
    | apply preserves_when
    | apply preserves_forM; intros ?
    | apply preserves_try_catch; [|intros ?]
    | apply preserves_try_finally; [|intros ?]
    | apply preserves_bind; [|intros ?]
    | match goal with
      | |- preserves _ (match ?x with _ => _ end) => destruct x
      | |- preserves _ (if ?x then _ else _) => destruct x
      end ].

Section EngineReachable.

Context (call : fn → value → list value → M value).
Context (queueWatcher : wid → M unit).
Hypothesis call_ok : ∀ f this args, preserves reachable (call f this args).
Hypothesis queue_ok : ∀ w, preserves reachable (queueWatcher w).

Lemma reachable_dependArray n a : preserves reachable (dependArray n a).
Proof.
  revert a. induction n as [|n IH]; intros a; simpl; [preserve|].
  unfold dependArray_item. preserve.
Qed.

Lemma reachable_collect n c C v : preserves reachable (collect n c C v).
Proof.
  pose proof reachable_dependArray. unfold collect. preserve.
Qed.

Lemma reachable_reactiveGetter n c : preserves reachable (reactiveGetter call n c).
Proof.
  pose proof reachable_collect. pose proof reachable_dependArray.
  revert c. induction n as [|n IH]; intros c; simpl; preserve.
Qed.

Lemma reachable_get_prop n v k : preserves reachable (get_prop call n v k).
Proof.
  pose proof reachable_reactiveGetter. unfold get_prop. preserve.
Qed.

Lemma reachable__traverse n v : preserves reachable (_traverse call n v).
Proof.
  pose proof reachable_get_prop. pose proof reachable_reactiveGetter.
  revert v. induction n as [|n IH]; intros v; simpl; [preserve|].
  unfold mark_seen, traverse_children. preserve.
Qed.

Lemma reachable_traverse n v : preserves reachable (traverse call n v).
Proof.
  pose proof reachable__traverse. unfold traverse. preserve.
Qed.

Lemma reachable_pushTarget w : preserves reachable (pushTarget w).
Proof. by apply reachable_modify. Qed.

Lemma reachable_popTarget : preserves reachable popTarget.
Proof. by apply reachable_modify. Qed.

Lemma reachable_handleError e info : preserves reachable (handleError e info).
Proof. by apply reachable_modify. Qed.

Lemma reachable_Watcher_compute w : preserves reachable (Watcher_compute call w).
Proof.
  pose proof reachable_handleError. unfold Watcher_compute. preserve.
Qed.

Lemma reachable_Watcher_finish n w r :
  preserves reachable (Watcher_finish call n w r).
Proof.
  pose proof reachable_traverse. pose proof reachable_popTarget.
  unfold Watcher_finish, Watcher_touch. preserve.
Qed.

Lemma reachable_Watcher_get n w : preserves reachable (Watcher_get call n w).
Proof.
  unfold Watcher_get.
  apply preserves_bind; [apply reachable_pushTarget|intros _].
  apply preserves_try_finally;
    [apply reachable_Watcher_compute|intros r; apply reachable_Watcher_finish].
Qed.

Lemma reachable_Watcher_run n w : preserves reachable (Watcher_run call n w).
Proof.
  pose proof reachable_Watcher_get.
  pose proof reachable_handleError.
  unfold Watcher_run, invokeWithErrorHandling. preserve.
Qed.

Lemma reachable_Watcher_update n w :
  preserves reachable (Watcher_update call queueWatcher n w).
Proof.
  pose proof reachable_Watcher_run. unfold Watcher_update. preserve.
Qed.

Lemma reachable_Dep_notify n d :
  preserves reachable (Dep_notify call queueWatcher n d).
Proof.
  pose proof reachable_Watcher_update. unfold Dep_notify. preserve.
Qed.

End EngineReachable.

(** ** Evaluation: [get] and [run] *)

Lemma prune_loop_frame w (N : gset dep_id) (L : list dep_id) s :
  ∃ s', forM L (λ d, if decide (d ∈ N) then mret tt else Dep_removeSub d w) s
          = (s', Ok tt)
        ∧ s' = set_subs (λ _, subs s') s.
Proof.
  revert s. induction L as [|d0 L IH]; intros s.
  - exists s. split; [done|]. by destruct s.
  - simpl. unfold bind at 1. destruct (decide (d0 ∈ N)).
    + simpl. apply IH.
    + unfold Dep_removeSub at 1, modify at 1.
      destruct (IH (set_subs <[d0:=remove_first w (dep_subs s d0)]> s))
        as (s' & Hrun & Hfr).
      exists s'. split; [done|]. rewrite Hfr. by destruct s.
Qed.

(** [cleanupDeps] always completes on an existing watcher, and touches only
    the subscriber lists and the watcher's four collections. *)
Lemma cleanupDeps_total s w W :
  watchers s !! w = Some W →
  ∃ s', Watcher_cleanupDeps w s = (s', Ok tt)
    ∧ s' = set_watchers (λ _, watchers s') (set_subs (λ _, subs s') s)
    ∧ watchers s' =
        <[w := set_tracking (w_newDeps W) [] (w_newDepIds W) ∅ W]> (watchers s).
Proof.
  intros HW.
  unfold Watcher_cleanupDeps, mbind, M_bind, bind, the_watcher. rewrite HW.
  destruct (prune_loop_frame w (w_newDepIds W) (reverse (w_deps W)) s)
    as (s1 & Hrun & Hfr).
  rewrite Hrun. unfold update_watcher, modify.
  assert (HW1 : watchers s1 !! w = Some W) by (by rewrite Hfr).
  rewrite (update_watcher_at s1 w W) by done.
  eexists. split; [done|]. simpl. split.
  - rewrite Hfr. by destruct s.
  - rewrite Hfr. done.
Qed.

Section Evaluation.

Context (call : fn → value → list value → M value).

(** The state in which the [finally] block of [get] leaves the store when
    the getter threw: the deep traversal of [undefined] only resets
    [seenObjects]. *)
Lemma Watcher_finish_after_throw n w s W r :
  watchers s !! w = Some W → default VUndefined r = VUndefined →
  Watcher_finish call (S n) w r s =
    Watcher_cleanupDeps w
      (set_targetStack tail
         (if w_deep W then set_seenObjects (λ _, ∅) s else s)).
Proof.
  intros HW Hr.
  unfold Watcher_finish, Watcher_touch, mbind, M_bind, bind, the_watcher.
  rewrite HW, Hr. destruct (w_deep W); simpl; done.
Qed.

(** C6.  When the computation throws during [get], a user watcher reports
    the error through [handleError] and [get] returns [undefined], an
    internal watcher rethrows it.  In both cases the [finally] block pops
    the target stack and runs [cleanupDeps], which completes: the Deps the
    interrupted evaluation had recorded become the watcher's dependencies,
    the working collections are emptied and, subscriber lists being free of
    duplicates, the watcher is removed from the subscriber list of every Dep
    of the previous cycle that the evaluation had not recorded again, and
    from no other list.  When the callback of a user watcher throws in
    [run], the error is reported through [handleError] and [run] returns
    normally. *)
Theorem Watcher_errors_are_routed n w :
  (∀ s W s1 e W1,
     watchers s !! w = Some W →
     call (w_getter W) (w_vm W) [w_vm W] (set_targetStack (cons w) s)
       = (s1, Throw e) →
     watchers s1 !! w = Some W1 →
     let s2 := if w_user W1
               then add_log (EvHandleError e
                      ("getter for watcher " ++ w_expression W1)) s1
               else s1 in
     let s3 := if w_deep W1 then set_seenObjects (λ _, ∅) s2 else s2 in
     ∃ s',
       Watcher_get call (S n) w s =
         (s', if w_user W1 then Ok VUndefined else Throw e)
       ∧ Watcher_cleanupDeps w (set_targetStack tail s3) = (s', Ok tt)
       ∧ s' = set_watchers (λ _, watchers s')
                (set_subs (λ _, subs s') (set_targetStack tail s3))
       ∧ watchers s' =
           <[w := set_tracking (w_newDeps W1) [] (w_newDepIds W1) ∅ W1]>
             (watchers s1)
       ∧ ((∀ d, NoDup (dep_subs s1 d)) →
          (∀ d, dep_subs s' d =
                if decide (d ∈ w_deps W1 ∧ d ∉ w_newDepIds W1)
                then remove_first w (dep_subs s1 d) else dep_subs s1 d)
          ∧ (∀ d, d ∈ w_deps W1 → d ∉ w_newDepIds W1 → w ∉ dep_subs s' d)
          ∧ (∀ d, d ∈ w_newDepIds W1 → dep_subs s' d = dep_subs s1 d)))
  ∧ (∀ s W s1 value W1 s3 e,
       watchers s !! w = Some W → w_active W = true →
       Watcher_get call n w s = (s1, Ok value) →
       watchers s1 !! w = Some W1 → w_user W1 = true →
       negb (strict_eq value (w_value W1)) || isObject value || w_deep W1
         = true →
       call (w_cb W1) (w_vm W1) [value; w_value W1]
         (set_watchers (alter (set_value value) w) s1) = (s3, Throw e) →
       Watcher_run call n w s =
         (add_log (EvHandleError e
            ("callback for watcher " ++ w_expression W1)) s3, Ok tt)).
Proof.
  split.
  - intros s W s1 e W1 HW Hcall HW1 s2 s3.
    set (s4 := set_targetStack tail s3).
    assert (HW3 : watchers s4 !! w = Some W1).
    { unfold s4, s3, s2. by destruct (w_deep W1), (w_user W1). }
    assert (Hsubs4 : ∀ d, dep_subs s4 d = dep_subs s1 d).
    { intros d. unfold s4, s3, s2. by destruct (w_deep W1), (w_user W1). }
    assert (Hw4 : watchers s4 = watchers s1).
    { unfold s4, s3, s2. by destruct (w_deep W1), (w_user W1). }
    destruct (cleanupDeps_total s4 w W1 HW3) as (s' & Hrun & Hfr & HWs).
    exists s'. split_and!.
    + unfold Watcher_get, mbind, M_bind, bind, pushTarget, modify, try_finally.
      unfold Watcher_compute, mbind, M_bind, bind, the_watcher. simpl.
      rewrite HW. unfold try_catch. rewrite Hcall.
      unfold bind. rewrite HW1.
      destruct (w_user W1) eqn:Hu.
      * unfold handleError, modify. simpl.
        rewrite (Watcher_finish_after_throw n w _ W1) by done.
        fold s2 s3 s4. by rewrite Hrun.
      * unfold throw.
        rewrite (Watcher_finish_after_throw n w _ W1) by done.
        fold s2 s3 s4. by rewrite Hrun.
    + done.
    + done.
    + by rewrite HWs, Hw4.
    + intros Hnd.
      assert (Hnd4 : ∀ d, NoDup (dep_subs s4 d)).
      { intros d. rewrite Hsubs4. apply Hnd. }
      destruct (cleanupDeps_run s4 w W1 HW3 Hnd4) as (s'' & Hrun' & _ & _ & Hs).
      rewrite Hrun in Hrun'. injection Hrun' as <-.
      assert (Hall : ∀ d, dep_subs s' d =
                if decide (d ∈ w_deps W1 ∧ d ∉ w_newDepIds W1)
                then remove_first w (dep_subs s1 d) else dep_subs s1 d).
      { intros d. rewrite Hs. by rewrite Hsubs4. }
      split_and!.
      * done.
      * intros d Hd Hn. rewrite Hall, decide_True by done.
        apply remove_first_gone, Hnd.
      * intros d Hd. rewrite Hall, decide_False by tauto. done.
  - intros s W s1 value W1 s3 e HW Hact Hget HW1 Hu Hfire Hcb.
    unfold Watcher_run, mbind, M_bind, bind, the_watcher.
    rewrite HW, Hact, Hget, HW1, Hfire, Hu.
    unfold update_watcher, modify, invokeWithErrorHandling, try_catch.
    unfold mbind, M_bind, bind. rewrite Hcb. done.
Qed.

(** C5.  An inactive watcher's [run] does nothing.  An active watcher's
    [run] re-evaluates through [get]; with [value] the result and
    [w_value W1] the cached value at that point, the callback is invoked,
    with arguments [value] and the old cached value and after the cache has
    been updated, exactly when [value !== this.value], or [value] is an
    object, or the watcher is deep; otherwise [run] ends in the store [get]
    left, cache included. *)
Theorem Watcher_run_fires_iff n w s W :
  watchers s !! w = Some W →
  (w_active W = false → Watcher_run call n w s = (s, Ok tt))
  ∧ (w_active W = true →
     ∀ s1 value W1,
       Watcher_get call n w s = (s1, Ok value) →
       watchers s1 !! w = Some W1 →
       let fire := negb (strict_eq value (w_value W1))
                   || isObject value || w_deep W1 in
       (fire = false → Watcher_run call n w s = (s1, Ok tt))
       ∧ (fire = true →
          Watcher_run call n w s =
            (if w_user W1 then
               invokeWithErrorHandling call (w_cb W1) (w_vm W1)
                 [value; w_value W1]
                 ("callback for watcher " ++ w_expression W1)
             else
               call (w_cb W1) (w_vm W1) [value; w_value W1];; mret tt)
              (set_watchers (alter (set_value value) w) s1))).
Proof.
  intros HW. split.
  - intros Hact. unfold Watcher_run, mbind, M_bind, bind, the_watcher.
    by rewrite HW, Hact.
  - intros Hact s1 value W1 Hget HW1 fire.
    unfold Watcher_run, mbind, M_bind, bind, the_watcher.
    rewrite HW, Hact, Hget, HW1. fold fire.
    split; intros ->; [done|].
    unfold update_watcher, modify. by destruct (w_user W1).
Qed.

(** Reconciliation at the end of an evaluation.  Whether the computation
    returned or threw, once the deep traversal (if any) has completed the
    [finally] block pops the target stack and [cleanupDeps] unsubscribes the
    watcher from every Dep of the previous cycle that the evaluation did not
    record again, makes the fresh collections the previous ones and empties
    the working ones. *)
Lemma Watcher_get_reconciles n w s s1 r s2 W2 :
  Watcher_compute call w (set_targetStack (cons w) s) = (s1, r) →
  r ≠ Diverge →
  Watcher_touch call n w (returned r) s1 = (s2, Ok tt) →
  watchers s2 !! w = Some W2 →
  (∀ d, NoDup (dep_subs s2 d)) →
  ∃ s', Watcher_get call n w s = (s', r)
    ∧ targetStack s' = tail (targetStack s2)
    ∧ watchers s' !! w =
        Some (set_tracking (w_newDeps W2) [] (w_newDepIds W2) ∅ W2)
    ∧ (∀ d, d ∈ w_deps W2 → d ∉ w_newDepIds W2 → w ∉ dep_subs s' d)
    ∧ (∀ d, d ∈ w_newDepIds W2 → dep_subs s' d = dep_subs s2 d).
Proof.
  intros Hc Hr Ht HW2 Hnd.
  set (s2' := set_targetStack tail s2).
  destruct (cleanupDeps_run s2' w W2 HW2 Hnd) as (s' & Hrun & Hfr & HWs & Hsubs).
  exists s'.
  assert (Hfin : Watcher_finish call n w (returned r) s1 = (s', Ok tt)).
  { unfold Watcher_finish, mbind, M_bind, bind. rewrite Ht.
    unfold popTarget, modify. fold s2'. by rewrite Hrun. }
  split_and!.
  - unfold Watcher_get, mbind, M_bind, bind, pushTarget, modify, try_finally.
    rewrite Hc. destruct r as [v|e|]; [| |done]; unfold bind;
      simpl in Hfin; by rewrite Hfin.
  - rewrite Hfr. done.
  - rewrite HWs. by rewrite lookup_insert_eq.
  - intros d Hd Hn. rewrite Hsubs, decide_True by done.
    apply remove_first_gone, Hnd.
  - intros d Hd. rewrite Hsubs, decide_False by tauto. done.
Qed.

End Evaluation.

(** ** The accessors installed by [defineReactive] *)

Section Accessors.

Context (production serverRendering : bool).
Context (call : fn → value → list value → M value).
Context (queueWatcher : wid → M unit).

Local Abbreviation reactiveSetter :=
  (reactiveSetter production serverRendering call queueWatcher).
Local Abbreviation observe := (observe serverRendering call).
Local Abbreviation Dep_notify := (Dep_notify call queueWatcher).

(** C1, as amended.  A write first reads the current value (through the
    pre-existing getter when there is one).  If the new value is identical to
    it, or both fail self-equality, the write does nothing more: no store, no
    notification.  Otherwise, unless the field had a getter and no setter, the
    write runs the development-only [customSetter] hook, stores the new value
    (through the pre-existing setter when there is one), re-derives the nested
    wrapper by observing the new value unless the field is shallow, and then
    calls [notify] of the field's Dep, once; for a plain data field this is
    [notify] on the store in which the value and the wrapper have been
    replaced. *)
Theorem reactiveSetter_write n c C newVal s s1 value :
  cells s !! c = Some C →
  current_value call n C s = (s1, Ok value) →
  (unchanged newVal value = true →
   reactiveSetter (S n) c newVal s = (s1, Ok tt))
  ∧ (unchanged newVal value = false →
     isSome (c_getter C) && negb (isSome (c_setter C)) = false →
     reactiveSetter (S n) c newVal s =
       (custom_hook production call C;;
        match c_setter C with
        | Some (AUser f) => call f (VObj (c_obj C)) [newVal];; mret tt
        | Some (ACell c') => reactiveSetter n c' newVal
        | None => update_cell c (with_val newVal)
        end;;
        childOb ← (if c_shallow C then mret None else observe n newVal false);
        update_cell c (with_childOb childOb);;
        Dep_notify n (c_dep C)) s1)
  ∧ (unchanged newVal value = false →
     c_getter C = None → c_setter C = None → c_shallow C = false →
     (if production then None else c_customSetter C) = None →
     s1 = s ∧ value = c_val C ∧
     ∀ s2 ob,
       observe n newVal false (set_cells (alter (with_val newVal) c) s)
         = (s2, Ok ob) →
       reactiveSetter (S n) c newVal s =
         Dep_notify n (c_dep C) (set_cells (alter (with_childOb ob) c) s2)).
Proof.
  intros HC Hcur. split_and!.
  - intros Hun. simpl. unfold mbind, M_bind, bind, the_cell.
    by rewrite HC, Hcur, Hun.
  - intros Hun Hrw. simpl. unfold mbind, M_bind, bind, the_cell.
    rewrite HC, Hcur, Hun.
    destruct (custom_hook production call C s1) as [s2 [[]| |]]; [|done..].
    by rewrite Hrw.
  - intros Hun Hg Hs Hsh Hcu.
    unfold current_value in Hcur. rewrite Hg in Hcur.
    injection Hcur as <- <-. split_and!; [done..|].
    intros s2 ob Hobs. simpl. unfold mbind, M_bind, bind, the_cell.
    rewrite HC. unfold current_value. rewrite Hg. simpl. rewrite Hun.
    unfold custom_hook. rewrite Hcu, Hs, Hsh. simpl.
    unfold update_cell, modify. by rewrite Hobs.
Qed.

Lemma assoc_put_assoc k p l : assoc k (put_assoc k p l) = Some p.
Proof.
  induction l as [|[k' p'] l IH]; simpl.
  - by rewrite decide_True.
  - destruct (decide (k' = k)); simpl.
    + by rewrite decide_True.
    + by rewrite decide_False.
Qed.

Lemma defineReactive_keeps_accessors n a k val custom shallow g so o p s s' :
  heap s !! a = Some o → lookup_prop o k = Some p →
  p_kind p = PAccessor (Some g) so →
  defineReactive serverRendering call n a k val custom shallow s = (s', Ok tt) →
  p_configurable p = false ∧ s' = set_dep_uid S s
  ∨ ∃ c C o',
      heap s' !! a = Some o'
      ∧ lookup_prop o' k = Some (Prop_ (PReactive c) true true)
      ∧ cells s' !! c = Some C
      ∧ c_obj C = a ∧ c_dep C = dep_uid s
      ∧ c_getter C = Some (AUser g) ∧ c_setter C = AUser <$> so
      ∧ c_shallow C = shallow ∧ c_customSetter C = custom.
Proof.
  intros Ho Hp Hk.
  unfold defineReactive, defineReactive_with, mbind, M_bind, bind, new_Dep, gets.
  simpl. rewrite Ho. unfold lookup_prop in *. rewrite Hp. simpl.
  destruct (p_configurable p) eqn:Hconf; simpl.
  2:{ intros [= <-]. by left. }
  unfold descriptor_get, descriptor_set. rewrite Hk. simpl.
  match goal with
  | |- (let (_, _) := ?m ?s0 in _) = _ → _ =>
      destruct (m s0) as [s1 [v| |]]; [|done..]
  end.
  match goal with
  | |- (let (_, _) := ?m ?s0 in _) = _ → _ =>
      destruct (m s0) as [s2 [ob| |]]; [|done..]
  end.
  destruct (heap s2 !! a) as [o2|] eqn:Ho2; [|done].
  destruct (match assoc k (o_props o2) with
            | Some p0 => p_configurable p0
            | None => o_extensible o2
            end); [|done].
  unfold new_cell, update_obj, modify. simpl. intros [= <-]. right.
  eexists (next_cell s2), _, _. simpl.
  rewrite lookup_alter_eq, Ho2, lookup_insert_eq. simpl.
  split_and!; try done. apply assoc_put_assoc.
Qed.

(** C9.  When [defineReactive] is applied to a configurable field that has a
    getter [g] (with or without a setter), the reactive accessor it installs
    keeps [g] and the setter, if any, in its cell, and a read through the
    installed getter calls [g] and returns its value, after registering the
    dependencies.  If the field had no setter, the installation completes, and
    a write through the installed setter only evaluates [g] and, in a
    development build and for a changed value, the [customSetter] hook when
    one was given: without the hook it leaves the store exactly as the call
    of [g] left it, so the stored value and the nested wrapper are untouched
    and [notify] is not called. *)
Theorem getter_only_field_stays_read_only n a k g so o p s :
  heap s !! a = Some o → lookup_prop o k = Some p →
  p_kind p = PAccessor (Some g) so → p_configurable p = true →
  (∀ s', defineReactive serverRendering call n a k None None false s
           = (s', Ok tt) →
         ∃ c C o',
           heap s' !! a = Some o'
           ∧ lookup_prop o' k = Some (Prop_ (PReactive c) true true)
           ∧ cells s' !! c = Some C ∧ c_obj C = a
           ∧ c_getter C = Some (AUser g) ∧ c_setter C = AUser <$> so
           ∧ c_customSetter C = None)
  ∧ (∀ c m s1 C,
       cells s1 !! c = Some C → c_obj C = a →
       c_getter C = Some (AUser g) →
       reactiveGetter call (S m) c s1 =
         (value ← call g (VObj a) []; collect m c C value;; mret value) s1)
  ∧ (so = None →
     ∃ s', defineReactive serverRendering call (S n) a k None None false s
             = (s', Ok tt)
           ∧ cells s' !! next_cell s =
               Some (Cell a VUndefined None (dep_uid s) (Some (AUser g)) None
                          false None))
  ∧ (∀ c m s1 C newVal,
       cells s1 !! c = Some C → c_obj C = a →
       c_getter C = Some (AUser g) → c_setter C = None →
       reactiveSetter (S m) c newVal s1 =
         (value ← call g (VObj a) [];
          if unchanged newVal value then mret tt
          else custom_hook production call C) s1)
  ∧ (∀ c m s1 C s2 r newVal,
       cells s1 !! c = Some C → c_obj C = a →
       c_getter C = Some (AUser g) → c_setter C = None →
       c_customSetter C = None →
       call g (VObj a) [] s1 = (s2, r) →
       reactiveSetter (S m) c newVal s1 = (s2, discard r)).
Proof.
  intros Ho Hp Hk Hconf. split_and!.
  - intros s' Hrun.
    destruct (defineReactive_keeps_accessors _ _ _ _ _ _ _ _ _ _ _ _
                Ho Hp Hk Hrun) as [[? _]|(c & C & o' & H)]; [congruence|].
    exists c, C, o'. tauto.
  - intros c m s1 C HC Hobj Hg. simpl.
    unfold mbind, M_bind, bind, the_cell. rewrite HC, Hg, Hobj. done.
  - intros ->. eexists. split.
    + unfold defineReactive, defineReactive_with, mbind, M_bind, bind, new_Dep,
        gets.
      simpl. rewrite Ho. unfold lookup_prop in *. rewrite Hp. simpl.
      rewrite Hconf. simpl. unfold descriptor_get, descriptor_set.
      rewrite Hk. simpl. rewrite Ho. simpl. rewrite Hp, Hconf.
      unfold new_cell, update_obj, modify. simpl. reflexivity.
    + simpl. by rewrite lookup_insert_eq.
  - intros c m s1 C newVal HC Hobj Hg Hs. simpl.
    unfold mbind, M_bind, bind, the_cell. rewrite HC.
    unfold current_value. rewrite Hg, Hobj.
    destruct (call g (VObj a) [] s1) as [s2 [v| |]]; [|done..].
    destruct (unchanged newVal v); [done|].
    destruct (custom_hook production call C s2) as [s3 [[]| |]]; [|done..].
    by rewrite Hs.
  - intros c m s1 C s2 r newVal HC Hobj Hg Hs Hcu Hcall. simpl.
    unfold mbind, M_bind, bind, the_cell. rewrite HC.
    unfold current_value. rewrite Hg, Hobj, Hcall.
    destruct r as [v| |]; [|done..].
    destruct (unchanged newVal v); [done|].
    unfold custom_hook. rewrite Hcu, Hs.
    by destruct production.
Qed.

End Accessors.

(** ** Structural mutation: [set] and [del] *)

Section Mutation.

Context (production serverRendering : bool).
Context (call : fn → value → list value → M value).
Context (queueWatcher : wid → M unit).
Context (nativeSort : list value → list value → M (list value)).
Context (inherited : oclass → key → bool).
Context (inObjectPrototype : key → bool).
Context (toInteger : value → Z).

Local Abbreviation mutator' :=
  (mutator serverRendering call queueWatcher nativeSort toInteger).
Local Abbreviation set' :=
  (set production serverRendering call queueWatcher nativeSort inherited
     inObjectPrototype toInteger).
Local Abbreviation del' :=
  (del production serverRendering call queueWatcher nativeSort toInteger).

Local Abbreviation diagnostic := (diagnostic production).

Lemma when_warn b msg s :
  when (negb production && b) (warn msg) s
  = (if b then diagnostic msg s else s, Ok tt).
Proof. unfold diagnostic. by destruct production, b. Qed.

Lemma set_length_augmented a len s s1 r o :
  heap s !! a = Some o → set_length a len s = (s1, r) →
  from_option o_augmented false (heap s1 !! a) = o_augmented o.
Proof.
  intros Ho. unfold set_length, mbind, M_bind, bind, gets. rewrite Ho.
  case_bool_decide; [by intros [= <- <-]; rewrite Ho|].
  destruct (o_frozen o); [by intros [= <- <-]; rewrite Ho|].
  unfold update_obj, modify. intros [= <- <-]. simpl.
  by rewrite lookup_alter_eq, Ho.
Qed.

(** C7, as amended.  On an [undefined], [null] or primitive target, [set]
    and [del] emit their diagnostic (outside production builds) and change
    nothing else, but they do not refuse silently: [set] fails with a
    [TypeError], and so does [del] on [undefined] and [null].  On a Vue
    instance or an object counted as root data, [del] emits its diagnostic
    and changes nothing, and so does [set] for a key that is not already a
    property of the target.  On an observed array and a valid index, [set]
    adjusts the length and calls the intercepted [splice]. *)
Theorem set_del_refusals n :
  (∀ target k v s,
     isUndef target || isPrimitive target = true →
     set' n target k v s = (diagnostic msg_set_primitive s, Throw TypeError))
  ∧ (∀ target k s,
       isUndef target || isPrimitive target = true →
       ∃ r, del' n target k s = (diagnostic msg_del_primitive s, r)
            ∧ (r = Ok tt ∨ r = Throw TypeError)
            ∧ (isUndef target = true → r = Throw TypeError))
  ∧ (∀ a o k v s isv,
       heap s !! a = Some o →
       is_array o && isValidArrayIndex k = false →
       read_isVue call n (VObj a) s = (s, Ok isv) →
       isv || from_option (λ r, negb (bool_decide
                (from_option o_vmCount 0 (heap s !! ob_value r) = 0)))
                false (o_ob o) = true →
       del' n (VObj a) k s = (diagnostic msg_del_root s, Ok tt)
       ∧ ((has_own o k || inherited (o_class o) k)
            && negb (inObjectPrototype k) = false →
          set' n (VObj a) k v s = (diagnostic msg_set_root s, Ok v)))
  ∧ (∀ a o i v s,
       heap s !! a = Some o → is_array o = true → o_augmented o = true →
       set' n (VObj a) (KIdx i) v s =
         (set_length a (Nat.max (length (o_elems o)) i);;
          mutator' n Splice a [VNum (Fin (Z.of_nat i)); VNum (Fin 1); v];;
          mret v) s).
Proof.
  split_and!.
  - intros target k v s Ht. unfold set, mbind, M_bind, bind.
    rewrite when_warn, Ht.
    destruct target; try done; by destruct k.
  - intros target k s Ht. unfold del, mbind, M_bind, bind.
    rewrite when_warn, Ht.
    destruct target as [| |b|x|str|a]; try done.
    + exists (Throw TypeError). destruct k; split_and!; auto.
    + exists (Throw TypeError). destruct k; split_and!; auto.
    + exists (Ok tt). destruct k; split_and!; auto; done.
    + exists (Ok tt). destruct k; split_and!; auto; done.
    + destruct k as [i|key]; simpl; unfold del_on_object, mbind, M_bind, bind;
        simpl.
      * destruct (bool_decide (i < String.length str));
          [exists (Throw TypeError)|exists (Ok tt)]; split_and!; auto; done.
      * destruct (bool_decide (key = "length"));
          [exists (Throw TypeError)|exists (Ok tt)]; split_and!; auto; done.
  - intros a o k v s isv Ho Hpath Hvue Hroot.
    assert (HisA : isArray s (VObj a) = is_array o) by (simpl; by rewrite Ho).
    assert (Hr : ∀ m, is_root call m (VObj a) (o_ob o) s = (s, Ok true)
                      ∨ m ≠ n).
    { intros m. destruct (decide (m = n)) as [->|]; [left|by right].
      unfold is_root, mbind, M_bind, bind. rewrite Hvue.
      destruct isv; [done|]. simpl in Hroot.
      destruct (o_ob o) as [r|]; [|done]. simpl in Hroot.
      unfold gets. by rewrite Hroot. }
    destruct (Hr n) as [Hrn|]; [|done]. clear Hr.
    split.
    + unfold del, mbind, M_bind, bind. rewrite when_warn. simpl.
      rewrite Ho. simpl.
      assert (Hobj : del_on_object production call queueWatcher n (VObj a) k s
                = (diagnostic msg_del_root s, Ok tt)).
      { unfold del_on_object, ob_of.
        unfold mbind, M_bind, bind, gets. simpl.
        rewrite Ho. simpl. rewrite ?Ho. simpl. rewrite Hrn.
        unfold diagnostic, when, warn, modify. by destruct production. }
      destruct k as [i|key]; [|done].
      rewrite andb_true_r in Hpath. by rewrite Hpath.
    + intros Hnew. unfold set, mbind, M_bind, bind. rewrite when_warn. simpl.
      rewrite Ho. simpl.
      assert (Hobj : set_on_object production serverRendering call queueWatcher
                inherited inObjectPrototype n (VObj a) k v s
                = (diagnostic msg_set_root s, Ok v)).
      { unfold set_on_object, key_in, ob_of.
        unfold mbind, M_bind, bind, gets. simpl.
        rewrite Ho. simpl. rewrite Hnew, ?Ho. simpl. rewrite Hrn.
        unfold diagnostic, when, warn, modify. by destruct production. }
      destruct k as [i|key]; [|done].
      rewrite andb_true_r in Hpath. by rewrite Hpath.
  - intros a o i v s Ho HA Haug.
    unfold set, mbind, M_bind, bind. rewrite when_warn. simpl.
    rewrite Ho. simpl. rewrite HA, ?Ho. simpl.
    destruct (set_length a (length (o_elems o) `max` i) s) as [s1 r] eqn:Hlen.
    destruct r as [[]| |]; [|done..].
    unfold call_method, mbind, M_bind, bind, gets.
    by rewrite (set_length_augmented _ _ _ _ _ _ Ho Hlen), Haug.
Qed.

End Mutation.

(** ** The deferred-callback queue *)

Section NextTick.

Context (hasPromise : bool).
Context (call : fn → value → list value → M value).

Lemma run_tick_never_throws t s :
  ∃ s', run_tick call t s = (s', Ok tt) ∨ run_tick call t s = (s', Diverge).
Proof.
  unfold run_tick. destruct (t_cb t) as [cb|].
  - unfold try_catch, mbind, M_bind, bind.
    destruct (call cb (t_ctx t) [] s) as [s' [v|e|]]; eauto.
  - destruct (t_resolve t); eauto.
Qed.

(** C8, as amended.  [flushCallbacks] clears [pending] and empties the live
    queue, then runs the snapshot from the first entry to the last.  An
    entry never throws: an error of its callback goes to [handleError] and
    the following entries run.  While no flush is pending, as during a drain,
    [nextTick] appends to the live queue and asks for a new flush instead of
    running anything; a callback that calls [nextTick] during the drain thus
    leaves its callback queued, not run.  Where the platform has [Promise],
    [nextTick] without a callback returns a fresh pending promise, which
    running its queue entry resolves with [ctx]. *)
Theorem nextTick_drain_contract :
  (∀ s, flushCallbacks call s =
        forM (callbacks s) (run_tick call)
          (set_callbacks (λ _, []) (set_pending false s)))
  ∧ (∀ t l s, ∃ s',
       (run_tick call t s = (s', Ok tt)
        ∧ forM (t :: l) (run_tick call) s = forM l (run_tick call) s')
       ∨ run_tick call t s = (s', Diverge))
  ∧ (∀ cb ctx p s s' e,
       call cb ctx [] s = (s', Throw e) →
       run_tick call (Tick (Some cb) ctx p) s
       = (add_log (EvHandleError e "nextTick") s', Ok tt))
  ∧ (∀ cb ctx s, ∃ s' r,
       nextTick hasPromise cb ctx s = (s', Ok r)
       ∧ callbacks s' = callbacks s ++ [Tick cb ctx r]
       ∧ pending s' = true
       ∧ log s' = (if pending s then log s else log s ++ [EvTimer]))
  ∧ (∀ s f ctx g ctx',
       callbacks s = [Tick (Some f) ctx None] →
       (∀ s0, call f ctx [] s0 =
              (nextTick hasPromise (Some g) ctx';; mret VUndefined) s0) →
       ∃ s', flushCallbacks call s = (s', Ok tt)
             ∧ callbacks s' = [Tick (Some g) ctx' None]
             ∧ pending s' = true
             ∧ log s' = log s ++ [EvTimer])
  ∧ (hasPromise = true →
     ∀ ctx s, ∃ s',
       let p := length (promises s) in
       nextTick hasPromise None ctx s = (s', Ok (Some p))
       ∧ promises s' !! p = Some None
       ∧ (∀ s2, promises s2 !! p = Some None →
                ∃ s3, run_tick call (Tick None ctx (Some p)) s2 = (s3, Ok tt)
                      ∧ promises s3 !! p = Some (Some ctx))).
Proof.
  split_and!.
  - done.
  - intros t l s. destruct (run_tick_never_throws t s) as [s' [H|H]];
      exists s'; [left|by right].
    split; [done|]. simpl. unfold bind. by rewrite H.
  - intros cb ctx p s s' e Hcall.
    unfold run_tick, try_catch, mbind, M_bind, bind. simpl. by rewrite Hcall.
  - intros cb ctx s.
    unfold nextTick, mbind, M_bind, bind, gets, modify. simpl.
    destruct (pending s) eqn:Hp; simpl;
      destruct (negb (isSome cb) && hasPromise); simpl;
      eexists _, _; split_and!; done.
  - intros s f ctx g ctx' Hq Hf.
    unfold flushCallbacks, mbind, M_bind, bind, gets, modify. simpl.
    rewrite Hq. simpl. unfold bind.
    unfold run_tick, try_catch, mbind, M_bind, bind. simpl.
    rewrite Hf. unfold nextTick, mbind, M_bind, bind, gets, modify. simpl.
    eexists. split_and!; [reflexivity|done..].
  - intros HP ctx s. rewrite HP.
    unfold nextTick, mbind, M_bind, bind, gets, modify. simpl.
    destruct (pending s); simpl; (eexists; split_and!; [reflexivity| |]).
    1,3: by simpl; rewrite lookup_app_r, Nat.sub_diag by done.
    all: intros s2 H2; unfold run_tick, resolve, modify; simpl;
      eexists; (split; [done|]); simpl; rewrite H2;
      apply list_lookup_insert_eq; by eapply lookup_lt_Some.
Qed.

End NextTick.

(** ** Deep traversal *)

Lemma frame_refl s : frame s s.
Proof. by split_and!. Qed.

Lemma frame_trans s1 s2 s3 : frame s1 s2 → frame s2 s3 → frame s1 s3.
Proof.
  intros (H1 & H2 & H3 & H4 & H5) (G1 & G2 & G3 & G4 & G5).
  split_and!; try congruence; [auto|set_solver].
Qed.

Lemma rank_ok_frame s s' rank : frame s s' → rank_ok s rank → rank_ok s' rank.
Proof.
  intros (H1 & H2 & _) [R1 R2]. split.
  - intros a o b. rewrite H1, H2. apply R1.
  - intros a o b o'. rewrite H1. apply R2.
Qed.

Lemma plain_data_frame s s' : frame s s' → plain_data s → plain_data s'.
Proof.
  intros (H1 & H2 & _) Hp a o k p. rewrite H1, H2. apply Hp.
Qed.

Lemma target_ok_frame s s' : frame s s' → target_ok s → target_ok s'.
Proof.
  intros (_ & _ & H3 & H4 & _) Ht w. unfold Dep_target. rewrite H3.
  intros Hw. apply H4, Ht, Hw.
Qed.

(** A loop whose body preserves an invariant and returns completes. *)
Lemma forM_invariant {A} (P : St → Prop) (f : A → M unit) l s :
  (∀ x s, x ∈ l → P s → ∃ s', f x s = (s', Ok tt) ∧ P s') →
  P s → ∃ s', forM l f s = (s', Ok tt) ∧ P s'.
Proof.
  revert s. induction l as [|x l IH]; intros s Hf HP; [by exists s|].
  destruct (Hf x s) as (s1 & Hx & HP1); [set_solver|done|].
  destruct (IH s1) as (s' & Hl & HP'); [|done|].
  { intros y s2 Hy. apply Hf. set_solver. }
  exists s'. split; [|done]. simpl. unfold bind. by rewrite Hx.
Qed.

Lemma Dep_depend_frame d s :
  target_ok s →
  ∃ s', Dep_depend d s = (s', Ok tt) ∧ frame s s'
        ∧ seenObjects s' = seenObjects s.
Proof.
  intros Ht. unfold Dep_depend, mbind, M_bind, bind, gets.
  destruct (Dep_target s) as [w|] eqn:Hw; [|by exists s; split_and!; try apply frame_refl].
  destruct (Ht w Hw) as [W HW].
  unfold Watcher_addDep, mbind, M_bind, bind, the_watcher. rewrite HW.
  assert (Hex : ∀ f w', is_Some (watchers s !! w') →
                        is_Some (alter f w (watchers s) !! w')).
  { intros f w' Hs. destruct (decide (w' = w)) as [->|].
    - rewrite lookup_alter_eq, HW. by eexists.
    - by rewrite lookup_alter_ne. }
  destruct (decide (d ∈ w_newDepIds W)).
  { exists s; split_and!; try apply frame_refl; done. }
  unfold update_watcher, modify.
  destruct (decide (d ∈ w_depIds W)); eexists; (split; [reflexivity|]);
    split; try done; split_and!; simpl; auto.
Qed.

Lemma elem_of_ob_ids h d :
  d ∈ ob_ids h ↔ ∃ a o r, h !! a = Some o ∧ o_ob o = Some r ∧ ob_dep r = d.
Proof.
  unfold ob_ids. rewrite elem_of_list_to_set, list_elem_of_omap. split.
  - intros ([a o] & Hin%elem_of_map_to_list & Hd). simpl in Hd.
    destruct (o_ob o) as [r|] eqn:Hr; simplify_eq/=. by exists a, o, r.
  - intros (a & o & r & Ha & Hr & <-). exists (a, o).
    split; [by apply elem_of_map_to_list|]. simpl. by rewrite Hr.
Qed.

Section Traversal.

Context (call : fn → value → list value → M value).
Context (rank : addr → nat) (R : nat).
Hypothesis rank_le : ∀ a, rank a ≤ R.

Lemma dependArray_terminates n a s :
  rank a < n → rank_ok s rank → target_ok s →
  ∃ s', dependArray n a s = (s', Ok tt) ∧ frame s s'
        ∧ seenObjects s' = seenObjects s.
Proof.
  revert a s. induction n as [|n IH]; intros a s Hn Hr Ht; [lia|].
  simpl. unfold mbind, M_bind, bind, gets.
  set (P := λ s', frame s s' ∧ seenObjects s' = seenObjects s).
  destruct (forM_invariant P (dependArray_item (dependArray n))
              (from_option o_elems [] (heap s !! a)) s)
    as (s' & Hrun & Hfr & Hseen); [|split; [apply frame_refl|done]|by exists s'].
  intros e s0 He [Hf0 Hs0].
  destruct e as [| | | | |b]; try (by exists s0).
  unfold dependArray_item, mbind, M_bind, bind, gets.
  destruct (heap s0 !! b) as [o'|] eqn:Hb; [|by exists s0].
  assert (Ht0 : target_ok s0) by by eapply target_ok_frame.
  assert (∃ s1, match o_ob o' with
                | Some r0 => Dep_depend (ob_dep r0)
                | None => mret tt
                end s0 = (s1, Ok tt) ∧ frame s0 s1
                ∧ seenObjects s1 = seenObjects s0) as (s1 & -> & Hf1 & Hs1).
  { destruct (o_ob o'); [by apply Dep_depend_frame|].
    exists s0. split_and!; try done; apply frame_refl. }
  destruct (is_array o') eqn:HA.
  - destruct (heap s !! a) as [o|] eqn:Ha; [|by apply elem_of_nil in He].
    simpl in He.
    assert (Hb' : heap s !! b = Some o') by (destruct Hf0 as [<- _]; done).
    assert (rank b < n).
    { pose proof (proj2 Hr a o b o' Ha He Hb' HA). lia. }
    destruct (IH b s1) as (s2 & -> & Hf2 & Hs2); [done| | |].
    { eapply rank_ok_frame; [|done]. by eapply frame_trans. }
    { by eapply target_ok_frame. }
    exists s2. split; [done|]. split.
    + eauto using frame_trans.
    + congruence.
  - exists s1. split; [done|]. split; [eauto using frame_trans|congruence].
Qed.

(** Reading a property of plain data returns the stored value and runs no
    user code. *)
Lemma get_prop_plain n a o k s :
  R + 2 ≤ n → heap s !! a = Some o →
  plain_data s → rank_ok s rank → target_ok s →
  ∃ s' v, get_prop call n (VObj a) k s = (s', Ok v)
          ∧ frame s s' ∧ seenObjects s' = seenObjects s
          ∧ (isObject v = true → v ∈ children (cells s) o).
Proof.
  intros Hn Ho Hp Hr Ht.
  assert (Hdone : ∀ v, (isObject v = true → v ∈ children (cells s) o) →
            ∃ s' v', (s, Ok v) = (s', Ok v') ∧ frame s s'
              ∧ seenObjects s' = seenObjects s
              ∧ (isObject v' = true → v' ∈ children (cells s) o)).
  { intros v Hv. exists s, v. split_and!; try done; apply frame_refl. }
  assert (Hprop : ∃ s' v,
            match lookup_prop o k with
            | Some p =>
              match p_kind p with
              | PData x => mret x
              | PAccessor (Some g) _ => call g (VObj a) []
              | PAccessor None _ => mret VUndefined
              | PReactive c => reactiveGetter call n c
              end
            | None => mret VUndefined
            end s = (s', Ok v)
            ∧ frame s s' ∧ seenObjects s' = seenObjects s
            ∧ (isObject v = true → v ∈ children (cells s) o)).
  { unfold lookup_prop. destruct (assoc k (o_props o)) as [p|] eqn:Hk;
      [|by apply Hdone].
    assert (Hin : (k, p) ∈ o_props o).
    { clear -Hk. induction (o_props o) as [|[k' p'] l IH]; [done|].
      simpl in Hk. case_decide; simplify_eq; set_solver. }
    destruct (Hp a o k p Ho Hin) as [v Hv].
    assert (Hch : v ∈ children (cells s) o).
    { unfold children. apply elem_of_app. right.
      apply list_elem_of_omap. by exists (k, p). }
    unfold stored_value in Hv.
    destruct (p_kind p) as [x|g f|c]; [| done |].
    - simplify_eq. by apply Hdone.
    - destruct (cells s !! c) as [C|] eqn:HC; [|done].
      destruct (c_getter C) eqn:Hg; [done|]. simplify_eq/=.
      destruct n as [|n]; [lia|]. simpl.
      unfold mbind, M_bind, bind, the_cell. rewrite HC, Hg. simpl.
      unfold collect, mbind, M_bind, bind, gets.
      destruct (Dep_target s) eqn:Htg.
      2:{ exists s, (c_val C). split_and!; try done; apply frame_refl. }
      destruct (Dep_depend_frame (c_dep C) s Ht) as (s1 & -> & Hf1 & Hs1).
      unfold the_cell. rewrite (proj1 (proj2 Hf1)), HC.
      destruct (c_childOb C) as [r|].
      2:{ exists s1, (c_val C). by split_and!. }
      assert (Ht1 : target_ok s1) by by eapply target_ok_frame.
      destruct (Dep_depend_frame (ob_dep r) s1 Ht1) as (s2 & -> & Hf2 & Hs2).
      assert (Hf12 : frame s s2) by eauto using frame_trans.
      destruct (c_val C) as [| | | | |b] eqn:Hval;
        try (exists s2, (c_val C); rewrite Hval; split_and!; [done..|congruence|done]).
      destruct (isArray s2 (VObj b)).
      2:{ exists s2, (VObj b). split_and!; [done..|congruence|done]. }
      destruct (dependArray_terminates n b s2) as (s3 & -> & Hf3 & Hs3).
      + pose proof (rank_le b). lia.
      + by eapply rank_ok_frame.
      + by eapply target_ok_frame.
      + exists s3, (VObj b). split_and!; [done|eauto using frame_trans|congruence|done]. }
  unfold get_prop, mbind, M_bind, bind, gets. rewrite Ho.
  destruct k as [i|key]; [|done].
  destruct (is_array o); [|done].
  apply Hdone. intros Hv. unfold children. apply elem_of_app. left.
  destruct (o_elems o !! i) as [v|] eqn:Hi; [|done]. simpl.
  by eapply list_elem_of_lookup_2.
Qed.

Lemma traverse_non_object n v s :
  isObject v = false → _traverse call (S n) v s = (s, Ok tt).
Proof. by destruct v. Qed.

Lemma traverse_terminates n v s :
  traverse_fuel rank R s v ≤ n →
  plain_data s → rank_ok s rank → target_ok s →
  ∃ s', _traverse call n v s = (s', Ok tt) ∧ frame s s'.
Proof.
  revert v s. induction n as [|n IH]; intros v s Hn Hpd Hr Ht.
  { unfold traverse_fuel in Hn. lia. }
  assert (Hskip : ∃ s', (s, Ok tt) = (s', Ok tt) ∧ frame s s').
  { exists s. split; [done|apply frame_refl]. }
  destruct v as [| | | | |a]; try done.
  simpl. unfold mbind, M_bind, bind, gets.
  destruct (heap s !! a) as [o|] eqn:Ho; [|done].
  destruct (o_frozen o || bool_decide (o_class o = CVNode)) eqn:Hfz; [done|].
  apply orb_false_iff in Hfz as [Hfrozen Hvn%bool_decide_eq_false].
  (* the store in which the children are visited *)
  assert (Hmark : (mark_seen o s = (s, Ok false))
    ∨ ∃ s0, mark_seen o s = (s0, Ok true) ∧ frame s s0
        ∧ ∀ s1 x, frame s0 s1 → x ∈ children (cells s) o →
                  isObject x = true → traverse_fuel rank R s1 x ≤ n).
  { unfold mark_seen, mbind, M_bind, bind, gets, modify.
    destruct (o_ob o) as [r|] eqn:Hob.
    - destruct (decide (ob_dep r ∈ seenObjects s)) as [|Hnew]; [by left|].
      right. eexists. split; [done|]. split.
      { split_and!; simpl; try done. set_solver. }
      intros s1 x (Hh & _ & _ & _ & Hseen) _ Hx. simpl in Hseen.
      unfold traverse_fuel in *. rewrite Hh. simpl.
      assert (Hlt : size (ob_ids (heap s) ∖ seenObjects s1)
                    < size (ob_ids (heap s) ∖ seenObjects s)).
      { apply subset_size.
        assert (HU : ob_dep r ∈ ob_ids (heap s)).
        { apply elem_of_ob_ids. by exists a, o, r. }
        split; [set_solver|]. intros Hsub.
        assert (ob_dep r ∈ ob_ids (heap s) ∖ seenObjects s1) by set_solver.
        set_solver. }
      assert (rank_of rank x ≤ R) by (destruct x; simpl; auto with lia).
      simpl in Hn. nia.
    - right. exists s. split; [done|]. split; [apply frame_refl|].
      intros s1 x (Hh & _ & _ & _ & Hseen) Hx Hobj.
      destruct x as [| | | | |b]; try done.
      pose proof (proj1 Hr a o b Ho Hob Hfrozen Hvn Hx) as Hrk.
      unfold traverse_fuel in *. rewrite Hh. simpl in *.
      assert (size (ob_ids (heap s) ∖ seenObjects s1)
              ≤ size (ob_ids (heap s) ∖ seenObjects s)).
      { apply subseteq_size. set_solver. }
      nia. }
  destruct Hmark as [->|(s0 & -> & Hf0 & Hfuel)]; [done|].
  assert (Hn1 : R + 2 ≤ n) by (unfold traverse_fuel in Hn; lia).
  (* one iteration: read a property, then descend *)
  assert (Hbody : ∀ k s1, frame s0 s1 →
            ∃ s', (x ← get_prop call n (VObj a) k; _traverse call n x) s1
                  = (s', Ok tt) ∧ frame s0 s').
  { intros k s1 Hf1.
    assert (Hf : frame s s1) by eauto using frame_trans.
    assert (Ho1 : heap s1 !! a = Some o) by (by rewrite (proj1 Hf)).
    destruct (get_prop_plain n a o k s1 Hn1 Ho1) as (s2 & x & Hget & Hf2 & _ & Hx);
      eauto using plain_data_frame, rank_ok_frame, target_ok_frame.
    unfold mbind, M_bind, bind. rewrite Hget.
    assert (Hf02 : frame s0 s2) by eauto using frame_trans.
    destruct (isObject x) eqn:Hobj.
    - destruct (IH x s2) as (s3 & -> & Hf3);
        eauto using plain_data_frame, rank_ok_frame, target_ok_frame, frame_trans.
      apply Hfuel; [done| |done].
      rewrite <- (proj1 (proj2 Hf)). auto.
    - destruct n as [|n']; [lia|]. rewrite traverse_non_object by done.
      by exists s2. }
  unfold traverse_children.
  destruct (is_array o).
  - destruct (forM_invariant (frame s0)
      (λ i, x ← get_prop call n (VObj a) (KIdx i); _traverse call n x)
      (reverse (seq 0 (length (o_elems o)))) s0) as (s' & -> & Hf');
      [by intros; apply Hbody|apply frame_refl|].
    exists s'. split; [done|]. eauto using frame_trans.
  - destruct (forM_invariant (frame s0)
      (λ k, x ← get_prop call n (VObj a) k; _traverse call n x)
      (reverse (object_keys o)) s0) as (s' & -> & Hf');
      [by intros; apply Hbody|apply frame_refl|].
    exists s'. split; [done|]. eauto using frame_trans.
Qed.

(** C10, as amended.  [_traverse] returns at once on a value that is not an
    object, on a frozen object, on a VNode, and on an observed object whose
    Dep id is already in the seen-set; it adds the id of an observed object it
    enters to the seen-set.  On a store of plain data in which no reference
    cycle consists of unobserved objects only and no array contains itself
    through nested arrays (as witnessed by [rank]), [traverse] terminates,
    whatever the cycles among observed objects, and leaves the seen-set
    empty. *)
Theorem traverse_terminates_on_guarded_cycles val s :
  (∀ n v s0, isObject v = false → _traverse call (S n) v s0 = (s0, Ok tt))
  ∧ (∀ n a o s0,
       heap s0 !! a = Some o →
       o_frozen o || bool_decide (o_class o = CVNode) = true →
       _traverse call (S n) (VObj a) s0 = (s0, Ok tt))
  ∧ (∀ n a o r s0,
       heap s0 !! a = Some o → o_ob o = Some r →
       ob_dep r ∈ seenObjects s0 →
       _traverse call (S n) (VObj a) s0 = (s0, Ok tt))
  ∧ (∀ o r s0,
       o_ob o = Some r → ob_dep r ∉ seenObjects s0 →
       mark_seen o s0
       = (set_seenObjects (λ seen, {[ob_dep r]} ∪ seen) s0, Ok true))
  ∧ (plain_data s → rank_ok s rank → target_ok s →
     ∀ n, traverse_fuel rank R s val ≤ n →
          ∃ s', traverse call n val s = (s', Ok tt)
                ∧ seenObjects s' = ∅ ∧ heap s' = heap s).
Proof.
  split_and!.
  - intros n v s0 Hv. by apply traverse_non_object.
  - intros n a o s0 Ho Hfz. simpl. unfold mbind, M_bind, bind, gets.
    by rewrite Ho, Hfz.
  - intros n a o r s0 Ho Hob Hseen. simpl. unfold mbind, M_bind, bind, gets.
    rewrite Ho. destruct (o_frozen o || _); [done|].
    unfold mark_seen, mbind, M_bind, bind, gets. rewrite Hob.
    by rewrite decide_True.
  - intros o r s0 Hob Hnew. unfold mark_seen, mbind, M_bind, bind, gets.
    rewrite Hob. by rewrite decide_False.
  - intros Hpd Hr Ht n Hn.
    destruct (traverse_terminates n val s Hn Hpd Hr Ht) as (s1 & Hrun & Hf).
    unfold traverse, mbind, M_bind, bind. rewrite Hrun.
    eexists. split; [done|]. split; [done|]. simpl. apply Hf.
Qed.

End Traversal.

(** * Properties of the further functions *)

(** ** Merging of lifecycle hooks *)

Lemma indexOf_absent x l : (indexOf x l =? -1)%Z = bool_decide (x ∉ l).
Proof.
  unfold indexOf. destruct (list_find _ l) as [[i y]|] eqn:Hf.
  - apply list_find_Some in Hf as (Hi & -> & _).
    rewrite bool_decide_eq_false_2.
    + apply Z.eqb_neq. lia.
    + intros Hn. apply Hn. by eapply list_elem_of_lookup_2.
  - rewrite bool_decide_eq_true_2; [done|].
    intros Hin. eapply list_find_None in Hf.
    by eapply Forall_forall in Hf.
Qed.

Lemma dedupe_loop acc l :
  foldl (λ res h, if (indexOf h res =? -1)%Z then res ++ [h] else res) acc l
  = acc ++ filter (λ y, y ∉ acc) (first_occurrences l).
Proof.
  revert acc. induction l as [|x l IH]; intros acc; simpl.
  { by rewrite filter_nil, app_nil_r. }
  rewrite indexOf_absent, IH. case_bool_decide as Hx.
  - rewrite filter_cons_True by (simpl; tauto). rewrite <- app_assoc. simpl.
    do 2 f_equal. rewrite list_filter_filter.
    apply list_filter_iff. intros y. set_solver.
  - rewrite filter_cons_False by (simpl; tauto). f_equal.
    rewrite list_filter_filter. apply list_filter_iff. intros y.
    split; [|tauto]. intros Hy. split; [done|]. intros ->. tauto.
Qed.

Lemma dedupeHooks_first_occurrences l : dedupeHooks l = first_occurrences l.
Proof.
  unfold dedupeHooks. rewrite dedupe_loop. simpl.
  induction (first_occurrences l) as [|x l' IH]; [done|].
  rewrite filter_cons_True by set_solver. by f_equal.
Qed.

Lemma elem_of_first_occurrences x l : x ∈ first_occurrences l ↔ x ∈ l.
Proof.
  induction l as [|y l IH]; simpl; [done|].
  rewrite elem_of_cons, list_elem_of_filter, IH, elem_of_cons.
  destruct (decide (x = y)); tauto.
Qed.

Lemma NoDup_first_occurrences l : NoDup (first_occurrences l).
Proof.
  induction l as [|y l IH]; simpl; [constructor|].
  constructor; [|by apply NoDup_filter].
  rewrite list_elem_of_filter. tauto.
Qed.

Lemma first_occurrences_NoDup l : NoDup l → first_occurrences l = l.
Proof.
  induction 1 as [|x l Hx Hl IH]; simpl; [done|].
  rewrite IH. f_equal.
  clear IH Hl. induction l as [|y l IH]; [done|].
  rewrite filter_cons_True by set_solver. f_equal. apply IH. set_solver.
Qed.

Lemma dedupeHooks_app p c :
  dedupeHooks (p ++ c)
  = dedupeHooks p ++ filter (λ h, h ∉ p) (dedupeHooks c).
Proof.
  unfold dedupeHooks at 1. rewrite foldl_app. fold (dedupeHooks p).
  rewrite dedupe_loop, dedupeHooks_first_occurrences. f_equal.
  rewrite dedupeHooks_first_occurrences.
  apply list_filter_iff. intros h. by rewrite elem_of_first_occurrences.
Qed.

(** X1.  [dedupeHooks] keeps the first occurrence of every hook, in the order
    of the input: the result has no duplicates and the same elements, its
    head is the head of the input and the rest is the result for the tail
    without that hook; a list without duplicates is returned as it is, and
    so the function is idempotent. *)
Theorem dedupeHooks_keeps_first_occurrences hooks :
  NoDup (dedupeHooks hooks)
  ∧ (∀ h, h ∈ dedupeHooks hooks ↔ h ∈ hooks)
  ∧ (∀ h, dedupeHooks (h :: hooks)
          = h :: filter (λ x, x ≠ h) (dedupeHooks hooks))
  ∧ (NoDup hooks → dedupeHooks hooks = hooks)
  ∧ dedupeHooks (dedupeHooks hooks) = dedupeHooks hooks.
Proof.
  rewrite !dedupeHooks_first_occurrences. split_and!.
  - apply NoDup_first_occurrences.
  - intros h. apply elem_of_first_occurrences.
  - intros h. by rewrite dedupeHooks_first_occurrences.
  - apply first_occurrences_NoDup.
  - apply first_occurrences_NoDup, NoDup_first_occurrences.
Qed.

(** X2.  [mergeHook] returns [undefined] only when both values are absent.
    Otherwise the merged list has no duplicates, consists of the parent's
    and the child's hooks, and lists the parent's hooks first, in their
    order, followed by those hooks of the child that the parent does not
    have: a hook that both give is called once, in the parent's position. *)
Theorem mergeHook_parent_first parentVal childVal :
  (mergeHook parentVal childVal = None ↔ parentVal = None ∧ childVal = None)
  ∧ ∀ res, mergeHook parentVal childVal = Some res →
      let parent := default [] parentVal in
      let child := from_option hooks_of [] childVal in
      NoDup res
      ∧ (∀ h, h ∈ res ↔ h ∈ parent ∨ h ∈ child)
      ∧ res = dedupeHooks parent
              ++ filter (λ h, h ∉ parent) (dedupeHooks child).
Proof.
  assert (Hres : mergeHook parentVal childVal =
            match parentVal, childVal with
            | None, None => None
            | _, _ => Some (dedupeHooks (default [] parentVal
                                         ++ from_option hooks_of [] childVal))
            end).
  { unfold mergeHook. destruct parentVal as [p|], childVal as [[f|l]|];
      simpl; rewrite ?app_nil_r; done. }
  rewrite Hres. split.
  - destruct parentVal, childVal; split; (try done); by intros [??].
  - intros res Heq parent child.
    assert (res = dedupeHooks (parent ++ child)) as ->.
    { destruct parentVal, childVal; by inversion Heq. }
    split_and!.
    + rewrite dedupeHooks_first_occurrences. apply NoDup_first_occurrences.
    + intros h. rewrite dedupeHooks_first_occurrences,
        elem_of_first_occurrences. set_solver.
    + apply dedupeHooks_app.
Qed.
(** ** Subscriptions and dependency sets *)

Lemma remove_first_other w w' l : w' ≠ w → w' ∈ l → w' ∈ remove_first w l.
Proof.
  intros Hne. induction l as [|x l IH]; simpl; [done|].
  case_decide; set_solver.
Qed.

(** [addDep] on an existing watcher, as a function of the store. *)
Lemma addDep_run s w W d :
  watchers s !! w = Some W →
  ∃ s', Watcher_addDep w d s = (s', Ok tt)
    ∧ s' = set_watchers (λ _, watchers s') (set_subs (λ _, subs s') s)
    ∧ watchers s' = <[w := recorded d W]> (watchers s)
    ∧ ∀ d', dep_subs s' d' =
            if decide (d' = d ∧ (d ∉ w_newDepIds W) ∧ (d ∉ w_depIds W))
            then dep_subs s d ++ [w] else dep_subs s d'.
Proof.
  intros HW. unfold Watcher_addDep, mbind, M_bind, bind, the_watcher, recorded.
  rewrite HW. destruct (decide (d ∈ w_newDepIds W)) as [Hin|Hnew].
  - exists s. split; [done|]. split; [by destruct s|]. split.
    + by rewrite insert_id.
    + intros d'. rewrite decide_False by tauto. done.
  - unfold update_watcher, modify. rewrite (update_watcher_at s w W) by done.
    destruct (decide (d ∈ w_depIds W)) as [Hold|Hnot]; simpl.
    + eexists. split; [done|]. simpl. split; [by destruct s|]. split; [done|].
      intros d'. rewrite decide_False by tauto. done.
    + eexists. split; [done|]. simpl. split; [by destruct s|]. split; [done|].
      intros d'. rewrite dep_subs_set_subs. simpl.
      destruct (decide (d' = d)) as [->|Hne].
      * rewrite lookup_insert_eq. by rewrite decide_True.
      * rewrite lookup_insert_ne by done. by rewrite decide_False by tauto.
Qed.
Lemma subscribed_addDep s w d0 :
  subscribed s → subscribed (Watcher_addDep w d0 s).1.
Proof.
  intros Hsub. destruct (watchers s !! w) as [W|] eqn:HW.
  - destruct (addDep_run s w W d0 HW) as (s' & -> & _ & HWs & Hs).
    simpl. intros v V d. rewrite HWs, Hs.
    destruct (decide (v = w)) as [->|Hne].
    + rewrite lookup_insert_eq. intros [= <-]. unfold recorded.
      destruct (decide (d0 ∈ w_newDepIds W)) as [Hin|Hnew].
      * rewrite decide_False by tauto. by apply Hsub.
      * simpl. intros HD.
        destruct (decide (_ ∧ _)) as [Hc|Hc]; [set_solver|].
        apply (Hsub w W d HW).
        destruct (decide (d = d0)) as [->|]; [|set_solver].
        left. destruct (decide (d0 ∈ w_depIds W)); tauto.
    + rewrite lookup_insert_ne by done. intros HV HD.
      pose proof (Hsub v V d HV HD).
      destruct (decide (_ ∧ _)) as [Hc|Hc]; [|done].
      destruct Hc as [-> _]. set_solver.
  - unfold Watcher_addDep, mbind, M_bind, bind, the_watcher.
    by rewrite HW.
Qed.

Lemma subscribed_cleanupDeps s w :
  tracking_ok s → subscribed s → subscribed (Watcher_cleanupDeps w s).1.
Proof.
  intros Hok Hsub. destruct (watchers s !! w) as [W|] eqn:HW.
  - destruct (cleanupDeps_run s w W HW (ok_subs s Hok))
      as (s' & -> & _ & HWs & Hs).
    simpl. intros v V d. rewrite HWs, Hs.
    destruct (decide (v = w)) as [->|Hne].
    + rewrite lookup_insert_eq. intros [= <-]. simpl. intros [HD|HD];
        [|set_solver].
      rewrite decide_False by tauto. apply (Hsub w W d HW). by right.
    + rewrite lookup_insert_ne by done. intros HV HD.
      pose proof (Hsub v V d HV HD).
      destruct (decide (_ ∧ _)); [|done]. by apply remove_first_other.
  - unfold Watcher_cleanupDeps, mbind, M_bind, bind, the_watcher.
    by rewrite HW.
Qed.

Lemma in_agreement_addDep s w d :
  in_agreement s → in_agreement (Watcher_addDep w d s).1.
Proof.
  intros [Hok Hsub]. split;
    [by apply tracking_ok_addDep|by apply subscribed_addDep].
Qed.

Lemma in_agreement_cleanupDeps s w :
  in_agreement s → in_agreement (Watcher_cleanupDeps w s).1.
Proof.
  intros [Hok Hsub]. split;
    [by apply tracking_ok_cleanupDeps|by apply subscribed_cleanupDeps].
Qed.

(** Agreement only concerns the subscriber lists and the watchers. *)
Lemma in_agreement_frame s s' :
  subs s' = subs s → watchers s' = watchers s →
  in_agreement s → in_agreement s'.
Proof.
  intros Hs Hw [Hok Hsub]. split.
  - apply (tracking_ok_other s); [done..|].
    intros w. rewrite Hw. apply same_tracking_refl.
  - intros w W d. unfold dep_subs. rewrite Hw, Hs. apply Hsub.
Qed.

Lemma in_agreement_iff s v V d :
  in_agreement s → watchers s !! v = Some V →
  v ∈ dep_subs s d ↔ d ∈ w_depIds V ∨ d ∈ w_newDepIds V.
Proof.
  intros [Hok Hsub] HV. split.
  - intros Hin. destruct (ok_tracked s Hok d v Hin) as (V' & HV' & HD).
    by simplify_eq.
  - by apply Hsub.
Qed.

(** X3.  The subscriber lists and the dependency sets stay in
    agreement.  In a store that satisfies the bookkeeping invariant and in
    which every watcher is in the subscriber list of every Dep it has
    recorded, [addDep] and [cleanupDeps] keep both properties; before and
    after them, a watcher is in the list of a Dep exactly when the id of the
    Dep is in its [depIds] or [newDepIds]. *)
Theorem subscriptions_stay_in_agreement s w d0 :
  tracking_ok s → subscribed s →
  let s1 := (Watcher_addDep w d0 s).1 in
  let s2 := (Watcher_cleanupDeps w s).1 in
  subscribed s1 ∧ subscribed s2
  ∧ ∀ s', s' = s ∨ s' = s1 ∨ s' = s2 →
      ∀ v V d, watchers s' !! v = Some V →
        v ∈ dep_subs s' d ↔ d ∈ w_depIds V ∨ d ∈ w_newDepIds V.
Proof.
  intros Hok Hsub s1 s2. split_and!.
  - by apply subscribed_addDep.
  - by apply subscribed_cleanupDeps.
  - intros s' Hs' v V d HV. apply in_agreement_iff; [|done].
    destruct Hs' as [->|[->| ->]].
    + by split.
    + by apply in_agreement_addDep.
    + by apply in_agreement_cleanupDeps.
Qed.
Section Teardown.

Context (call : fn → value → list value → M value).
Context (remove_from_owner : value → wid → M unit).

Local Abbreviation teardown' := (teardown call remove_from_owner).

(** X4.  [teardown] of an active watcher in a store that satisfies the
    bookkeeping invariant, when reading the
    owner's [_isBeingDestroyed] flag and the removal from the owner's list
    return and leave subscriptions alone: the watcher is removed from the
    subscriber list of every Dep of its previous evaluation, so that it only
    remains in the lists of Deps recorded in an unfinished evaluation (in
    none, outside an evaluation); no other watcher is removed from any list;
    the watcher becomes inactive, and a second [teardown] does nothing. *)
Theorem teardown_unsubscribes n w W s b s1 :
  tracking_ok s → watchers s !! w = Some W → w_active W = true →
  get_prop call n (w_vm W) (KStr "_isBeingDestroyed") s = (s, Ok b) →
  when (negb (truthy b)) (remove_from_owner (w_vm W) w) s = (s1, Ok tt) →
  subs s1 = subs s → watchers s1 = watchers s →
  ∃ s', teardown' n w s = (s', Ok tt)
    ∧ (∀ d, w ∈ dep_subs s' d → d ∈ w_newDepIds W ∧ d ∉ w_deps W)
    ∧ (w_newDepIds W = ∅ → ∀ d, w ∉ dep_subs s' d)
    ∧ (∀ d w', w' ≠ w → w' ∈ dep_subs s' d ↔ w' ∈ dep_subs s d)
    ∧ watchers s' = <[w := set_active false W]> (watchers s)
    ∧ teardown' n w s' = (s', Ok tt).
Proof.
  intros Hok HW Hact Hflag Hrm Hsubs Hws.
  assert (HW1 : watchers s1 !! w = Some W) by (by rewrite Hws).
  assert (Hd1 : ∀ d, dep_subs s1 d = dep_subs s d).
  { intros d. unfold dep_subs. by rewrite Hsubs. }
  assert (Hnd1 : ∀ d, NoDup (dep_subs s1 d)).
  { intros d. rewrite Hd1. apply (ok_subs s Hok). }
  destruct (prune_loop_all w (reverse (w_deps W)) s1 Hnd1)
    as (s2 & Hrun & Hfr & Hs2).
  assert (HW2 : watchers s2 !! w = Some W) by (by rewrite Hfr).
  assert (Hin : ∀ d, w ∈ dep_subs s2 d → d ∈ w_newDepIds W ∧ d ∉ w_deps W).
  { intros d. rewrite Hs2. case_decide as Hd.
    - intros Hw. by apply remove_first_gone in Hw.
    - rewrite Hd1. intros (W' & HW' & HD)%(ok_tracked s Hok).
      rewrite HW in HW'. injection HW' as <-.
      rewrite elem_of_reverse in Hd. destruct HD as [HD|HD]; [|done].
      by apply (ok_depIds s Hok w W d HW) in HD. }
  exists (set_watchers (alter (set_active false) w) s2).
  split_and!.
  - unfold teardown, mbind, M_bind, bind, the_watcher. rewrite HW, Hact, Hflag.
    rewrite Hrm, HW1, Hrun. done.
  - done.
  - intros Hemp d Hd. apply Hin in Hd as [Hd _]. set_solver.
  - intros d w' Hne.
    change (dep_subs (set_watchers _ s2) d) with (dep_subs s2 d).
    rewrite Hs2, Hd1. case_decide; [|done]. split.
    + apply remove_first_subset.
    + by apply remove_first_other.
  - simpl. rewrite Hfr. simpl. rewrite Hws.
    apply map_eq. intros v. destruct (decide (v = w)) as [->|].
    + by rewrite lookup_alter_eq, lookup_insert_eq, HW.
    + by rewrite lookup_alter_ne, lookup_insert_ne.
  - unfold teardown, mbind, M_bind, bind, the_watcher. simpl.
    rewrite lookup_alter_eq, HW2. done.
Qed.

End Teardown.
Lemma set_tracking_same W :
  set_tracking (w_deps W) (w_newDeps W) (w_depIds W) (w_newDepIds W) W = W.
Proof. by destruct W. Qed.

(** A sequence of [depend ()] calls under the active watcher [t]. *)
Lemma depend_loop t L s T :
  Dep_target s = Some t → watchers s !! t = Some T →
  ∃ s' nd ni,
    forM L Dep_depend s = (s', Ok tt)
    ∧ s' = set_watchers (λ _, watchers s') (set_subs (λ _, subs s') s)
    ∧ watchers s' =
        <[t := set_tracking (w_deps T) nd (w_depIds T) ni T]> (watchers s)
    ∧ (∀ d, d ∈ ni ↔ d ∈ w_newDepIds T ∨ d ∈ L)
    ∧ (∀ d, dep_subs s' d =
            if decide (d ∈ L ∧ (d ∉ w_newDepIds T) ∧ (d ∉ w_depIds T))
            then dep_subs s d ++ [t] else dep_subs s d).
Proof.
  revert s T. induction L as [|d0 L IH]; intros s T Ht HT.
  - exists s, (w_newDeps T), (w_newDepIds T). split; [done|].
    split; [by destruct s|]. split.
    { by rewrite set_tracking_same, insert_id. }
    split; [set_solver|]. intros d.
    destruct (decide (_ ∧ _)) as [[Hd _]|]; [|done]. by apply elem_of_nil in Hd.
  - simpl. unfold bind at 1. unfold Dep_depend at 1, mbind, M_bind, bind, gets.
    rewrite Ht.
    destruct (addDep_run s t T d0 HT) as (s1 & -> & Hfr1 & HW1 & Hs1).
    assert (Ht1 : Dep_target s1 = Some t).
    { rewrite Hfr1. done. }
    assert (HT1 : watchers s1 !! t = Some (recorded d0 T)).
    { by rewrite HW1, lookup_insert_eq. }
    destruct (IH s1 _ Ht1 HT1) as (s' & nd & ni & Hrun & Hfr & HW' & Hni & Hs').
    assert (Hrec : w_deps (recorded d0 T) = w_deps T
                   ∧ w_depIds (recorded d0 T) = w_depIds T
                   ∧ ∀ d, d ∈ w_newDepIds (recorded d0 T)
                          ↔ d ∈ w_newDepIds T ∨ d = d0).
    { unfold recorded. case_decide; simpl; set_solver. }
    destruct Hrec as (Hrd & Hri & Hrn).
    exists s', nd, ni. split; [done|]. split.
    { rewrite Hfr, Hfr1. by destruct s. }
    split.
    { rewrite HW', HW1, insert_insert_eq, Hrd, Hri. f_equal.
      unfold recorded. case_decide; by destruct T. }
    split.
    { intros d. rewrite Hni, Hrn, elem_of_cons. tauto. }
    intros d. rewrite Hs', !Hs1, Hri.
    destruct (decide (d0 ∈ w_newDepIds T)), (decide (d0 ∈ w_depIds T)),
      (decide (d ∈ L)), (decide (d ∈ w_newDepIds T)),
      (decide (d ∈ w_depIds T)), (decide (d = d0)) as [->|Hne];
      repeat match goal with
      | |- context [decide ?P] =>
        first [rewrite (decide_True (P:=P))
                 by (rewrite ?Hrn, ?elem_of_cons; tauto)
              |rewrite (decide_False (P:=P))
                 by (rewrite ?Hrn, ?elem_of_cons; tauto)]
      end; done.
Qed.

(** X5.  [depend ()] of a watcher.  With no active watcher it does
    nothing.  With the active watcher [t] it records every Dep of the
    watcher's previous evaluation with [t]: afterwards [newDepIds] of [t]
    holds these ids besides those it held, [t] has been appended to the
    subscriber list of exactly the Deps among them that it had recorded in
    neither cycle, and nothing else has changed. *)
Theorem Watcher_depend_records w W s :
  watchers s !! w = Some W →
  (Dep_target s = None → Watcher_depend w s = (s, Ok tt))
  ∧ ∀ t T, Dep_target s = Some t → watchers s !! t = Some T →
      ∃ s' nd ni,
        Watcher_depend w s = (s', Ok tt)
        ∧ s' = set_watchers (λ _, watchers s') (set_subs (λ _, subs s') s)
        ∧ watchers s' =
            <[t := set_tracking (w_deps T) nd (w_depIds T) ni T]> (watchers s)
        ∧ (∀ d, d ∈ ni ↔ d ∈ w_newDepIds T ∨ d ∈ w_deps W)
        ∧ (∀ d, dep_subs s' d =
                if decide (d ∈ w_deps W ∧ (d ∉ w_newDepIds T)
                           ∧ (d ∉ w_depIds T))
                then dep_subs s d ++ [t] else dep_subs s d).
Proof.
  intros HW. split.
  - intros Ht. unfold Watcher_depend, mbind, M_bind, bind, the_watcher.
    rewrite HW. induction (reverse (w_deps W)) as [|d L IH]; [done|].
    simpl. unfold bind at 1. unfold Dep_depend at 1, mbind, M_bind, bind, gets.
    by rewrite Ht.
  - intros t T Ht HT.
    destruct (depend_loop t (reverse (w_deps W)) s T Ht HT)
      as (s' & nd & ni & Hrun & Hfr & HW' & Hni & Hs').
    exists s', nd, ni.
    unfold Watcher_depend, mbind, M_bind, bind, the_watcher. rewrite HW.
    split_and!; try done.
    + intros d. by rewrite Hni, elem_of_reverse.
    + intros d. rewrite Hs'.
      repeat destruct (decide (_ ∧ _)) as [?|?];
        try done; exfalso; rewrite ?elem_of_reverse in *; tauto.
Qed.
(** ** Association lists of properties *)

Lemma assoc_put_assoc_ne k k' p l :
  k ≠ k' → assoc k (put_assoc k' p l) = assoc k l.
Proof.
  intros Hne. induction l as [|[k0 p0] l IH]; simpl.
  - by rewrite decide_False.
  - destruct (decide (k0 = k')) as [->|]; simpl.
    + by rewrite !decide_False.
    + destruct (decide (k0 = k)); [done|apply IH].
Qed.

Lemma fst_put_assoc k p l :
  is_Some (assoc k l) → (put_assoc k p l).*1 = l.*1.
Proof.
  induction l as [|[k0 p0] l IH]; simpl; [by intros [? [=]]|].
  destruct (decide (k0 = k)) as [->|]; simpl; [done|].
  intros H. f_equal. by apply IH.
Qed.

Lemma assoc_elem_of k p l : assoc k l = Some p → (k, p) ∈ l.
Proof.
  induction l as [|[k0 p0] l IH]; simpl; [done|].
  destruct (decide (k0 = k)) as [->|]; [intros [= ->]; set_solver|].
  intros H. right. by apply IH.
Qed.

Lemma elem_of_assoc k p l : NoDup l.*1 → (k, p) ∈ l → assoc k l = Some p.
Proof.
  induction l as [|[k0 p0] l IH]; simpl; [by intros _ ?%elem_of_nil|].
  intros [Hk0 Hl]%NoDup_cons [[= -> ->]|Hin]%elem_of_cons.
  - by rewrite decide_True.
  - rewrite decide_False; [by apply IH|].
    intros ->. apply Hk0. apply list_elem_of_fmap. by exists (k, p).
Qed.

Lemma elem_of_object_keys o k :
  k ∈ object_keys o ↔ ∃ p, (k, p) ∈ o_props o ∧ p_enumerable p = true.
Proof.
  unfold object_keys. rewrite list_elem_of_fmap. split.
  - intros ([k' p] & -> & [Hp Hin]%list_elem_of_filter). by exists p.
  - intros (p & Hin & Hp). exists (k, p). split; [done|].
    by apply list_elem_of_filter.
Qed.

Lemma NoDup_object_keys o : NoDup (o_props o).*1 → NoDup (object_keys o).
Proof.
  intros Hnd. unfold object_keys. eapply sublist_NoDup; [done|].
  apply fmap_sublist, sublist_filter.
Qed.

(** A loop whose invariant depends on the items already visited. *)
Lemma forM_visited {A} (P : list A → St → Prop) (f : A → M unit) l s :
  P [] s →
  (∀ l1 x l2 s, l = l1 ++ x :: l2 → P l1 s →
     ∃ s', f x s = (s', Ok tt) ∧ P (l1 ++ [x]) s') →
  ∃ s', forM l f s = (s', Ok tt) ∧ P l s'.
Proof.
  intros H0 Hstep.
  assert (Hgen : ∀ l2 l1 s, l = l1 ++ l2 → P l1 s →
            ∃ s', forM l2 f s = (s', Ok tt) ∧ P l s').
  { induction l2 as [|x l2 IH]; intros l1 s1 Hl HP.
    - exists s1. rewrite app_nil_r in Hl. by subst.
    - destruct (Hstep l1 x l2 s1 Hl HP) as (s2 & Hx & HP2).
      destruct (IH (l1 ++ [x]) s2) as (s' & Hrun & HP').
      { by rewrite <- app_assoc. }
      { done. }
      exists s'. split; [|done]. simpl. unfold bind. by rewrite Hx. }
  by apply (Hgen l [] s).
Qed.

Lemma observation_frame_refl s : observation_frame s s.
Proof. by repeat split. Qed.

Lemma observation_frame_instrumented s si a k v c sh :
  observation_frame s si → observation_frame s (instrumented a k v c sh si).
Proof. intros H. exact H. Qed.

Lemma observation_frame_dep s si :
  observation_frame s si → observation_frame s (set_dep_uid S si).
Proof. intros H. exact H. Qed.

(** ** Observation *)

Section Observation.

Context (serverRendering : bool).
Context (call : fn → value → list value → M value).

Local Abbreviation observe' := (observe serverRendering call).
Local Abbreviation defineReactive' := (defineReactive serverRendering call).

(** [observe] on an object that is not a VNode. *)
Lemma observe_object n a asRoot o s :
  heap s !! a = Some o → o_class o ≠ CVNode →
  observe' (S n) (VObj a) asRoot s =
    (ob ← match o_ob o with
          | Some r => mret (Some r)
          | None =>
            so ← gets shouldObserve;
            if (so : bool) && negb serverRendering
               && (is_array o || is_plain o) && o_extensible o
            then
              isv ← read_isVue call n (VObj a);
              if (isv : bool) then mret None
              else
                r ← new_Observer_with call (λ x, observe' n x false) n a;
                mret (Some r)
            else mret None
          end;
     match ob with
     | Some r => when asRoot (update_obj (ob_value r) (with_vmCount S))
     | None => mret tt
     end;;
     mret ob) s.
Proof.
  intros Ho Hcl. simpl. unfold mbind at 1, M_bind at 1, bind at 1, gets at 1.
  rewrite Ho. by rewrite bool_decide_eq_false_2.
Qed.

#[local] Arguments get_prop : simpl never.
#[local] Arguments observe : simpl never.

Lemma reactiveGetter_no_target m c C s :
  cells s !! c = Some C → c_getter C = None → Dep_target s = None →
  reactiveGetter call (S m) c s = (s, Ok (c_val C)).
Proof.
  intros HC Hg Ht. simpl. unfold mbind, M_bind, bind, the_cell.
  rewrite HC, Hg. simpl. unfold collect, mbind, M_bind, bind, gets.
  by rewrite Ht.
Qed.

Lemma alter_lookup_insert {A} (f : A → A) (m : gmap nat A) i x :
  m !! i = Some x → alter f i m = <[i := f x]> m.
Proof.
  intros Hx. rewrite <- (insert_id m i x Hx) at 1. by rewrite alter_insert_eq.
Qed.

Lemma observe_non_object n v b s :
  isObject v = false → observe' (S n) v b s = (s, Ok None).
Proof. by destruct v. Qed.

(** [defineReactive] on a data field, or on an absent field, when the value
    needs no nested observer. *)
Lemma defineReactive_primitive n a k val custom shallow o v s :
  heap s !! a = Some o →
  is_array o && isValidArrayIndex k = false →
  match lookup_prop o k with
  | Some p => p_configurable p = true
              ∧ ∃ v0, p_kind p = PData v0 ∧ v = default v0 val
  | None => o_extensible o = true ∧ v = default VUndefined val
  end →
  shallow = true ∨ isObject v = false →
  defineReactive' (S n) a k val custom shallow s
  = (instrumented a k v custom shallow s, Ok tt).
Proof.
  intros Ho Hidx Hp Hv.
  assert (Hget : ∀ s0, heap s0 !! a = Some o → val = None →
            get_prop call (S n) (VObj a) k s0 = (s0, Ok v)).
  { intros s0 Ho0 ->. unfold get_prop, mbind, M_bind, bind, gets.
    rewrite Ho0. destruct (lookup_prop o k) as [p|] eqn:Hl.
    - destruct Hp as (_ & v0 & Hk & ->). rewrite Hk. simpl.
      destruct k; [|done]. rewrite andb_true_r in Hidx. by rewrite Hidx.
    - destruct Hp as [_ ->]. simpl.
      destruct k; [|done]. rewrite andb_true_r in Hidx. by rewrite Hidx. }
  assert (Hobs : ∀ s0, (if shallow then mret None else observe' (S n) v false) s0
                       = (s0, Ok None)).
  { intros s0. destruct Hv as [->|Hv]; [done|].
    destruct shallow; [done|]. by apply observe_non_object. }
  unfold defineReactive, defineReactive_with, mbind, M_bind, bind, new_Dep, gets.
  simpl. rewrite Ho. unfold lookup_prop in *.
  destruct (assoc k (o_props o)) as [p|] eqn:Hl; simpl.
  - destruct Hp as (Hc & v0 & Hk & Hvv). rewrite Hc. simpl.
    unfold descriptor_get, descriptor_set. rewrite Hk. simpl.
    destruct val as [x|]; simpl.
    + simpl in Hvv. subst v. rewrite Hobs. simpl. rewrite Ho, Hl, Hc. done.
    + rewrite Hget by done. rewrite Hobs. simpl. rewrite Ho, Hl, Hc. done.
  - destruct Hp as (He & Hvv).
    destruct val as [x|]; simpl.
    + simpl in Hvv. subst v. rewrite Hobs. simpl. rewrite Ho, Hl, He. done.
    + rewrite Hget by done. rewrite Hobs. simpl. rewrite Ho, Hl, He. done.
Qed.

(** The loop of [walk] over a flat object: after the keys [D], the [j]-th of
    them that is configurable is reactive, holds its value in a cell with
    the Dep [d + 1 + j], and the other fields are as they were. *)
Lemma walk_flat n a o o1 d s s1 :
  flat_object o → o_class o = CPlain →
  o_props o1 = o_props o → o_class o1 = o_class o →
  heap s1 = <[a := o1]> (heap s) → dep_uid s1 = d + 1 →
  observation_frame s s1 →
  ∃ s' (ps : list (key * prop)),
    forM (object_keys o1)
      (λ k, defineReactive' (S n) a k None None false) s1 = (s', Ok tt)
    ∧ observation_frame s s'
    ∧ heap s' = <[a := with_props (λ _, ps) o1]> (heap s)
    ∧ dep_uid s' = d + 1 + length (object_keys o)
    ∧ ps.*1 = (o_props o).*1
    ∧ (∀ k p, (k, p) ∈ o_props o →
         p_enumerable p && p_configurable p = false → assoc k ps = Some p)
    ∧ (∀ j k p v, object_keys o !! j = Some k → (k, p) ∈ o_props o →
         p_configurable p = true → p_kind p = PData v →
         ∃ c, assoc k ps = Some (Prop_ (PReactive c) true true)
              ∧ cells s' !! c = Some (Cell a v None (d + 1 + j) None None false None)).
Proof.
  intros [Hnd Hflat] Hcl Hps1 Hcl1 Hh1 Hd1 Hfr1.
  assert (Hkeys : object_keys o1 = object_keys o).
  { unfold object_keys. by rewrite Hps1. }
  rewrite Hkeys.
  set (Inv := λ (D : list key) (si : St), ∃ ps : list (key * prop),
    observation_frame s si
    ∧ heap si = <[a := with_props (λ _, ps) o1]> (heap s)
    ∧ dep_uid si = d + 1 + length D
    ∧ ps.*1 = (o_props o).*1
    ∧ (∀ k p, (k, p) ∈ o_props o →
         k ∉ D ∨ p_configurable p = false → assoc k ps = Some p)
    ∧ (∀ j k p v, D !! j = Some k → (k, p) ∈ o_props o →
         p_configurable p = true → p_kind p = PData v →
         ∃ c, assoc k ps = Some (Prop_ (PReactive c) true true)
              ∧ cells si !! c = Some (Cell a v None (d + 1 + j) None None false None)
              ∧ c < next_cell si)).
  destruct (forM_visited Inv (λ k, defineReactive' (S n) a k None None false)
              (object_keys o) s1) as (s' & Hrun & ps & Hfr & Hh & Hd & Hks & Hold & Hnew).
  - exists (o_props o). split; [done|]. split_and!; try done.
    + rewrite Hh1. f_equal. destruct o1; simpl in *; by subst.
    + simpl. lia.
    + intros k p Hin _. by apply elem_of_assoc.
  - intros l1 k l2 si Hl (ps & Hfr & Hh & Hd & Hks & Hold & Hnew).
    assert (Hk : k ∈ object_keys o).
    { rewrite Hl. apply elem_of_app. right. by left. }
    apply elem_of_object_keys in Hk as (p & Hin & Hen).
    assert (Hk1 : k ∉ l1).
    { pose proof (NoDup_object_keys o Hnd) as Hndk. rewrite Hl in Hndk.
      apply NoDup_app in Hndk as (_ & Hndk & _). intros Hk1.
      apply (Hndk k Hk1). by left. }
    assert (Hlk : assoc k ps = Some p) by (apply Hold; auto).
    destruct (Hflat k p Hin) as (v & Hkind & Hv).
    set (oi := with_props (λ _, ps) o1).
    assert (Hoi : heap si !! a = Some oi) by (by rewrite Hh, lookup_insert_eq).
    destruct (p_configurable p) eqn:Hconf.
    + exists (instrumented a k v None false si). split.
      { apply (defineReactive_primitive n a k None None false oi v si Hoi).
        - unfold is_array. simpl. rewrite Hcl1, Hcl. done.
        - unfold lookup_prop. simpl. rewrite Hlk. eauto.
        - by right. }
      exists (put_assoc k (Prop_ (PReactive (next_cell si)) true true) ps).
      split; [by apply observation_frame_instrumented|]. split_and!.
      * simpl. rewrite Hh, alter_insert_eq. done.
      * simpl. rewrite Hd, length_app. simpl. lia.
      * rewrite fst_put_assoc by (by rewrite Hlk). done.
      * intros k' p' Hin' Hc. rewrite assoc_put_assoc_ne.
        { apply Hold; [done|]. destruct Hc as [Hc|Hc]; [|by right].
          left. intros Hk'. apply Hc, elem_of_app. by left. }
        intros ->. destruct Hc as [Hc|Hc].
        { exfalso. apply Hc, elem_of_app. right. by apply list_elem_of_singleton. }
        assert (p' = p) as ->; [|congruence].
        apply (elem_of_assoc _ _ _ Hnd) in Hin, Hin'. congruence.
      * intros j k' p' v' Hj Hin' Hc' Hk'.
        apply lookup_app_Some in Hj as [Hj|[Hlen Hj]].
        { destruct (Hnew j k' p' v' Hj Hin' Hc' Hk') as (c & Hc1 & Hc2 & Hc3).
          exists c. split_and!.
          - rewrite assoc_put_assoc_ne; [done|].
            intros ->. apply Hk1. by eapply list_elem_of_lookup_2.
          - simpl. rewrite lookup_insert_ne by lia. done.
          - simpl. lia. }
        apply list_lookup_singleton_Some in Hj as [Hj ->].
        assert (p' = p) as ->.
        { apply (elem_of_assoc _ _ _ Hnd) in Hin, Hin'. congruence. }
        assert (v' = v) as -> by congruence.
        exists (next_cell si). split_and!.
        { apply assoc_put_assoc. }
        { simpl. rewrite lookup_insert_eq, Hd. do 3 f_equal. lia. }
        { simpl. lia. }
    + exists (set_dep_uid S si). split.
      { unfold defineReactive, defineReactive_with, mbind, M_bind, bind,
          new_Dep, gets. simpl. rewrite Hoi. unfold lookup_prop. simpl.
        rewrite Hlk. simpl. by rewrite Hconf. }
      exists ps. split; [by apply observation_frame_dep|].
      split_and!; try done.
      * simpl. rewrite Hd, length_app. simpl. lia.
      * intros k' p' Hin' Hc. apply Hold; [done|].
        destruct Hc as [Hc|Hc]; [|by right].
        left. intros Hk'. apply Hc, elem_of_app. by left.
      * intros j k' p' v' Hj Hin' Hc' Hk'.
        apply lookup_app_Some in Hj as [Hj|[Hlen Hj]]; [by eapply Hnew|].
        apply list_lookup_singleton_Some in Hj as [Hj ->].
        assert (p' = p) as ->; [|congruence].
        apply (elem_of_assoc _ _ _ Hnd) in Hin, Hin'. congruence.
  - exists s', ps. split; [done|]. split; [done|]. split_and!; try done.
    + intros k p Hin Hc. apply Hold; [done|].
      apply andb_false_iff in Hc as [Hc|Hc]; [left|by right].
      intros (p' & Hin' & Hen)%elem_of_object_keys.
      assert (p' = p) as ->; [|congruence].
      apply (elem_of_assoc _ _ _ Hnd) in Hin, Hin'. congruence.
    + intros j k p v Hj Hin Hc Hk.
      destruct (Hnew j k p v Hj Hin Hc Hk) as (c & ? & ? & _). eauto.
Qed.

(** X6.  [observe] on an unobserved, extensible plain object
    whose properties are data properties holding primitive values, when
    observation is switched on: the object gets a new Observer whose Dep
    has the next id, [vmCount] counts the root-data use, and [walk] turns
    every enumerable, configurable property into a reactive one, the [j]-th
    enumerable key getting the Dep [d + 1 + j] and a cell that holds the
    value the property held; the other properties, the keys and their order
    are untouched.  Outside an evaluation a read of a converted property
    returns the value it held before, without any effect.  Nothing but the
    heap, the cells and the two counters changes, and observing the object
    again returns the same Observer and changes nothing. *)
Theorem observe_flat_object n a o s asRoot :
  serverRendering = false → shouldObserve s = true →
  heap s !! a = Some o → o_class o = CPlain → o_ob o = None →
  o_extensible o = true → flat_object o →
  (∀ p v, lookup_prop o (KStr "_isVue") = Some p → p_kind p = PData v →
          truthy v = false) →
  let d := dep_uid s in
  ∃ s' o',
    observe' (S (S n)) (VObj a) asRoot s = (s', Ok (Some (ObRef a d)))
    ∧ observation_frame s s'
    ∧ heap s' = <[a := o']> (heap s)
    ∧ dep_uid s' = d + 1 + length (object_keys o)
    ∧ o_ob o' = Some (ObRef a d)
    ∧ o_vmCount o' = (if asRoot then 1 else 0)
    ∧ (o_props o').*1 = (o_props o).*1
    ∧ o' = Obj (o_class o) (o_props o') (o_elems o) (o_extensible o)
               (o_frozen o) (o_ob o') (o_vmCount o') (o_augmented o)
    ∧ (∀ k p, (k, p) ∈ o_props o →
         p_enumerable p && p_configurable p = false →
         lookup_prop o' k = Some p)
    ∧ (∀ j k p v, object_keys o !! j = Some k → (k, p) ∈ o_props o →
         p_configurable p = true → p_kind p = PData v →
         ∃ c, lookup_prop o' k = Some (Prop_ (PReactive c) true true)
              ∧ cells s' !! c
                = Some (Cell a v None (d + 1 + j) None None false None)
              ∧ (Dep_target s' = None →
                 ∀ m, get_prop call (S m) (VObj a) k s' = (s', Ok v)))
    ∧ (∀ m, observe' (S m) (VObj a) false s'
            = (s', Ok (Some (ObRef a d)))).
Proof.
  intros Hsr Hso Ho Hcl Hob Hext Hflat Hvue d.
  set (r := ObRef a d).
  set (o1 := with_vmCount (λ _, 0) (with_ob (Some r) o)).
  set (s1 := set_heap (alter (λ o, with_vmCount (λ _, 0) (with_ob (Some r) o)) a)
               (set_dep_uid S s)).
  assert (Hh1 : heap s1 = <[a := o1]> (heap s)).
  { simpl.
    by apply (alter_lookup_insert
                (λ o, with_vmCount (λ _, 0) (with_ob (Some r) o))). }
  destruct (walk_flat n a o o1 d s s1) as
    (s2 & ps & Hwalk & Hfr & Hh2 & Hd2 & Hks & Hold & Hnew);
    [done|done|done|done|done|simpl; lia|by repeat split|].
  set (o2 := with_props (λ _, ps) o1).
  set (o' := if asRoot then with_vmCount S o2 else o2).
  set (s' := if asRoot then set_heap (alter (with_vmCount S) a) s2 else s2).
  assert (Hh' : heap s' = <[a := o']> (heap s)).
  { unfold s', o'. destruct asRoot; [|done]. simpl.
    by rewrite Hh2, alter_insert_eq. }
  assert (Hcells : cells s' = cells s2) by (unfold s'; by destruct asRoot).
  assert (Hprops : o_props o' = ps) by (unfold o'; by destruct asRoot).
  assert (Hnv : o_class o ≠ CVNode) by (by rewrite Hcl).
  exists s', o'. split_and!.
  - rewrite (observe_object _ _ _ o) by done.
    rewrite Hob. unfold mbind at 1 2 3, M_bind, bind at 1 2 3, gets.
    rewrite Hso, Hsr. unfold is_plain. rewrite Hcl, Hext.
    rewrite bool_decide_eq_true_2 by done. rewrite orb_true_r. simpl.
    assert (Hisv : read_isVue call (S n) (VObj a) s = (s, Ok false)).
    { unfold read_isVue, get_prop, mbind, M_bind, bind, gets. rewrite Ho.
      destruct (lookup_prop o (KStr "_isVue")) as [p|] eqn:Hp; [|done].
      destruct Hflat as [Hnd Hfl].
      destruct (Hfl _ p (assoc_elem_of _ _ _ Hp)) as (v & Hk & _).
      rewrite Hk. simpl. by rewrite (Hvue p v). }
    unfold mbind, M_bind, bind. rewrite Hisv.
    unfold new_Observer_with at 1, mbind, M_bind, bind, new_Dep, update_obj,
      modify, gets.
    change (ObRef a (dep_uid s)) with r. fold s1.
    rewrite Hh1, lookup_insert_eq.
    assert (HA : is_array o1 = false).
    { unfold is_array. simpl. by rewrite Hcl. }
    rewrite HA.
    unfold defineReactive in Hwalk. rewrite Hsr in Hwalk.
    rewrite Hwalk. simpl. unfold s'. by destruct asRoot.
  - unfold s'. by destruct asRoot.
  - done.
  - unfold s'. by destruct asRoot.
  - unfold o'. by destruct asRoot.
  - unfold o'. by destruct asRoot.
  - by rewrite Hprops.
  - unfold o', o2, o1. destruct o, asRoot; simpl in *; by subst.
  - intros k p Hin Hc. unfold lookup_prop. rewrite Hprops. by apply Hold.
  - intros j k p v Hj Hin Hc Hk.
    destruct (Hnew j k p v Hj Hin Hc Hk) as (c & Hl & HC).
    exists c. unfold lookup_prop. rewrite Hprops, Hcells.
    split_and!; [done..|].
    intros Ht m. unfold get_prop, mbind, M_bind, bind, gets.
    rewrite Hh', lookup_insert_eq.
    assert (HA : is_array o' = false).
    { unfold is_array, o'. destruct asRoot; simpl; by rewrite Hcl. }
    rewrite HA. unfold lookup_prop. rewrite Hprops, Hl. simpl.
    assert (Hif : (if k is KIdx _ then reactiveGetter call (S m) c
                   else reactiveGetter call (S m) c) s' = (s', Ok v)).
    { rewrite <- Hcells in HC.
      destruct k; by rewrite (reactiveGetter_no_target m c _ s' HC). }
    by destruct k.
  - intros m. rewrite (observe_object _ _ _ o').
    + assert (Hob' : o_ob o' = Some r) by (unfold o'; by destruct asRoot).
      by rewrite Hob'.
    + by rewrite Hh', lookup_insert_eq.
    + unfold o'. destruct asRoot; simpl; by rewrite Hcl.
Qed.

End Observation.
Section Fields.

Context (serverRendering : bool).
Context (call : fn → value → list value → M value).

Local Abbreviation observe' := (observe serverRendering call).
Local Abbreviation defineReactive' := (defineReactive serverRendering call).

#[local] Arguments get_prop : simpl never.
#[local] Arguments observe : simpl never.
#[local] Arguments reactiveGetter : simpl never.

(** X7.  [defineReactive] on a field that is absent or a
    data property (on an array, under a key that is not an index).  A
    property that is not configurable is left as it is: only a Dep id is
    consumed.  Otherwise, when the call returns, the field is an
    enumerable, configurable accessor property whose cell holds the value
    given, or the value the property held when none is given, under a new
    Dep, with no nested observer when the field is shallow; outside an
    evaluation, the installed getter then returns that value and changes
    nothing.  When the value is primitive or the field is shallow, the call
    returns, and the store it leaves is known in full. *)
Theorem defineReactive_data_field n a k val custom shallow o v0 s :
  heap s !! a = Some o →
  is_array o && isValidArrayIndex k = false →
  field_value o k = Some v0 →
  let v := default v0 val in
  (from_option p_configurable true (lookup_prop o k) = false →
   defineReactive' n a k val custom shallow s = (set_dep_uid S s, Ok tt))
  ∧ (∀ s', from_option p_configurable true (lookup_prop o k) = true →
       defineReactive' n a k val custom shallow s = (s', Ok tt) →
       ∃ c o' childOb,
         heap s' !! a = Some o'
         ∧ lookup_prop o' k = Some (Prop_ (PReactive c) true true)
         ∧ cells s' !! c
           = Some (Cell a v childOb (dep_uid s) None None shallow custom)
         ∧ (shallow = true → childOb = None)
         ∧ (Dep_target s' = None →
            ∀ m, reactiveGetter call (S m) c s' = (s', Ok v)))
  ∧ (from_option p_configurable (o_extensible o) (lookup_prop o k) = true →
     shallow = true ∨ isObject v = false →
     ∀ m, defineReactive' (S m) a k val custom shallow s
          = (instrumented a k v custom shallow s, Ok tt)).
Proof.
  intros Ho Hidx Hfv v.
  assert (Hkind : ∀ p, lookup_prop o k = Some p → p_kind p = PData v0).
  { intros p Hp. unfold field_value in Hfv. rewrite Hp in Hfv.
    destruct (p_kind p); by simplify_eq. }
  assert (Hnone : lookup_prop o k = None → v0 = VUndefined).
  { intros Hp. unfold field_value in Hfv. rewrite Hp in Hfv. by simplify_eq. }
  split_and!.
  - intros Hc.
    unfold defineReactive, defineReactive_with, mbind, M_bind, bind, new_Dep,
      gets. simpl. rewrite Ho.
    destruct (lookup_prop o k) as [p|]; [|done]. simpl in *. by rewrite Hc.
  - intros s' Hc.
    assert (Hget : ∀ s0, heap s0 !! a = Some o →
              get_prop call n (VObj a) k s0 = (s0, Ok v0)).
    { intros s0 Ho0. unfold get_prop, mbind, M_bind, bind, gets.
      rewrite Ho0. destruct (lookup_prop o k) as [p|] eqn:Hl.
      - rewrite (Hkind p) by done. simpl.
        destruct k; [|done]. rewrite andb_true_r in Hidx. by rewrite Hidx.
      - rewrite Hnone by done.
        destruct k; [|done]. rewrite andb_true_r in Hidx. by rewrite Hidx. }
    assert (Hdesc : (lookup_prop o k ≫= descriptor_get) = None
                    ∧ (lookup_prop o k ≫= descriptor_set) = None).
    { destruct (lookup_prop o k) as [p|] eqn:Hl; [|done]. simpl.
      unfold descriptor_get, descriptor_set. by rewrite (Hkind p). }
    destruct Hdesc as [Hdg Hds].
    assert (Hskip : from_option (λ p, negb (p_configurable p)) false
                      (lookup_prop o k) = false).
    { destruct (lookup_prop o k); [|done]. simpl in *. by rewrite Hc. }
    unfold defineReactive, defineReactive_with.
    unfold mbind at 1, M_bind at 1, bind at 1, new_Dep.
    unfold mbind at 1, M_bind at 1, bind at 1, gets at 1.
    cbn [heap set_dep_uid]. rewrite Ho, Hskip, Hdg, Hds.
    unfold mbind, M_bind, bind, gets. cbn [isSome negb orb andb].
    assert (Hval : (if negb (isSome val) then get_prop call n (VObj a) k
                    else mret (default VUndefined val)) (set_dep_uid S s)
                   = (set_dep_uid S s, Ok v)).
    { destruct val as [x|]; [done|]. simpl. by apply Hget. }
    rewrite Hval.
    match goal with
    | |- (let (_, _) := ?m ?s0 in _) = _ → _ =>
        destruct (m s0) as [s2 [childOb| |]] eqn:Hobs; [|done..]
    end.
    destruct (heap s2 !! a) as [o2|] eqn:Ho2; [|done].
    destruct (match lookup_prop o2 k with
              | Some p0 => p_configurable p0
              | None => o_extensible o2
              end); [|done].
    unfold new_cell, update_obj, modify. simpl. intros [= <-].
    eexists (next_cell s2), _, childOb. simpl.
    rewrite lookup_alter_eq, Ho2, lookup_insert_eq. simpl.
    split_and!; try done.
    + apply assoc_put_assoc.
    + intros ->. unfold mret, M_ret, ret in Hobs. by simplify_eq.
    + intros Ht m.
      apply (reactiveGetter_no_target call m _
               (Cell a v childOb (dep_uid s) None None shallow custom));
        [|done..].
      simpl. by rewrite lookup_insert_eq.
  - intros Hc Hv m.
    apply (defineReactive_primitive serverRendering call m a k val custom
             shallow o v s Ho Hidx); [|done].
    destruct (lookup_prop o k) as [p|] eqn:Hl.
    + split; [done|]. exists v0. split; [by apply Hkind|done].
    + split; [done|]. unfold v. by rewrite Hnone.
Qed.

End Fields.
(** ** Reads inside an evaluation *)

Lemma Dep_depend_run d t T s :
  Dep_target s = Some t → watchers s !! t = Some T →
  ∃ s', Dep_depend d s = (s', Ok tt)
    ∧ s' = set_watchers (λ _, watchers s') (set_subs (λ _, subs s') s)
    ∧ watchers s' = <[t := recorded d T]> (watchers s).
Proof.
  intros Ht HT. unfold Dep_depend, mbind, M_bind, bind, gets. rewrite Ht.
  destruct (addDep_run s t T d HT) as (s' & Hrun & Hfr & HW & _). eauto.
Qed.

Section Reads.

Context (call : fn → value → list value → M value).

#[local] Arguments reactiveGetter : simpl never.

Lemma reactiveGetter_unfold n c s :
  reactiveGetter call (S n) c s =
    (C ← the_cell c;
     value ← current_value call n C;
     collect n c C value;;
     mret value) s.
Proof. done. Qed.

(** The Deps a read of a field registers: the field's own, and the Dep of
    the nested observer when there is one. *)
Lemma collect_as_loop n c C value t T s :
  Dep_target s = Some t → watchers s !! t = Some T →
  cells s !! c = Some C →
  c_childOb C = None ∨ isArray s value = false →
  collect n c C value s
  = forM (c_dep C :: option_list (ob_dep <$> c_childOb C)) Dep_depend s.
Proof.
  intros Ht HT HC Hnarr. unfold collect, mbind, M_bind, bind, gets.
  rewrite Ht. simpl. unfold bind.
  destruct (Dep_depend_run (c_dep C) t T s Ht HT) as (s2 & -> & Hfr2 & HW2).
  assert (HC2 : cells s2 !! c = Some C) by (by rewrite Hfr2).
  unfold the_cell. rewrite HC2.
  destruct (c_childOb C) as [r|]; [|done]. simpl. unfold bind.
  assert (Ht2 : Dep_target s2 = Some t) by (by rewrite Hfr2).
  assert (HT2 : watchers s2 !! t = Some (recorded (c_dep C) T)).
  { by rewrite HW2, lookup_insert_eq. }
  destruct (Dep_depend_run (ob_dep r) t _ s2 Ht2 HT2) as (s3 & -> & Hfr3 & _).
  destruct Hnarr as [|Hnarr]; [done|].
  assert (isArray s3 value = false) as ->.
  { rewrite <- Hnarr. unfold isArray. destruct value; try done.
    rewrite Hfr3, Hfr2. done. }
  by destruct value.
Qed.

(** X8.  A read through the accessor [defineReactive] installs.
    It returns the current value of the field (the stored one, or what the
    pre-existing getter returns).  Outside an evaluation that is all.
    Inside the evaluation of the watcher [t], when the value is not an array
    with a nested observer, the read records the field's Dep and the Dep of
    the nested observer with [t]: their ids are added to [newDepIds], and [t]
    is appended to the subscriber list of those it had recorded in neither
    cycle; nothing else changes. *)
Theorem reactiveGetter_subscribes n c C s s1 value :
  cells s !! c = Some C →
  current_value call n C s = (s1, Ok value) →
  (Dep_target s1 = None → reactiveGetter call (S n) c s = (s1, Ok value))
  ∧ ∀ t T,
      Dep_target s1 = Some t → watchers s1 !! t = Some T →
      cells s1 !! c = Some C →
      c_childOb C = None ∨ isArray s1 value = false →
      let L := c_dep C :: option_list (ob_dep <$> c_childOb C) in
      ∃ s' nd ni,
        reactiveGetter call (S n) c s = (s', Ok value)
        ∧ s' = set_watchers (λ _, watchers s') (set_subs (λ _, subs s') s1)
        ∧ watchers s' =
            <[t := set_tracking (w_deps T) nd (w_depIds T) ni T]> (watchers s1)
        ∧ (∀ d, d ∈ ni ↔ d ∈ w_newDepIds T ∨ d ∈ L)
        ∧ (∀ d, dep_subs s' d =
                if decide (d ∈ L ∧ (d ∉ w_newDepIds T) ∧ (d ∉ w_depIds T))
                then dep_subs s1 d ++ [t] else dep_subs s1 d).
Proof.
  intros HC Hcur. split.
  - intros Ht. rewrite reactiveGetter_unfold.
    unfold mbind, M_bind, bind, the_cell. rewrite HC, Hcur.
    unfold collect, mbind, M_bind, bind, gets. by rewrite Ht.
  - intros t T Ht HT HC1 Hnarr L.
    destruct (depend_loop t L s1 T Ht HT)
      as (s' & nd & ni & Hrun & Hfr & HW & Hni & Hsubs).
    exists s', nd, ni. split_and!; try done.
    rewrite reactiveGetter_unfold.
    unfold mbind, M_bind, bind, the_cell. rewrite HC, Hcur.
    rewrite (collect_as_loop n c C value t T s1) by done.
    fold L. by rewrite Hrun.
Qed.

End Reads.
(** ** What a deep traversal subscribes to *)

(** A loop that acts as a sequence of [depend ()] calls. *)
Lemma forM_as_depends {A} (R : A → dep_id → Prop) (P : St → Prop)
    (f : A → M unit) l deps s :
  Forall2 R l deps → P s →
  (∀ x d s0, R x d → P s0 →
     f x s0 = Dep_depend d s0 ∧ (Dep_depend d s0).2 = Ok tt
     ∧ P (Dep_depend d s0).1) →
  forM l f s = forM deps Dep_depend s.
Proof.
  intros HF. revert s. induction HF as [|x d l deps HR HF IH]; intros s HP Hf.
  - done.
  - simpl. unfold bind. destruct (Hf x d s HR HP) as (-> & Hok & HP').
    destruct (Dep_depend d s) as [s1 r]. simpl in *. subst r.
    by apply IH.
Qed.

Section DeepSubscription.

Context (call : fn → value → list value → M value).

#[local] Arguments reactiveGetter : simpl never.
#[local] Arguments get_prop : simpl never.

(** X9.  The purpose of the deep traversal.  On an object
    that is neither frozen nor a VNode and has not been seen, whose
    enumerable properties are reactive fields holding primitive values,
    [traverse] inside the evaluation of the watcher [t] terminates and
    records the Dep of every field with [t], from the last key to the first:
    their ids are added to [newDepIds], and [t] is appended to the
    subscriber list of each one it had recorded in neither cycle.  The heap
    and the cells are unchanged and the seen-set is left empty. *)
Theorem traverse_subscribes_to_fields n a o deps t T s :
  heap s !! a = Some o → is_array o = false → o_frozen o = false →
  o_class o ≠ CVNode → reactive_fields s o deps →
  (∀ r, o_ob o = Some r → ob_dep r ∉ seenObjects s) →
  Dep_target s = Some t → watchers s !! t = Some T →
  ∃ s' nd ni,
    traverse call (S (S n)) (VObj a) s = (s', Ok tt)
    ∧ seenObjects s' = ∅ ∧ heap s' = heap s ∧ cells s' = cells s
    ∧ watchers s' =
        <[t := set_tracking (w_deps T) nd (w_depIds T) ni T]> (watchers s)
    ∧ (∀ d, d ∈ ni ↔ d ∈ w_newDepIds T ∨ d ∈ deps)
    ∧ (∀ d, dep_subs s' d =
            if decide (d ∈ deps ∧ (d ∉ w_newDepIds T) ∧ (d ∉ w_depIds T))
            then dep_subs s d ++ [t] else dep_subs s d).
Proof.
  intros Ho HA Hfz Hcl Hfields Hseen Ht HT.
  remember (S n) as n1 eqn:Hn1.
  set (sm := match o_ob o with
             | Some r => set_seenObjects (λ seen, {[ob_dep r]} ∪ seen) s
             | None => s
             end).
  assert (Hmark : mark_seen o s = (sm, Ok true)).
  { unfold mark_seen, sm, mbind, M_bind, bind, gets.
    destruct (o_ob o) as [r|]; [|done].
    by rewrite decide_False by (by apply Hseen). }
  assert (Hsm : heap sm = heap s ∧ cells sm = cells s
                ∧ Dep_target sm = Some t ∧ watchers sm = watchers s
                ∧ subs sm = subs s).
  { unfold sm. by destruct (o_ob o). }
  destruct Hsm as (Hhm & Hcm & Htm & Hwm & Hsubm).
  set (P := λ s0 : St, heap s0 = heap s ∧ cells s0 = cells s
                       ∧ Dep_target s0 = Some t ∧ is_Some (watchers s0 !! t)).
  assert (Hloop :
    forM (reverse (object_keys o))
      (λ k, x ← get_prop call n1 (VObj a) k; _traverse call n1 x) sm
    = forM (reverse deps) Dep_depend sm).
  { rewrite Hn1.
    apply (forM_as_depends
             (λ k d, ∃ p c C,
                lookup_prop o k = Some p ∧ p_kind p = PReactive c
                ∧ cells s !! c = Some C ∧ c_dep C = d ∧ c_getter C = None
                ∧ c_childOb C = None ∧ isObject (c_val C) = false) P).
    - by apply Forall2_reverse.
    - unfold P. rewrite Hwm, HT. eauto.
    - intros k d s0 (p & c & C & Hl & Hk & HC & Hd & Hg & Hch & Hv)
        (Hh0 & Hc0 & Ht0 & [T0 HT0]).
      destruct (Dep_depend_run d t T0 s0 Ht0 HT0) as (s1 & Hrun & Hfr & HW1).
      rewrite Hrun. simpl. split_and!; [|done|].
      + unfold mbind, M_bind, bind.
        assert (get_prop call (S n) (VObj a) k s0 = (s1, Ok (c_val C))) as ->.
        { unfold get_prop, mbind, M_bind, bind, gets.
          rewrite Hh0, Ho, HA, Hl, Hk.
          assert (Hrg : reactiveGetter call (S n) c s0 = (s1, Ok (c_val C))).
          { rewrite reactiveGetter_unfold.
            unfold mbind, M_bind, bind, the_cell. rewrite Hc0, HC.
            unfold current_value. rewrite Hg. simpl.
            rewrite (collect_as_loop n c C (c_val C) t T0 s0);
              [|done|done|by rewrite Hc0|by left].
            rewrite Hch, Hd. simpl. unfold bind. by rewrite Hrun. }
          by destruct k; rewrite Hrg. }
        by destruct (c_val C).
      + unfold P. rewrite Hfr. simpl. rewrite HW1, lookup_insert_eq.
        split_and!; eauto. }
  assert (HTm : watchers sm !! t = Some T) by (by rewrite Hwm).
  destruct (depend_loop t (reverse deps) sm T Htm HTm)
    as (s2 & nd & ni & Hrun & Hfr & HW & Hni & Hsubs).
  exists (set_seenObjects (λ _, ∅) s2), nd, ni. split_and!.
  - unfold traverse, mbind, M_bind, bind. simpl.
    unfold mbind, M_bind, bind, gets. rewrite Ho, Hfz.
    rewrite bool_decide_eq_false_2 by done. simpl.
    rewrite Hmark. unfold traverse_children. rewrite HA.
    rewrite Hloop, Hrun. done.
  - done.
  - simpl. rewrite Hfr. done.
  - simpl. rewrite Hfr. done.
  - simpl. by rewrite HW, Hwm.
  - intros d. by rewrite Hni, elem_of_reverse.
  - intros d. change (dep_subs (set_seenObjects _ s2) d) with (dep_subs s2 d).
    rewrite Hsubs.
    assert (Hds : dep_subs sm d = dep_subs s d).
    { unfold dep_subs. by rewrite Hsubm. }
    rewrite Hds.
    repeat destruct (decide (_ ∧ _)) as [?|?];
      try done; exfalso; rewrite ?elem_of_reverse in *; tauto.
Qed.

End DeepSubscription.
(** ** Structural mutation of objects *)

Lemma assoc_del_assoc k l : assoc k (del_assoc k l) = None.
Proof.
  unfold del_assoc. induction l as [|[k0 p0] l IH]; [done|].
  destruct (decide (k0 = k)) as [->|Hne].
  - by rewrite filter_cons_False by (simpl; tauto).
  - rewrite filter_cons_True by done. simpl. by rewrite decide_False.
Qed.

Lemma assoc_del_assoc_ne k k' l :
  k ≠ k' → assoc k (del_assoc k' l) = assoc k l.
Proof.
  intros Hne. unfold del_assoc. induction l as [|[k0 p0] l IH]; [done|].
  destruct (decide (k0 = k')) as [->|Hne'].
  - rewrite filter_cons_False by (simpl; tauto). simpl.
    by rewrite decide_False.
  - rewrite filter_cons_True by done. simpl. by rewrite IH.
Qed.

Lemma del_assoc_put_assoc k p l :
  assoc k l = None → del_assoc k (put_assoc k p l) = l.
Proof.
  unfold del_assoc. induction l as [|[k0 p0] l IH]; simpl.
  - intros _. by rewrite filter_cons_False, filter_nil by (simpl; tauto).
  - destruct (decide (k0 = k)) as [->|Hne]; [done|]. intros Hl.
    rewrite filter_cons_True by done. by rewrite IH.
Qed.

Section SetDel.

Context (production serverRendering : bool).
Context (call : fn → value → list value → M value).
Context (queueWatcher : wid → M unit).
Context (nativeSort : list value → list value → M (list value)).
Context (inherited : oclass → key → bool).
Context (inObjectPrototype : key → bool).
Context (toInteger : value → Z).

Local Abbreviation set' :=
  (set production serverRendering call queueWatcher nativeSort inherited
     inObjectPrototype toInteger).
Local Abbreviation del' :=
  (del production serverRendering call queueWatcher nativeSort toInteger).
Local Abbreviation assign_prop' :=
  (assign_prop production serverRendering call queueWatcher).
Local Abbreviation defineReactive' := (defineReactive serverRendering call).
Local Abbreviation Dep_notify' := (Dep_notify call queueWatcher).

#[local] Arguments get_prop : simpl never.
#[local] Arguments observe : simpl never.
#[local] Arguments reactiveGetter : simpl never.
#[local] Arguments reactiveSetter : simpl never.
#[local] Arguments defineReactive : simpl never.
#[local] Arguments Dep_notify : simpl never.
#[local] Arguments assign_prop : simpl never.

(** The object is neither a Vue instance nor counted as root data. *)
Lemma is_root_false n a o s :
  heap s !! a = Some o →
  read_isVue call n (VObj a) s = (s, Ok false) →
  (∀ r, o_ob o = Some r →
        from_option o_vmCount 0 (heap s !! ob_value r) = 0) →
  is_root call n (VObj a) (o_ob o) s = (s, Ok false).
Proof.
  intros Ho Hvue Hcount. unfold is_root, mbind, M_bind, bind. rewrite Hvue.
  destruct (o_ob o) as [r|]; [|done]. unfold gets.
  by rewrite (Hcount r).
Qed.

(** X10.  [set] on an object (on an array: under a key that is not an
    index) that is neither a Vue instance nor root data.  A key that the
    object has, or inherits from elsewhere than [Object.prototype], is
    assigned, and so is any key of an object that is not observed: no Dep is
    created and nobody is notified, and a key the object did not have
    becomes a plain data property.  A new key on an observed object is
    defined with [defineReactive] on the Observer's object and then
    [notify] of the Observer's Dep is called; for a primitive value the new
    field holds the value in a fresh cell when [notify] runs.  In all three
    cases [set] returns the value. *)
Theorem set_adds_property n a o k v s :
  heap s !! a = Some o →
  is_array o && isValidArrayIndex k = false →
  let known := (has_own o k || inherited (o_class o) k)
               && negb (inObjectPrototype k) in
  (known = true →
   set' n (VObj a) k v s = (assign_prop' n (VObj a) k v;; mret v) s)
  ∧ (read_isVue call n (VObj a) s = (s, Ok false) →
     (∀ r, o_ob o = Some r →
           from_option o_vmCount 0 (heap s !! ob_value r) = 0) →
     known = false →
     (o_ob o = None →
      set' n (VObj a) k v s = (assign_prop' n (VObj a) k v;; mret v) s
      ∧ (lookup_prop o k = None → is_array o = false →
         o_extensible o = true →
         set' n (VObj a) k v s
         = (set_heap (alter (with_props (put_assoc k (Prop_ (PData v) true true)))
                        a) s, Ok v)))
     ∧ (∀ r, o_ob o = Some r →
          set' n (VObj a) k v s
          = (defineReactive' n (ob_value r) k (Some v) None false;;
             Dep_notify' n (ob_dep r);;
             mret v) s
          ∧ (∀ m, n = S m → ob_value r = a → lookup_prop o k = None →
               o_extensible o = true → isObject v = false →
               set' n (VObj a) k v s
               = (Dep_notify' n (ob_dep r);; mret v)
                   (instrumented a k v None false s)))).
Proof.
  intros Ho Hidx known.
  assert (Hset : set' n (VObj a) k v s
                 = set_on_object production serverRendering call queueWatcher
                     inherited inObjectPrototype n (VObj a) k v s).
  { unfold set. unfold mbind at 1, M_bind at 1, bind at 1.
    simpl. rewrite andb_false_r. simpl.
    unfold mbind at 1, M_bind at 1, bind at 1, gets. rewrite Ho. simpl.
    destruct k as [i|str]; [|done].
    rewrite andb_true_r in Hidx. by rewrite Hidx. }
  assert (Hin : key_in inherited (VObj a) k s
                = (s, Ok (has_own o k || inherited (o_class o) k))).
  { unfold key_in, mbind, M_bind, bind, gets. by rewrite Ho. }
  split.
  - intros Hk. rewrite Hset. unfold set_on_object.
    unfold mbind at 1, M_bind at 1, bind at 1. rewrite Hin.
    fold known. by rewrite Hk.
  - intros Hvue Hcount Hk.
    assert (Hroot := is_root_false n a o s Ho Hvue Hcount).
    assert (Hob : ob_of (VObj a) s = (s, Ok (o_ob o))).
    { unfold ob_of, gets. by rewrite Ho. }
    assert (Hobj : set' n (VObj a) k v s =
              match o_ob o with
              | None => (assign_prop' n (VObj a) k v;; mret v) s
              | Some r =>
                (defineReactive' n (ob_value r) k (Some v) None false;;
                 Dep_notify' n (ob_dep r);;
                 mret v) s
              end).
    { rewrite Hset. unfold set_on_object.
      unfold mbind at 1, M_bind at 1, bind at 1. rewrite Hin.
      fold known. rewrite Hk.
      unfold mbind at 1, M_bind at 1, bind at 1. rewrite Hob.
      unfold mbind at 1, M_bind at 1, bind at 1. rewrite Hroot.
      by destruct (o_ob o). }
    split.
    + intros Hnone. rewrite Hobj, Hnone. split; [done|].
      intros Hl HA Hext. unfold assign_prop, mbind, M_bind, bind, gets.
      rewrite Ho, Hl, HA, Hext. done.
    + intros r Hr. rewrite Hobj, Hr. split; [done|].
      intros m -> Hval Hl Hext Hv. rewrite Hval.
      unfold mbind at 1, M_bind at 1, bind at 1.
      rewrite (defineReactive_primitive serverRendering call m a k (Some v)
                 None false o v s Ho Hidx); [done| |by right].
      rewrite Hl. done.
Qed.

(** X11.  [del] on an object (on an array: under a key that is not an
    index) that is neither a Vue instance nor root data.  A key that is not
    an own property is left alone and nobody is notified, observed or not.
    An own property that is configurable, on an object that is not frozen,
    is deleted, and then [notify] of the Observer's Dep is called when the
    object is observed; the deleted key is no longer a property.  An own
    property that cannot be deleted makes [del] fail with a [TypeError]
    before any notification.  Deleting a key that [set] has just added to
    an unobserved object restores the store. *)
Theorem del_removes_property n a o k s :
  heap s !! a = Some o →
  is_array o && isValidArrayIndex k = false →
  read_isVue call n (VObj a) s = (s, Ok false) →
  (∀ r, o_ob o = Some r →
        from_option o_vmCount 0 (heap s !! ob_value r) = 0) →
  (has_own o k = false → del' n (VObj a) k s = (s, Ok tt))
  ∧ (∀ p, lookup_prop o k = Some p →
       if p_configurable p && negb (o_frozen o) then
         let s1 := set_heap (alter (with_props (del_assoc k)) a) s in
         del' n (VObj a) k s
         = match o_ob o with
           | Some r => Dep_notify' n (ob_dep r) s1
           | None => (s1, Ok tt)
           end
         ∧ (heap s1 !! a ≫= λ o1, lookup_prop o1 k) = None
         ∧ (∀ k', k' ≠ k →
              (heap s1 !! a ≫= λ o1, lookup_prop o1 k') = lookup_prop o k')
       else del' n (VObj a) k s = (s, Throw TypeError))
  ∧ (∀ v, o_ob o = None → lookup_prop o k = None → is_array o = false →
       o_extensible o = true → o_frozen o = false → inherited (o_class o) k = false →
       ∀ s1, set' n (VObj a) k v s = (s1, Ok v) →
             read_isVue call n (VObj a) s1 = (s1, Ok false) →
             del' n (VObj a) k s1 = (s, Ok tt)).
Proof.
  intros Ho Hidx Hvue Hcount.
  assert (Hdel : ∀ s0 o0, heap s0 !! a = Some o0 →
            is_array o0 && isValidArrayIndex k = false →
            del' n (VObj a) k s0
            = del_on_object production call queueWatcher n (VObj a) k s0).
  { intros s0 o0 Ho0 Hidx0.
    unfold del. unfold mbind at 1, M_bind at 1, bind at 1.
    simpl. rewrite andb_false_r. simpl.
    unfold mbind at 1, M_bind at 1, bind at 1, gets. rewrite Ho0. simpl.
    destruct k as [i|str]; [|done].
    rewrite andb_true_r in Hidx0. by rewrite Hidx0. }
  assert (Hobj : ∀ s0 o0, heap s0 !! a = Some o0 →
            is_array o0 && isValidArrayIndex k = false →
            read_isVue call n (VObj a) s0 = (s0, Ok false) →
            (∀ r, o_ob o0 = Some r →
                  from_option o_vmCount 0 (heap s0 !! ob_value r) = 0) →
            del' n (VObj a) k s0
            = if has_own o0 k then
                (delete_prop (VObj a) k;;
                 match o_ob o0 with
                 | None => mret tt
                 | Some r => Dep_notify' n (ob_dep r)
                 end) s0
              else (s0, Ok tt)).
  { intros s0 o0 Ho0 Hidx0 Hvue0 Hcount0. rewrite (Hdel s0 o0) by done.
    unfold del_on_object.
    unfold mbind at 1, M_bind at 1, bind at 1, ob_of, gets. rewrite Ho0.
    simpl.
    unfold mbind at 1, M_bind at 1, bind at 1.
    rewrite (is_root_false n a o0 s0 Ho0 Hvue0 Hcount0).
    unfold mbind at 1, M_bind at 1, bind at 1, hasOwn.
    unfold mbind at 1, M_bind at 1, bind at 1, gets. rewrite Ho0. simpl.
    by destruct (has_own o0 k). }
  assert (Hset0 : ∀ v, set' n (VObj a) k v s
                 = set_on_object production serverRendering call queueWatcher
                     inherited inObjectPrototype n (VObj a) k v s).
  { intros v. unfold set. unfold mbind at 1, M_bind at 1, bind at 1.
    simpl. rewrite andb_false_r. simpl.
    unfold mbind at 1, M_bind at 1, bind at 1, gets. rewrite Ho. simpl.
    destruct k as [i|str]; [|done].
    rewrite andb_true_r in Hidx. by rewrite Hidx. }
  split_and!.
  - intros Hown. rewrite (Hobj s o) by done. by rewrite Hown.
  - intros p Hl.
    assert (Hown : has_own o k = true).
    { unfold has_own. by rewrite Hl. }
    rewrite (Hobj s o) by done. rewrite Hown.
    assert (Hdp : delete_prop (VObj a) k s =
              if p_configurable p && negb (o_frozen o)
              then (set_heap (alter (with_props (del_assoc k)) a) s, Ok tt)
              else (s, Throw TypeError)).
    { unfold delete_prop, mbind, M_bind, bind, gets. rewrite Ho, Hl.
      by destruct (p_configurable p && negb (o_frozen o)). }
    destruct (p_configurable p && negb (o_frozen o)).
    2:{ unfold mbind, M_bind, bind. by rewrite Hdp. }
    cbv beta iota zeta. split_and!.
    + unfold mbind at 1, M_bind at 1, bind at 1. rewrite Hdp.
      by destruct (o_ob o).
    + simpl. rewrite lookup_alter_eq, Ho. simpl. apply assoc_del_assoc.
    + intros k' Hne. simpl. rewrite lookup_alter_eq, Ho. simpl.
      by apply assoc_del_assoc_ne.
  - intros v Hnone Hl HA Hext Hfz Hinh s1 Hset Hvue1.
    assert (Hown : has_own o k = false).
    { unfold has_own. rewrite Hl, HA. done. }
    assert (Hs1 : s1 = set_heap
              (alter (with_props (put_assoc k (Prop_ (PData v) true true))) a)
              s).
    { rewrite Hset0 in Hset. rename Hset into Hset'.
      unfold set_on_object, key_in in Hset'.
      unfold mbind, M_bind, bind, gets in Hset'. rewrite Ho in Hset'.
      simpl in Hset'. rewrite Hown, Hinh in Hset'. simpl in Hset'.
      rewrite Ho in Hset'. simpl in Hset'.
      rewrite (is_root_false n a o s Ho Hvue Hcount) in Hset'.
      rewrite Hnone in Hset'. unfold assign_prop in Hset'.
      unfold mbind, M_bind, bind, gets in Hset'.
      rewrite Ho, Hl, HA, Hext in Hset'.
      unfold update_obj, modify, mret, M_ret, ret in Hset'. by injection Hset'. }
    set (o1 := with_props (put_assoc k (Prop_ (PData v) true true)) o).
    assert (Ho1 : heap s1 !! a = Some o1).
    { rewrite Hs1. simpl. by rewrite lookup_alter_eq, Ho. }
    rewrite (Hobj s1 o1); [|done| |done|].
    + assert (Hown1 : has_own o1 k = true).
      { unfold has_own, lookup_prop, o1. simpl. by rewrite assoc_put_assoc. }
      rewrite Hown1.
      assert (Hdp : delete_prop (VObj a) k s1 =
                (set_heap (alter (with_props (del_assoc k)) a) s1, Ok tt)).
      { unfold delete_prop, mbind, M_bind, bind, gets. rewrite Ho1.
        unfold lookup_prop, o1. simpl. rewrite assoc_put_assoc. simpl.
        by rewrite Hfz. }
      unfold mbind at 1, M_bind at 1, bind at 1. rewrite Hdp.
      assert (Hnone1 : o_ob o1 = None) by done. rewrite Hnone1.
      unfold mret, M_ret, ret. f_equal.
      rewrite Hs1. destruct s as [h c nc du sb ts ws so se cb pe pr lg].
      unfold set_heap. simpl in *. f_equal.
      apply map_eq. intros i. destruct (decide (i = a)) as [->|].
      * rewrite !lookup_alter_eq, Ho. simpl. f_equal.
        unfold with_props. simpl. rewrite del_assoc_put_assoc by done.
        by destruct o.
      * by rewrite !lookup_alter_ne.
    + unfold is_array, o1. simpl. done.
    + intros r Hr. unfold o1 in Hr. simpl in Hr. congruence.
Qed.

End SetDel.
(** ** Batching of deferred callbacks *)

Section Batching.

Context (hasPromise : bool).

Lemma nextTick_step cb ctx s :
  ∃ s' r,
    nextTick hasPromise cb ctx s = (s', Ok r)
    ∧ callbacks s' = callbacks s ++ [Tick cb ctx r]
    ∧ pending s' = true
    ∧ log s' = (if pending s then log s else log s ++ [EvTimer])
    ∧ heap s' = heap s ∧ cells s' = cells s ∧ subs s' = subs s
    ∧ watchers s' = watchers s.
Proof.
  unfold nextTick, mbind, M_bind, bind, gets, modify. simpl.
  destruct (pending s) eqn:Hp; simpl;
    destruct (negb (isSome cb) && hasPromise); simpl;
    eexists _, _; split_and!; done.
Qed.

(** X12.  Any number of [nextTick] calls made in a row asks the
    platform for one flush at most: when no flush is pending before the
    first call, [timerFunc] is called once, by the first call; when one is
    pending, it is not called at all.  The requests are appended to the
    queue in the order of the calls, a flush is pending afterwards, and the
    heap, the cells, the subscriber lists and the watchers are untouched. *)
Theorem nextTick_requests_one_flush reqs s :
  ∃ s',
    schedule hasPromise reqs s = (s', Ok tt)
    ∧ tick_request <$> callbacks s' = (tick_request <$> callbacks s) ++ reqs
    ∧ pending s' = (if reqs is [] then pending s else true)
    ∧ log s' = (if reqs is [] then log s
                else if pending s then log s else log s ++ [EvTimer])
    ∧ heap s' = heap s ∧ cells s' = cells s ∧ subs s' = subs s
    ∧ watchers s' = watchers s.
Proof.
  revert s. induction reqs as [|[cb ctx] reqs IH]; intros s.
  - exists s. split_and!; try done. by rewrite app_nil_r.
  - destruct (nextTick_step cb ctx s)
      as (s1 & r & Hrun & Hq & Hp & Hlog & Hh & Hc & Hs & Hw).
    destruct (IH s1) as (s' & Hrun' & Hq' & Hp' & Hlog' & Hh' & Hc' & Hs' & Hw').
    exists s'. split_and!.
    + unfold schedule in *. simpl. unfold bind at 1, mbind, M_bind, bind.
      simpl. rewrite Hrun. done.
    + rewrite Hq', Hq, fmap_app. simpl. by rewrite <- app_assoc.
    + rewrite Hp'. by destruct reqs.
    + rewrite Hlog', Hp, Hlog. by destruct reqs.
    + congruence.
    + congruence.
    + congruence.
    + congruence.
Qed.

End Batching.
(** ** What [observe] leaves alone, and arrays *)

Section ObserveGuards.

Context (serverRendering : bool).
Context (call : fn → value → list value → M value).
Context (queueWatcher : wid → M unit).
Context (nativeSort : list value → list value → M (list value)).
Context (toInteger : value → Z).

Local Abbreviation observe' := (observe serverRendering call).

#[local] Arguments get_prop : simpl never.
#[local] Arguments observe : simpl never.

(** X13.  What [observe] does not instrument.  A value that
    is not an object and a VNode are returned [undefined] for, and nothing
    changes.  For an object that has an Observer, that Observer is returned
    and nothing changes, except that [vmCount] is incremented when the
    object is observed as root data.  An unobserved object is left alone,
    with [undefined] returned, when observation is switched off (as after
    [toggleObserving (false)]), on the server, when the object is neither an
    array nor a plain object, when it is not extensible, and when its
    [_isVue] flag reads as true. *)
Theorem observe_leaves_alone n v asRoot s :
  (isObject v = false → observe' (S n) v asRoot s = (s, Ok None))
  ∧ ∀ a o, v = VObj a → heap s !! a = Some o →
      (o_class o = CVNode → observe' (S n) v asRoot s = (s, Ok None))
      ∧ (o_class o ≠ CVNode →
         (∀ r, o_ob o = Some r →
            observe' (S n) v asRoot s
            = (if asRoot
               then set_heap (alter (with_vmCount S) (ob_value r)) s
               else s, Ok (Some r)))
         ∧ (o_ob o = None →
            (shouldObserve s && negb serverRendering
             && (is_array o || is_plain o) && o_extensible o = false →
             observe' (S n) v asRoot s = (s, Ok None))
            ∧ ((toggleObserving false;; observe' (S n) v asRoot) s
               = (set_shouldObserve false s, Ok None))
            ∧ (shouldObserve s && negb serverRendering
               && (is_array o || is_plain o) && o_extensible o = true →
               ∀ s1, read_isVue call n v s = (s1, Ok true) →
                     observe' (S n) v asRoot s = (s1, Ok None)))).
Proof.
  split; [by apply observe_non_object|].
  intros a o -> Ho. split.
  - intros Hcl. unfold observe. simpl. unfold mbind, M_bind, bind, gets.
    rewrite Ho. by rewrite bool_decide_eq_true_2.
  - intros Hcl. split.
    + intros r Hr. rewrite (observe_object _ _ _ _ _ o) by done.
      rewrite Hr. by destruct asRoot.
    + intros Hnone. split_and!.
      * intros Hg. rewrite (observe_object _ _ _ _ _ o) by done.
        rewrite Hnone. unfold mbind, M_bind, bind, gets. by rewrite Hg.
      * unfold toggleObserving, mbind at 1, M_bind at 1, bind at 1, modify.
        rewrite (observe_object _ _ _ _ _ o) by done.
        rewrite Hnone. unfold mbind, M_bind, bind, gets. done.
      * intros Hg s1 Hvue. rewrite (observe_object _ _ _ _ _ o) by done.
        rewrite Hnone. unfold mbind, M_bind, bind, gets.
        by rewrite Hg, Hvue.
Qed.

(** X14.  [observe] on an unobserved, extensible array of
    primitive values, when observation is switched on: the array gets an
    Observer with the next Dep id and the intercepted methods, and that is
    all: no element is turned into an accessor, no cell is created and one
    Dep id is consumed.  From then on a call of one of the seven methods on
    the array goes through [mutator]. *)
Theorem observe_array n a o s (asRoot : bool) :
  serverRendering = false → shouldObserve s = true →
  heap s !! a = Some o → is_array o = true → o_ob o = None →
  o_extensible o = true →
  Forall (λ e, isObject e = false) (o_elems o) →
  read_isVue call (S n) (VObj a) s = (s, Ok false) →
  let d := dep_uid s in
  let o' := Obj (o_class o) (o_props o) (o_elems o) (o_extensible o)
                (o_frozen o) (Some (ObRef a d)) (if asRoot then 1 else 0)
                true in
  ∃ s',
    observe' (S (S n)) (VObj a) asRoot s = (s', Ok (Some (ObRef a d)))
    ∧ heap s' = <[a := o']> (heap s)
    ∧ dep_uid s' = d + 1 ∧ cells s' = cells s ∧ next_cell s' = next_cell s
    ∧ observation_frame s s'
    ∧ ∀ m method args,
        call_method serverRendering call queueWatcher nativeSort toInteger
          m method a args s'
        = mutator serverRendering call queueWatcher nativeSort toInteger
            m method a args s'.
Proof.
  intros Hsr Hso Ho HA Hob Hext Hprim Hvue d o'.
  assert (Hcl : o_class o = CArray).
  { unfold is_array in HA. by apply bool_decide_eq_true in HA. }
  assert (Hnv : o_class o ≠ CVNode) by (by rewrite Hcl).
  set (r := ObRef a d).
  set (o2 := with_augmented true (with_vmCount (λ _, 0) (with_ob (Some r) o))).
  set (s2 := set_heap (λ _, <[a := o2]> (heap s)) (set_dep_uid S s)).
  set (s' := if asRoot then set_heap (alter (with_vmCount S) a) s2 else s2).
  assert (Hloop :
    observeArray_with (λ x, observe false call (S n) x false)
      (length (o_elems o))
      (λ i, gets (λ s0, default VUndefined
                          (from_option o_elems [] (heap s0 !! a) !! i))) s2
    = (s2, Ok tt)).
  { unfold observeArray_with.
    destruct (forM_invariant (λ s0, s0 = s2)
                (λ i, x ← gets (λ s0, default VUndefined
                             (from_option o_elems [] (heap s0 !! a) !! i));
                      observe false call (S n) x false;; mret tt)
                (seq 0 (length (o_elems o))) s2) as (s3 & -> & ->); [|done..].
    intros i s0 Hi ->. exists s2. split; [|done].
    unfold mbind, M_bind, bind, gets. simpl. rewrite lookup_insert_eq. simpl.
    assert (Hx : isObject (default VUndefined (o_elems o !! i)) = false).
    { destruct (o_elems o !! i) as [x|] eqn:Hx; [|done]. simpl.
      by eapply (Forall_lookup_1 _ _ _ _ Hprim). }
    by rewrite (observe_non_object false call n _ false s2 Hx). }
  exists s'. split_and!.
  - rewrite (observe_object _ _ _ _ _ o) by done.
    rewrite Hob. unfold mbind at 1 2 3, M_bind, bind at 1 2 3, gets.
    rewrite Hso, Hsr, HA, Hext. simpl.
    unfold mbind, M_bind, bind. rewrite Hvue.
    unfold new_Observer_with at 1, mbind, M_bind, bind, new_Dep, update_obj,
      modify, gets. simpl. rewrite lookup_alter_eq, Ho. simpl.
    unfold is_array at 1. simpl. rewrite bool_decide_eq_true_2 by done.
    change (ObRef a (dep_uid s)) with r.
    assert (Hs2 : set_heap (alter (with_augmented true) a)
                    (set_heap (alter (λ o0, with_vmCount (λ _, 0)
                                              (with_ob (Some r) o0)) a)
                       (set_dep_uid S s)) = s2).
    { unfold s2, set_heap. simpl. f_equal.
      rewrite (alter_lookup_insert
                 (λ o0, with_vmCount (λ _, 0) (with_ob (Some r) o0))
                 (heap s) a o Ho).
      by rewrite alter_insert_eq. }
    unfold gets in Hloop. rewrite Hs2, Hloop. simpl. unfold s'.
    by destruct asRoot.
  - unfold s'. destruct asRoot; simpl; [|done].
    by rewrite alter_insert_eq.
  - unfold s'. destruct asRoot; simpl; lia.
  - unfold s'. by destruct asRoot.
  - unfold s'. by destruct asRoot.
  - unfold s'. by destruct asRoot.
  - intros m method args. unfold call_method, mbind, M_bind, bind, gets.
    assert (from_option o_augmented false (heap s' !! a) = true) as ->; [|done].
    unfold s'. destruct asRoot; simpl.
    + by rewrite lookup_alter_eq, lookup_insert_eq.
    + by rewrite lookup_insert_eq.
Qed.

End ObserveGuards.
(** ** An evaluation tracks exactly what it reads *)

Section Tracking.

Context (call : fn → value → list value → M value).
Hypothesis call_ok :
  ∀ f this args, preserves in_agreement (call f this args).

Lemma in_agreement_modify f :
  (∀ s, subs (f s) = subs s) → (∀ s, watchers (f s) = watchers s) →
  preserves in_agreement (modify f).
Proof. intros Hs Hw s Hag. apply (in_agreement_frame s); simpl; auto. Qed.

Lemma in_agreement_compute w : preserves in_agreement (Watcher_compute call w).
Proof.
  unfold Watcher_compute.
  apply preserves_bind; [apply preserves_the_watcher|intros W].
  apply preserves_try_catch; [apply call_ok|intros e].
  apply preserves_bind; [apply preserves_the_watcher|intros U].
  destruct (w_user U); [|apply preserves_throw].
  apply preserves_bind; [|intros; apply preserves_ret].
  by apply in_agreement_modify.
Qed.

(** X15.  After an evaluation the watcher is subscribed to
    exactly what it read.  In a store in which subscriber lists and
    dependency sets agree, and with user code that preserves this, consider
    [get ()] of a watcher that is not deep, whose computation returns or
    throws: [get] comes to the same outcome, has popped the target stack,
    and leaves the watcher with the Deps recorded during this evaluation as
    its dependencies and with empty working collections; the watcher is in
    the subscriber list of a Dep exactly when the evaluation recorded that
    Dep, and the agreement holds again. *)
Theorem Watcher_get_tracks_exactly n w s s1 r W1 :
  in_agreement s →
  Watcher_compute call w (set_targetStack (cons w) s) = (s1, r) →
  r ≠ Diverge →
  watchers s1 !! w = Some W1 → w_deep W1 = false →
  ∃ s',
    Watcher_get call n w s = (s', r)
    ∧ targetStack s' = tail (targetStack s1)
    ∧ watchers s' !! w
      = Some (set_tracking (w_newDeps W1) [] (w_newDepIds W1) ∅ W1)
    ∧ (∀ d, w ∈ dep_subs s' d ↔ d ∈ w_newDeps W1)
    ∧ in_agreement s'.
Proof.
  intros Hag Hc Hr HW1 Hdeep.
  assert (Hag0 : in_agreement (set_targetStack (cons w) s)).
  { apply (in_agreement_frame s); [reflexivity|reflexivity|exact Hag]. }
  assert (Hag1 : in_agreement s1).
  { pose proof (in_agreement_compute w _ Hag0) as H. by rewrite Hc in H. }
  destruct (cleanupDeps_total (set_targetStack tail s1) w W1 HW1)
    as (s' & Hrun & Hfr & HWs).
  assert (Hfin : ∀ ro, Watcher_finish call n w ro s1 = (s', Ok tt)).
  { intros ro. unfold Watcher_finish, Watcher_touch, mbind, M_bind, bind,
      the_watcher, popTarget, modify. rewrite HW1, Hdeep. simpl.
    by rewrite Hrun. }
  assert (Hget : Watcher_get call n w s = (s', r)).
  { unfold Watcher_get, mbind, M_bind, bind, pushTarget, modify, try_finally.
    rewrite Hc. destruct r as [v|e|]; [| |done]; unfold bind;
      by rewrite Hfin. }
  assert (Hts : targetStack s' = tail (targetStack s1)).
  { rewrite Hfr. done. }
  assert (HW' : watchers s' !! w
                = Some (set_tracking (w_newDeps W1) [] (w_newDepIds W1) ∅ W1)).
  { rewrite HWs. by rewrite lookup_insert_eq. }
  assert (Hs' : s' = (Watcher_cleanupDeps w (set_targetStack tail s1)).1).
  { by rewrite Hrun. }
  assert (Hag' : in_agreement s').
  { rewrite Hs'. apply in_agreement_cleanupDeps.
    apply (in_agreement_frame s1); [reflexivity|reflexivity|exact Hag1]. }
  exists s'. split_and!; try done.
  intros d. rewrite (in_agreement_iff s' w _ d Hag' HW'). simpl.
  rewrite (ok_newDepIds s1 (proj1 Hag1) w W1 d HW1). set_solver.
Qed.

End Tracking.
(** ** Notification of lazy watchers *)

Section Notification.

Context (call : fn → value → list value → M value).
Context (queueWatcher : wid → M unit).

#[local] Arguments Watcher_run : simpl never.

Lemma update_lazy_loop n L s :
  (∀ w, w ∈ L → ∃ W, watchers s !! w = Some W ∧ w_lazy W = true) →
  ∃ s', forM L (Watcher_update call queueWatcher n) s = (s', Ok tt)
    ∧ s' = set_watchers (λ _, watchers s') s
    ∧ ∀ w, watchers s' !! w =
           if decide (w ∈ L) then set_dirty true <$> watchers s !! w
           else watchers s !! w.
Proof.
  revert s. induction L as [|w0 L IH]; intros s Hlazy.
  - exists s. split; [done|]. split; [by destruct s|].
    intros w. by rewrite decide_False by apply not_elem_of_nil.
  - destruct (Hlazy w0) as (W0 & HW0 & Hl0); [by left|].
    set (s1 := set_watchers (alter (set_dirty true) w0) s).
    assert (Hstep : Watcher_update call queueWatcher n w0 s = (s1, Ok tt)).
    { unfold Watcher_update, mbind, M_bind, bind, the_watcher.
      by rewrite HW0, Hl0. }
    destruct (IH s1) as (s' & Hrun & Hfr & Hw).
    { intros w Hin. destruct (Hlazy w) as (W & HW & Hl); [by right|].
      destruct (decide (w = w0)) as [->|Hne].
      - exists (set_dirty true W). simpl. rewrite lookup_alter_eq, HW. done.
      - exists W. simpl. by rewrite lookup_alter_ne. }
    exists s'. split; [|split].
    + simpl. unfold bind. by rewrite Hstep.
    + rewrite Hfr. by destruct s.
    + intros w. rewrite Hw. simpl.
      destruct (decide (w = w0)) as [->|Hne].
      * rewrite lookup_alter_eq, (decide_True (P := w0 ∈ w0 :: L)) by (by left).
        destruct (decide (w0 ∈ L)); destruct (watchers s !! w0); done.
      * rewrite lookup_alter_ne by done.
        destruct (decide (w ∈ L)) as [Hin|Hout].
        -- by rewrite decide_True by (by right).
        -- rewrite decide_False; [done|].
           intros [?|?]%elem_of_cons; done.
Qed.

(** X16.  [update ()], as [notify] calls it on the subscribers of a
    Dep.  A lazy watcher is only marked dirty: when every subscriber is
    lazy, [notify] evaluates nothing, calls no user code and queues
    nothing; it returns, each subscriber is dirty, and nothing else has
    changed.  A watcher that is neither lazy nor synchronous is handed to
    [queueWatcher], a synchronous one is run at once. *)
Theorem notify_marks_lazy_watchers_dirty n d s :
  ((∀ w, w ∈ dep_subs s d → ∃ W, watchers s !! w = Some W ∧ w_lazy W = true) →
   ∃ s', Dep_notify call queueWatcher n d s = (s', Ok tt)
     ∧ s' = set_watchers (λ _, watchers s') s
     ∧ (∀ w W, w ∈ dep_subs s d → watchers s !! w = Some W →
          watchers s' !! w = Some (set_dirty true W))
     ∧ (∀ w, w ∉ dep_subs s d → watchers s' !! w = watchers s !! w))
  ∧ (∀ w W, dep_subs s d = [w] → watchers s !! w = Some W →
       w_lazy W = false →
       Dep_notify call queueWatcher n d s
       = ((if w_sync W then Watcher_run call n w else queueWatcher w);;
          mret tt) s).
Proof.
  split.
  - intros Hlazy.
    destruct (update_lazy_loop n (dep_subs s d) s Hlazy)
      as (s' & Hrun & Hfr & Hw).
    exists s'. split_and!; try done.
    + intros w W Hin HW. by rewrite Hw, decide_True, HW.
    + intros w Hout. by rewrite Hw, decide_False.
  - intros w W Hsubs HW Hl.
    unfold Dep_notify, mbind, M_bind, bind, gets. rewrite Hsubs. simpl.
    unfold bind, Watcher_update, mbind, M_bind, bind, the_watcher.
    rewrite HW, Hl. by destruct (w_sync W).
Qed.

End Notification.
(** ** Dependencies on the elements of an array *)

Lemma forM_app {A} (f : A → M unit) l1 l2 s :
  forM (l1 ++ l2) f s = bind (forM l1 f) (λ _, forM l2 f) s.
Proof.
  revert s. induction l1 as [|x l1 IH]; intros s; simpl; [done|].
  unfold bind. destruct (f x s) as [s1 [[]| |]]; [|done..].
  apply IH.
Qed.

Lemma depend_loop_target h t L s :
  tracking_target h t s →
  ∃ s', forM L Dep_depend s = (s', Ok tt) ∧ tracking_target h t s'.
Proof.
  intros (Hh & Ht & [T HT]).
  destruct (depend_loop t L s T Ht HT) as (s' & nd & ni & Hrun & Hfr & HW & _).
  exists s'. split; [done|]. unfold tracking_target.
  rewrite Hfr. simpl. rewrite HW, lookup_insert_eq. eauto.
Qed.

Lemma dependArray_as_loop n a t s L :
  tracking_target (heap s) t s →
  array_deps (heap s) n a = Some L →
  dependArray n a s = forM L Dep_depend s.
Proof.
  set (h := heap s). intros Htt. assert (Hh : heap s = h) by done.
  clearbody h. revert a s L Htt Hh.
  induction n as [|n IH]; intros a s L Htt Hh; [done|].
  simpl. rewrite <- Hh. unfold mbind at 1, M_bind, bind at 1, gets.
  rewrite Hh.
  generalize (from_option o_elems [] (h !! a)). intros elems.
  intros (Ls & HLs & ->)%fmap_Some. apply mapM_Some in HLs.
  clear Hh. revert s Htt.
  induction HLs as [|e Le elems Ls He HLs IHl]; intros s Htt; [done|].
  simpl. rewrite forM_app. unfold bind at 1 2.
  assert (Hitem : dependArray_item (dependArray n) e s = forM Le Dep_depend s).
  { destruct Htt as (Hhs & Ht & HT).
    unfold item_deps in He. unfold dependArray_item.
    destruct e as [| | | | |b]; try (by simplify_eq).
    unfold mbind at 1, M_bind, bind at 1, gets. rewrite Hhs.
    destruct (h !! b) as [o'|]; [|by simplify_eq].
    set (own := option_list (ob_dep <$> o_ob o')) in *.
    assert (Hown : ∀ s0, match o_ob o' with
                         | Some r => Dep_depend (ob_dep r)
                         | None => mret tt
                         end s0 = forM own Dep_depend s0).
    { intros s0. unfold own. destruct (o_ob o') as [r|]; simpl; [|done].
      unfold bind. by destruct (Dep_depend (ob_dep r) s0) as [s1 [[]| |]]. }
    destruct (is_array o').
    - apply fmap_Some in He as (Lb & HLb & ->).
      rewrite forM_app. unfold mbind, M_bind, bind.
      rewrite Hown.
      destruct (depend_loop_target h t own s) as (s1 & -> & Htt1);
        [done|].
      apply IH; [done|by destruct Htt1|done].
    - injection He as <-. unfold mbind, M_bind, bind. rewrite Hown.
      destruct (depend_loop_target h t own s) as (s1 & -> & Htt1); done. }
  rewrite Hitem.
  destruct (depend_loop_target h t Le s Htt) as (s1 & -> & Htt1).
  by apply IHl.
Qed.

(** X17.  [dependArray] inside the evaluation of the watcher
    [t], on arrays nested no deeper than the recursion budget: it acts as
    [depend ()] on the Dep of the Observer of each element that has one, an
    element that is an array being followed by its own elements, in order.
    In particular the Dep of every observed element of the array is
    recorded with [t]; afterwards [newDepIds] of [t] holds the ids of these
    Deps besides those it held, [t] has been appended to the subscriber
    list of each one it had recorded in neither cycle, and nothing else
    has changed. *)
Theorem dependArray_registers_elements n a t T s L :
  Dep_target s = Some t → watchers s !! t = Some T →
  array_deps (heap s) n a = Some L →
  (∀ o b o' r, heap s !! a = Some o → VObj b ∈ o_elems o →
     heap s !! b = Some o' → o_ob o' = Some r → ob_dep r ∈ L)
  ∧ ∃ s' nd ni,
      dependArray n a s = (s', Ok tt)
      ∧ s' = set_watchers (λ _, watchers s') (set_subs (λ _, subs s') s)
      ∧ watchers s' =
          <[t := set_tracking (w_deps T) nd (w_depIds T) ni T]> (watchers s)
      ∧ (∀ d, d ∈ ni ↔ d ∈ w_newDepIds T ∨ d ∈ L)
      ∧ (∀ d, dep_subs s' d =
              if decide (d ∈ L ∧ (d ∉ w_newDepIds T) ∧ (d ∉ w_depIds T))
              then dep_subs s d ++ [t] else dep_subs s d).
Proof.
  intros Ht HT HL. split.
  - intros o b o' r Ho Hb Ho' Hr.
    destruct n as [|n]; [done|]. simpl in HL. rewrite Ho in HL. simpl in HL.
    apply fmap_Some in HL as (Ls & HLs & ->). apply mapM_Some in HLs.
    apply list_elem_of_lookup in Hb as [i Hi].
    destruct (Forall2_lookup_l _ _ _ _ _ HLs Hi) as (Le & HLe & He).
    apply list_elem_of_join. exists Le. split; [|by eapply list_elem_of_lookup_2].
    unfold item_deps in He. rewrite Ho', Hr in He. simpl in He.
    destruct (is_array o').
    + apply fmap_Some in He as (Lb & _ & ->). by left.
    + injection He as <-. by left.
  - rewrite (dependArray_as_loop n a t s L); [|by split_and!; eauto|done].
    destruct (depend_loop t L s T Ht HT)
      as (s' & nd & ni & Hrun & Hfr & HW & Hni & Hsubs).
    by exists s', nd, ni.
Qed.
(** ** Merging of data objects *)

Lemma assoc_app k l1 l2 :
  assoc k (l1 ++ l2) = match assoc k l1 with
                       | Some p => Some p
                       | None => assoc k l2
                       end.
Proof.
  induction l1 as [|[k0 p0] l1 IH]; simpl; [done|].
  by destruct (decide (k0 = k)).
Qed.

Lemma put_assoc_absent k p l :
  assoc k l = None → put_assoc k p l = l ++ [(k, p)].
Proof.
  induction l as [|[k0 p0] l IH]; simpl; [done|].
  destruct (decide (k0 = k)); [done|]. intros H. by rewrite IH.
Qed.

Lemma assoc_merged_in oT oF k D :
  k ∉ D → assoc k (omap (merged_in oT oF) D) = None.
Proof.
  induction D as [|k0 D IH]; simpl; [done|].
  intros [Hne HD]%not_elem_of_cons.
  unfold merged_in at 1.
  destruct (lookup_prop oT k0), (field_value oF k0); simpl; auto.
  rewrite decide_False by done. auto.
Qed.

Section Merge.

Context (production serverRendering hasSymbol : bool).
Context (call : fn → value → list value → M value).
Context (queueWatcher : wid → M unit).
Context (nativeSort : list value → list value → M (list value)).
Context (inherited : oclass → key → bool).
Context (inObjectPrototype : key → bool).
Context (toInteger : value → Z).

Local Abbreviation set' :=
  (set production serverRendering call queueWatcher nativeSort inherited
     inObjectPrototype toInteger).
Local Abbreviation mergeData' :=
  (mergeData production serverRendering hasSymbol call queueWatcher nativeSort
     inherited inObjectPrototype toInteger).

#[local] Arguments get_prop : simpl never.
#[local] Arguments observe : simpl never.
#[local] Arguments reactiveGetter : simpl never.
#[local] Arguments reactiveSetter : simpl never.
#[local] Arguments defineReactive : simpl never.
#[local] Arguments Dep_notify : simpl never.

(** Reading a data field of an object that is not an array. *)
Lemma member_data n a o k v s :
  heap s !! a = Some o → is_array o = false → field_value o k = Some v →
  member call n (VObj a) k s = (s, Ok v).
Proof.
  intros Ho HA Hv.
  assert (Hget : get_prop call n (VObj a) k s = (s, Ok v)).
  { unfold get_prop, mbind, M_bind, bind, gets. rewrite Ho, HA.
    unfold field_value in Hv.
    destruct (lookup_prop o k) as [p|]; [|destruct k; by simplify_eq].
    destruct (p_kind p); destruct k; by simplify_eq. }
  unfold member. destruct k as [i|str]; [done|].
  unfold mbind, M_bind, bind, gets. rewrite Ho. simpl. by rewrite HA.
Qed.

(** [set] of a new key on an object that is not observed. *)
Lemma set_unobserved_new_key n a o k v s :
  heap s !! a = Some o → is_array o = false → o_ob o = None →
  lookup_prop o k = None → o_extensible o = true →
  lookup_prop o (KStr "_isVue") = None →
  set' n (VObj a) k v s
  = (set_heap (alter (with_props (put_assoc k (Prop_ (PData v) true true))) a)
       s, Ok v).
Proof.
  intros Ho HA Hob Hl Hext Hvue.
  assert (Hassign : assign_prop production serverRendering call queueWatcher
                      n (VObj a) k v s
                    = (set_heap (alter (with_props
                         (put_assoc k (Prop_ (PData v) true true))) a) s,
                       Ok tt)).
  { unfold assign_prop, mbind, M_bind, bind, gets.
    by rewrite Ho, Hl, HA, Hext. }
  unfold set. unfold mbind at 1, M_bind at 1, bind at 1.
  simpl. rewrite andb_false_r. simpl.
  unfold mbind at 1, M_bind at 1, bind at 1, gets. rewrite Ho. simpl.
  rewrite HA.
  assert (Hin : key_in inherited (VObj a) k s
                = (s, Ok (has_own o k || inherited (o_class o) k))).
  { unfold key_in, mbind, M_bind, bind, gets. by rewrite Ho. }
  assert (Hobof : ob_of (VObj a) s = (s, Ok None)).
  { unfold ob_of, gets. rewrite Ho. simpl. by rewrite Hob. }
  assert (Hroot : is_root call n (VObj a) None s = (s, Ok false)).
  { unfold is_root, read_isVue, get_prop, mbind, M_bind, bind, gets.
    by rewrite Ho, Hvue. }
  assert (Hobj : set_on_object production serverRendering call queueWatcher
                   inherited inObjectPrototype n (VObj a) k v s
                 = (set_heap (alter (with_props
                      (put_assoc k (Prop_ (PData v) true true))) a) s, Ok v)).
  { unfold set_on_object.
    unfold mbind at 1, M_bind at 1, bind at 1. rewrite Hin.
    destruct ((has_own o k || inherited (o_class o) k)
              && negb (inObjectPrototype k)).
    - unfold mbind, M_bind, bind. by rewrite Hassign.
    - unfold mbind at 1, M_bind at 1, bind at 1. rewrite Hobof.
      unfold mbind at 1, M_bind at 1, bind at 1. rewrite Hroot.
      unfold mbind, M_bind, bind. by rewrite Hassign. }
  by destruct k.
Qed.

(** X18.  [mergeData (to, from)] on two distinct objects that
    are not arrays and whose properties are data properties, [to] being
    extensible and not observed, when no key that both have holds two
    different plain objects (so that nothing is merged recursively),
    [_isVue] is a key of neither and [__ob__] is not a key of [from]: every
    key of [from] that the loop visits
    (its own keys, or its enumerable keys where there are no symbols) and
    that [to] does not have is added to [to] as a plain data property with
    the value it has in [from], in the order of the keys of [from]; the
    properties [to] had are kept, and nothing else changes.  With no
    [from], [to] is returned untouched. *)
Theorem mergeData_fills_missing_keys n to from oT oF s :
  to ≠ from → heap s !! to = Some oT → heap s !! from = Some oF →
  is_array oT = false → is_array oF = false →
  o_ob oT = None → o_extensible oT = true →
  data_object oT → data_object oF →
  lookup_prop oT (KStr "_isVue") = None →
  KStr "_isVue" ∉ (o_props oF).*1 → KStr "__ob__" ∉ (o_props oF).*1 →
  (∀ k pT vT vF, lookup_prop oT k = Some pT → p_kind pT = PData vT →
     field_value oF k = Some vF →
     negb (strict_eq vT vF) && (isPlainObject s vT && isPlainObject s vF)
     = false) →
  let added := omap (merged_in oT oF) (visited_keys hasSymbol oF) in
  let merged := with_props (λ ps, ps ++ added) oT in
  mergeData' (S n) to (Some from) s
  = (set_heap (λ h, <[to := merged]> h) s, Ok to)
  ∧ mergeData' (S n) to None s = (s, Ok to)
  ∧ (∀ k p, lookup_prop oT k = Some p → lookup_prop merged k = Some p)
  ∧ (∀ k v, k ∈ visited_keys hasSymbol oF → lookup_prop oT k = None →
       field_value oF k = Some v →
       lookup_prop merged k = Some (Prop_ (PData v) true true)).
Proof.
  intros Hne HoT HoF HAT HAF Hob Hext [HndT HdT] [HndF HdF] Hvue HvueF HobF
    Hflat added merged.
  set (m := merged_in oT oF).
  set (obj_at := λ D, with_props (λ ps, ps ++ omap m D) oT).
  set (P := λ (D : list key) (si : St),
              si = set_heap (λ h, <[to := obj_at D]> h) s).
  assert (Hvis : ∀ k, k ∈ visited_keys hasSymbol oF →
            ∃ p v, (k, p) ∈ o_props oF ∧ p_kind p = PData v
                   ∧ field_value oF k = Some v).
  { intros k Hk.
    assert (∃ p, (k, p) ∈ o_props oF) as [p Hp].
    { unfold visited_keys in Hk. destruct hasSymbol.
      - apply list_elem_of_fmap in Hk as ([k' p] & -> & Hin). by exists p.
      - apply elem_of_object_keys in Hk as (p & Hin & _). by exists p. }
    destruct (HdF k p Hp) as [v Hv]. exists p, v. split_and!; try done.
    unfold field_value, lookup_prop.
    by rewrite (elem_of_assoc _ _ _ HndF Hp), Hv. }
  assert (Hsub : ∀ k, k ∈ visited_keys hasSymbol oF → k ∈ (o_props oF).*1).
  { intros k (p & v & Hin & _)%Hvis. apply list_elem_of_fmap.
    by exists (k, p). }
  assert (HndV : NoDup (visited_keys hasSymbol oF)).
  { unfold visited_keys. destruct hasSymbol; [done|].
    by apply NoDup_object_keys. }
  assert (Hkeys : from_option
            (if hasSymbol then own_keys else enumerable_keys) [] (Some oF)
            = visited_keys hasSymbol oF).
  { unfold visited_keys.
    destruct hasSymbol; unfold from_option, own_keys, enumerable_keys,
      index_keys; by rewrite HAF. }
  set (body := λ key,
       if decide (key = KStr "__ob__") then mret tt
       else
         toVal ← member call n (VObj to) key;
         fromVal ← member call n (VObj from) key;
         own ← hasOwn (VObj to) key;
         if negb own then set' n (VObj to) key fromVal;; mret tt
         else
           plain ← gets (λ s, isPlainObject s toVal && isPlainObject s fromVal);
           if negb (strict_eq toVal fromVal) && plain then
             match toVal, fromVal with
             | VObj to', VObj from' =>
               mergeData' n to' (Some from');; mret tt
             | _, _ => mret tt
             end
           else mret tt).
  assert (Hloop : ∃ s', forM (visited_keys hasSymbol oF) body s = (s', Ok tt)
    ∧ P (visited_keys hasSymbol oF) s').
  { apply forM_visited.
    - unfold P, obj_at. simpl.
      assert (with_props (λ ps, ps ++ []) oT = oT) as ->.
      { destruct oT. unfold with_props. simpl. by rewrite app_nil_r. }
      unfold set_heap. rewrite insert_id by done. by destruct s.
    - intros l1 k l2 si Hl HP. unfold P in HP.
      assert (Hk : k ∈ visited_keys hasSymbol oF).
      { rewrite Hl. apply elem_of_app. right. by left. }
      assert (Hk1 : k ∉ l1).
      { rewrite Hl in HndV. apply NoDup_app in HndV as (_ & HndV & _).
        intros Hk1. apply (HndV k Hk1). by left. }
      assert (Hl1 : ∀ k', k' ∈ l1 → k' ∈ visited_keys hasSymbol oF).
      { intros k' Hk'. rewrite Hl. apply elem_of_app. by left. }
      destruct (Hvis k Hk) as (pF & vF & HinF & HkF & HfF).
      assert (Hnob : k ≠ KStr "__ob__").
      { intros ->. by apply HobF, Hsub. }
      set (oi := obj_at l1).
      assert (Hoi : heap si !! to = Some oi).
      { rewrite HP. simpl. by rewrite lookup_insert_eq. }
      assert (HoFi : heap si !! from = Some oF).
      { rewrite HP. simpl. by rewrite lookup_insert_ne. }
      assert (Hli : ∀ k', k' ∉ l1 → lookup_prop oi k' = lookup_prop oT k').
      { intros k' Hk'. unfold lookup_prop, oi, obj_at, m. simpl.
        rewrite assoc_app, (assoc_merged_in oT oF k' l1 Hk').
        by destruct (assoc k' (o_props oT)). }
      assert (Hvi : lookup_prop oi (KStr "_isVue") = None).
      { rewrite Hli; [done|]. intros Hin. by apply HvueF, Hsub, Hl1. }
      assert (Hplain : ∀ x, isPlainObject si x = isPlainObject s x).
      { intros [| | | | |b]; try done. simpl. rewrite HP. simpl.
        destruct (decide (b = to)) as [->|].
        - by rewrite lookup_insert_eq, HoT.
        - by rewrite lookup_insert_ne. }
      unfold body. rewrite decide_False by done.
      destruct (lookup_prop oT k) as [pT|] eqn:HlT.
      + assert (HinT : (k, pT) ∈ o_props oT) by (by apply assoc_elem_of).
        destruct (HdT k pT HinT) as [vT HkT].
        assert (HfT : field_value oi k = Some vT).
        { unfold field_value. by rewrite Hli, HlT, HkT. }
        exists si. split.
        * unfold mbind, M_bind, bind.
          rewrite (member_data n to oi k vT si Hoi HAT HfT).
          rewrite (member_data n from oF k vF si HoFi HAF HfF).
          unfold hasOwn, mbind, M_bind, bind, gets. rewrite Hoi. simpl.
          unfold has_own. rewrite Hli, HlT by done. simpl.
          rewrite !Hplain, (Hflat k pT vT vF) by done. done.
        * unfold P, obj_at. rewrite omap_app. simpl.
          fold m. unfold m at 2, merged_in. rewrite HlT. simpl.
          by rewrite app_nil_r.
      + assert (HfT : field_value oi k = Some VUndefined).
        { unfold field_value. by rewrite Hli, HlT. }
        eexists. split.
        * unfold mbind, M_bind, bind.
          rewrite (member_data n to oi k VUndefined si Hoi HAT HfT).
          rewrite (member_data n from oF k vF si HoFi HAF HfF).
          unfold hasOwn, mbind, M_bind, bind, gets. rewrite Hoi. simpl.
          unfold has_own. rewrite Hli, HlT by done.
          assert (is_array oi = false) as -> by done. simpl.
          rewrite (set_unobserved_new_key n to oi k vF si); try done.
          by rewrite Hli.
        * unfold P, obj_at. rewrite HP. unfold set_heap. simpl. f_equal.
          rewrite alter_insert_eq. f_equal.
          unfold with_props. simpl. f_equal.
          rewrite put_assoc_absent.
          -- rewrite omap_app. simpl. fold m. unfold m at 3, merged_in.
             rewrite HlT, HfF. simpl. by rewrite <- app_assoc.
          -- rewrite assoc_app. fold (lookup_prop oT k). rewrite HlT.
             by apply assoc_merged_in. }
  destruct Hloop as (s' & Hrun & HP).
  split_and!.
  - change (mergeData' (S n) to (Some from) s)
      with ((o ← gets (λ s, heap s !! from);
             forM (from_option
                     (if hasSymbol then own_keys else enumerable_keys) [] o)
               body;;
             mret to) s).
    unfold mbind at 1, M_bind at 1, bind at 1, gets. rewrite HoF.
    rewrite Hkeys. unfold mbind at 1, M_bind at 1, bind at 1.
    rewrite Hrun. by rewrite HP.
  - done.
  - intros k p Hp. unfold lookup_prop, merged in *. simpl.
    by rewrite assoc_app, Hp.
  - intros k v Hk Hl Hf. unfold lookup_prop, merged in *. simpl.
    rewrite assoc_app, Hl. unfold added.
    clear -Hk Hl Hf HndV. unfold lookup_prop in Hl.
    induction (visited_keys hasSymbol oF) as [|k0 ks IH]; [by apply elem_of_nil in Hk|].
    apply NoDup_cons in HndV as [Hk0 Hks]. simpl.
    destruct (decide (k0 = k)) as [->|Hne].
    + unfold merged_in at 1, lookup_prop. rewrite Hl, Hf. simpl.
      by rewrite decide_True.
    + apply elem_of_cons in Hk as [?|Hk]; [done|].
      unfold merged_in at 1.
      destruct (lookup_prop oT k0), (field_value oF k0); simpl; auto.
      rewrite decide_False by done. auto.
Qed.

End Merge.

(** ** Array interception: promotion and notification *)

Lemma observation_frame_trans s1 s2 s3 :
  observation_frame s1 s2 → observation_frame s2 s3 → observation_frame s1 s3.
Proof.
  intros (H1 & H2 & H3 & H4 & H5 & H6 & H7 & H8 & H9)
         (K1 & K2 & K3 & K4 & K5 & K6 & K7 & K8 & K9).
  unfold observation_frame.
  rewrite K1, K2, K3, K4, K5, K6, K7, K8, K9. by repeat split.
Qed.

Section Interception.

Context (serverRendering : bool).
Context (call : fn → value → list value → M value).
Context (queueWatcher : wid → M unit).
Context (nativeSort : list value → list value → M (list value)).
Context (toInteger : value → Z).

Local Abbreviation original' := (original nativeSort toInteger).
Local Abbreviation mutator' :=
  (mutator serverRendering call queueWatcher nativeSort toInteger).
Local Abbreviation observe' := (observe serverRendering call).
Local Abbreviation observeArray' := (observeArray serverRendering call).
Local Abbreviation Dep_notify' := (Dep_notify call queueWatcher).

(** [observeArray] visits the items in order. *)
Lemma observeArray_as_loop n items s :
  observeArray' n items s
  = forM items (λ x, observe' n x false;; mret tt) s.
Proof.
  unfold observeArray, observeArray_with.
  assert (Hgen : ∀ l2 l1 s,
    forM (seq (length l1) (length l2))
      (λ i, x ← mret (default VUndefined ((l1 ++ l2) !! i));
            observe' n x false;; mret tt) s
    = forM l2 (λ x, observe' n x false;; mret tt) s).
  { induction l2 as [|x l2 IH]; intros l1 s0; [done|].
    cbn [length seq forM].
    rewrite (list_lookup_middle l1 l2 x (length l1) eq_refl).
    change (mret (default VUndefined (Some x))
            ≫= λ x0, observe' n x0 false ≫= λ _, mret ())
      with (observe' n x false ≫= λ _ : option ob_ref, mret tt).
    unfold bind at 1 2.
    destruct ((observe' n x false ≫= λ _, mret ()) s0) as [s1 [[]| |]];
      [|done..].
    specialize (IH (l1 ++ [x]) s1).
    rewrite length_app in IH. simpl in IH.
    rewrite Nat.add_1_r, <- app_assoc in IH. exact IH. }
  apply (Hgen items []).
Qed.

#[local] Arguments observe : simpl never.
#[local] Arguments get_prop : simpl never.

(** [observe] gives an unobserved, extensible plain object of primitive
    data an Observer, and keeps its class and its elements. *)
Lemma observe_flat_promotes n a o s :
  serverRendering = false → shouldObserve s = true →
  heap s !! a = Some o → o_class o = CPlain → o_ob o = None →
  o_extensible o = true → flat_object o →
  (∀ p v, lookup_prop o (KStr "_isVue") = Some p → p_kind p = PData v →
          truthy v = false) →
  ∃ s' o',
    observe' (S (S n)) (VObj a) false s
    = (s', Ok (Some (ObRef a (dep_uid s))))
    ∧ observation_frame s s'
    ∧ heap s' = <[a := o']> (heap s)
    ∧ o_ob o' = Some (ObRef a (dep_uid s))
    ∧ o_class o' = o_class o ∧ o_elems o' = o_elems o.
Proof.
  intros Hsr Hso Ho Hcl Hob Hext Hflat Hvue.
  set (d := dep_uid s). set (r := ObRef a d).
  set (o1 := with_vmCount (λ _, 0) (with_ob (Some r) o)).
  set (s1 := set_heap (alter (λ o, with_vmCount (λ _, 0) (with_ob (Some r) o)) a)
               (set_dep_uid S s)).
  assert (Hh1 : heap s1 = <[a := o1]> (heap s)).
  { simpl.
    by apply (alter_lookup_insert
                (λ o, with_vmCount (λ _, 0) (with_ob (Some r) o))). }
  destruct (walk_flat serverRendering call n a o o1 d s s1) as
    (s2 & ps & Hwalk & Hfr & Hh2 & _);
    [done|done|done|done|done|simpl; lia|by repeat split|].
  assert (Hnv : o_class o ≠ CVNode) by (by rewrite Hcl).
  exists s2, (with_props (λ _, ps) o1). split_and!; [|done..].
  rewrite (observe_object serverRendering call _ _ _ o) by done.
  rewrite Hob. unfold mbind at 1 2 3, M_bind, bind at 1 2 3, gets.
  rewrite Hso, Hsr. unfold is_plain. rewrite Hcl, Hext.
  rewrite bool_decide_eq_true_2 by done. rewrite orb_true_r. simpl.
  assert (Hisv : read_isVue call (S n) (VObj a) s = (s, Ok false)).
  { unfold read_isVue, get_prop, mbind, M_bind, bind, gets. rewrite Ho.
    destruct (lookup_prop o (KStr "_isVue")) as [p|] eqn:Hp; [|done].
    destruct Hflat as [Hnd Hfl].
    destruct (Hfl _ p (assoc_elem_of _ _ _ Hp)) as (v & Hk & _).
    rewrite Hk. simpl. by rewrite (Hvue p v). }
  unfold mbind, M_bind, bind. rewrite Hisv.
  unfold new_Observer_with at 1, mbind, M_bind, bind, new_Dep, update_obj,
    modify, gets.
  change (ObRef a (dep_uid s)) with r. fold s1.
  rewrite Hh1, lookup_insert_eq.
  assert (HA : is_array o1 = false).
  { unfold is_array. simpl. by rewrite Hcl. }
  rewrite HA.
  unfold defineReactive in Hwalk. rewrite Hsr in Hwalk.
  by rewrite Hwalk.
Qed.

(** The promotion of the inserted elements. *)
Lemma observeArray_promotes n ins s1 :
  serverRendering = false → shouldObserve s1 = true →
  Forall (promotable s1) ins →
  ∃ s2, observeArray' (S (S n)) ins s1 = (s2, Ok tt)
    ∧ observation_frame s1 s2
    ∧ (∀ b, heap s1 !! b = None → heap s2 !! b = None)
    ∧ (∀ b o, heap s1 !! b = Some o →
         ∃ o2, heap s2 !! b = Some o2
           ∧ o_class o2 = o_class o ∧ o_elems o2 = o_elems o
           ∧ (VObj b ∈ ins → is_Some (o_ob o2))
           ∧ (VObj b ∉ ins ∨ is_Some (o_ob o) → o2 = o)).
Proof.
  intros Hsr Hso Hins.
  set (Inv := λ (D : list value) (si : St),
    observation_frame s1 si
    ∧ (∀ b, heap s1 !! b = None → heap si !! b = None)
    ∧ (∀ b o, heap s1 !! b = Some o →
         ∃ o2, heap si !! b = Some o2
           ∧ o_class o2 = o_class o ∧ o_elems o2 = o_elems o
           ∧ (VObj b ∈ D → is_Some (o_ob o2))
           ∧ (VObj b ∉ D ∨ is_Some (o_ob o) → o2 = o))).
  destruct (forM_visited Inv (λ x, observe' (S (S n)) x false;; mret tt)
              ins s1) as (s2 & Hrun & HInv).
  - split_and!; [apply observation_frame_refl|done|].
    intros b o Ho. exists o. split_and!; try done.
    by intros ?%elem_of_nil.
  - intros l1 x l2 si Hl (Hfr & Hnone & Hobj).
    assert (Hx : promotable s1 x).
    { eapply Forall_forall; [exact Hins|].
      rewrite Hl. apply elem_of_app. right. by left. }
    destruct (decide (isObject x = false)) as [Hprim|Hisobj].
    + exists si. split.
      * unfold mbind, M_bind, bind.
        by rewrite (observe_non_object serverRendering call).
      * split_and!; [done..|].
        intros b o Ho. destruct (Hobj b o Ho) as (o2 & H1 & H2 & H3 & H4 & H5).
        exists o2. split_and!; try done.
        -- intros [?|Hb%list_elem_of_singleton]%elem_of_app; [by apply H4|].
           by subst x.
        -- intros [Hn|Hs]; apply H5; [left|by right].
           intros Hin. apply Hn, elem_of_app. by left.
    + destruct x as [| | | | |b0]; try done.
      destruct Hx as (o0 & Ho0 & Hcl0 & Hflat0).
      destruct (Hobj b0 o0 Ho0) as (o2 & Ho2 & Hc2 & He2 & Hin2 & Hsame2).
      destruct (o_ob o2) as [r0|] eqn:Hob2.
      * exists si. split.
        -- unfold mbind, M_bind, bind.
           rewrite (observe_object serverRendering call _ _ _ o2)
             by (by rewrite ?Hc2).
           rewrite Hob2. done.
        -- split_and!; [done..|].
           intros b o Ho.
           destruct (Hobj b o Ho) as (o3 & H1 & H2 & H3 & H4 & H5).
           exists o3. split_and!; try done.
           ++ intros [?|Hb%list_elem_of_singleton]%elem_of_app; [by apply H4|].
              injection Hb as ->. simplify_eq. by rewrite Hob2.
           ++ intros [Hn|Hs]; apply H5; [left|by right].
              intros Hin. apply Hn, elem_of_app. by left.
      * assert (Hnew : VObj b0 ∉ l1).
        { intros Hin. destruct (Hin2 Hin) as [? ?]. done. }
        assert (o2 = o0) as -> by (apply Hsame2; by left).
        destruct (Hflat0 Hob2) as (Hpl & Hext & Hfl & Hvue).
        assert (Hsoi : shouldObserve si = true).
        { destruct Hfr as (_ & _ & _ & -> & _). done. }
        destruct (observe_flat_promotes n b0 o0 si)
          as (s' & o' & Hobs & Hfr' & Hh' & Hob' & Hcl' & Hel');
          [done..|].
        exists s'. split.
        -- unfold mbind, M_bind, bind. by rewrite Hobs.
        -- split_and!.
           ++ by apply (observation_frame_trans s1 si).
           ++ intros b Hb. rewrite Hh'.
              rewrite lookup_insert_ne by (intros ->; by rewrite Ho0 in Hb).
              by apply Hnone.
           ++ intros b o Ho. rewrite Hh'.
              destruct (decide (b = b0)) as [->|Hne].
              ** rewrite lookup_insert_eq. exists o'. simplify_eq.
                 split_and!; [done| | | |].
                 --- done.
                 --- done.
                 --- intros _. by rewrite Hob'.
                 --- intros [Hn|[? Hs]]; [|by rewrite Hob2 in Hs].
                     exfalso. apply Hn, elem_of_app. right. by left.
              ** rewrite lookup_insert_ne by done.
                 destruct (Hobj b o Ho) as (o3 & H1 & H2 & H3 & H4 & H5).
                 exists o3. split_and!; try done.
                 --- intros [?|Hb%list_elem_of_singleton]%elem_of_app;
                       [by apply H4|].
                     by injection Hb as ->.
                 --- intros [Hn|Hs]; apply H5; [left|by right].
                     intros Hin. apply Hn, elem_of_app. by left.
  - exists s2. split; [by rewrite observeArray_as_loop|exact HInv].
Qed.

(** C4.  Each of the seven intercepted methods first runs the original
    array operation and, if that throws, does nothing else.  On the store
    the operation leaves, it promotes the inserted elements (all arguments
    for [push] and [unshift], the arguments after the first two for
    [splice], nothing for the others) and then calls [notify] of the Dep of
    the array's Observer, returning the original result.  When the inserted
    elements are primitives, observed objects or plain objects of primitive
    data, the promotion returns; afterwards every inserted object has an
    Observer, the objects that were observed and those not inserted are as
    the operation left them, the array among them, and only the heap, the
    cells and the id counters have changed.  [notify] runs on that store:
    when all subscribers of the array are lazy watchers, the call returns
    with every one of them marked dirty and nothing else changed; a single
    subscriber that is not lazy is run at once when it is synchronous and
    queued otherwise. *)
Theorem mutator_mutates_then_notifies n m a args s s1 :
  m ∈ methodsToPatch
  ∧ inserted m args =
      match m with
      | Push | Unshift => Some args
      | Splice => Some (drop 2 args)
      | Pop | Shift | Sort | Reverse => None
      end
  ∧ (∀ result ob,
       original' m a args s = (s1, Ok result) →
       heap s1 !! a ≫= o_ob = Some ob →
       mutator' n m a args s =
         (match inserted m args with
          | Some ins => observeArray' n ins
          | None => mret tt
          end;;
          Dep_notify' n (ob_dep ob);;
          mret result) s1)
  ∧ (∀ e, original' m a args s = (s1, Throw e) →
          mutator' n m a args s = (s1, Throw e))
  ∧ (∀ result ob,
       original' m a args s = (s1, Ok result) →
       heap s1 !! a ≫= o_ob = Some ob →
       serverRendering = false → shouldObserve s1 = true → 2 ≤ n →
       let ins := default [] (inserted m args) in
       let d := ob_dep ob in
       Forall (promotable s1) ins →
       ∃ s2,
         mutator' n m a args s = (Dep_notify' n d;; mret result) s2
         ∧ observation_frame s1 s2
         ∧ heap s2 !! a = heap s1 !! a
         ∧ (∀ b o, heap s1 !! b = Some o →
              ∃ o2, heap s2 !! b = Some o2
                ∧ o_class o2 = o_class o ∧ o_elems o2 = o_elems o
                ∧ (VObj b ∈ ins → is_Some (o_ob o2))
                ∧ (VObj b ∉ ins ∨ is_Some (o_ob o) → o2 = o))
         ∧ ((∀ w, w ∈ dep_subs s1 d →
                  ∃ W, watchers s1 !! w = Some W ∧ w_lazy W = true) →
            ∃ s3, mutator' n m a args s = (s3, Ok result)
              ∧ s3 = set_watchers (λ _, watchers s3) s2
              ∧ ∀ w, watchers s3 !! w =
                     if decide (w ∈ dep_subs s1 d)
                     then set_dirty true <$> watchers s1 !! w
                     else watchers s1 !! w)
         ∧ (∀ w W, dep_subs s1 d = [w] → watchers s1 !! w = Some W →
              w_lazy W = false →
              mutator' n m a args s
              = ((if w_sync W then Watcher_run call n w else queueWatcher w);;
                 mret result) s2)).
Proof.
  assert (Hseq : ∀ result ob,
       original' m a args s = (s1, Ok result) →
       heap s1 !! a ≫= o_ob = Some ob →
       mutator' n m a args s =
         (match inserted m args with
          | Some ins => observeArray' n ins
          | None => mret tt
          end;;
          Dep_notify' n (ob_dep ob);;
          mret result) s1).
  { intros result ob Horig Hob.
    unfold mutator, mbind, M_bind, bind, gets.
    rewrite Horig. unfold mbind in Hob. by rewrite Hob. }
  split_and!.
  - unfold methodsToPatch. destruct m; set_solver.
  - by destruct m.
  - exact Hseq.
  - intros e Horig.
    unfold mutator, mbind, M_bind, bind.
    by rewrite Horig.
  - intros result ob Horig Hob Hsr Hso Hn ins d Hins.
    destruct n as [|[|n2]]; [lia..|].
    destruct (observeArray_promotes n2 ins s1 Hsr Hso Hins)
      as (s2 & Hrun & Hfr & Hnone & Hobj).
    assert (Hprom : (match inserted m args with
                     | Some ins => observeArray' (S (S n2)) ins
                     | None => mret tt
                     end) s1 = (s2, Ok tt)).
    { unfold ins in Hrun. destruct (inserted m args) as [l|]; [done|].
      simpl in Hrun. by rewrite observeArray_as_loop in Hrun. }
    assert (Hmut : mutator' (S (S n2)) m a args s
                   = (Dep_notify' (S (S n2)) d;; mret result) s2).
    { rewrite (Hseq result ob Horig Hob).
      unfold mbind at 1, M_bind at 1, bind at 1. by rewrite Hprom. }
    assert (Hsubs : dep_subs s2 d = dep_subs s1 d).
    { unfold dep_subs. by destruct Hfr as (-> & _). }
    assert (Hws : watchers s2 = watchers s1).
    { by destruct Hfr as (_ & _ & -> & _). }
    exists s2. split_and!.
    + done.
    + done.
    + destruct (heap s1 !! a) as [o|] eqn:Ho; [|done].
      destruct (Hobj a o Ho) as (o2 & Ho2 & _ & _ & _ & Hsame).
      rewrite Ho2, Hsame; [done|]. right. simpl in Hob. by rewrite Hob.
    + done.
    + intros Hlazy.
      destruct (update_lazy_loop call queueWatcher (S (S n2)) (dep_subs s1 d) s2)
        as (s3 & Hloop & Hfr3 & Hw3).
      { intros w Hw. rewrite Hws. by apply Hlazy. }
      exists s3. split_and!.
      * rewrite Hmut. unfold Dep_notify, mbind, M_bind, bind, gets.
        rewrite Hsubs. by rewrite Hloop.
      * done.
      * intros w. rewrite Hw3. by rewrite Hws.
    + intros w W Hone HW Hl. rewrite Hmut.
      unfold Dep_notify, mbind, M_bind, bind, gets. rewrite Hsubs, Hone.
      simpl. unfold bind, Watcher_update, mbind, M_bind, bind, the_watcher.
      rewrite Hws, HW, Hl.
      destruct (w_sync W).
      * by destruct (Watcher_run call (S (S n2)) w s2) as [? [[]| |]].
      * by destruct (queueWatcher w s2) as [? [[]| |]].
Qed.

End Interception.

(** ** The properties on concrete stores *)

Lemma addDep_subscribes_at_most_once_witness :
  reachable one_dependency
  ∧ watchers one_dependency !! 1 = Some one_dependency_watcher
  ∧ (Watcher_addDep 1 7 one_dependency).1 = one_dependency
  ∧ NoDup (dep_subs one_dependency 7).
Proof.
  assert (Hr : reachable one_dependency).
  { apply reach_addDep, reach_new_watcher;
      [apply reach_init|reflexivity|by split_and!]. }
  assert (HW : watchers one_dependency !! 1 = Some one_dependency_watcher)
    by (vm_compute; reflexivity).
  pose proof (addDep_subscribes_at_most_once one_dependency 1 _ 7 Hr HW)
    as (H1 & _ & _ & _ & H5).
  split_and!; [done|done| |apply H5].
  apply H1. simpl. set_solver.
Defined.

(** C1 fails as stated: on a field that had a getter and no setter, writing
    a value that differs from the current one stores nothing and notifies
    nobody, whereas a notification would have marked the subscribed lazy
    watcher dirty. *)
Lemma reactiveSetter_getter_only_counterexample :
  unchanged (VNum (Fin 2)) (VNum (Fin 1)) = false
  ∧ (reactiveGetter getter_calls 3 0 getter_only_store).2 = Ok (VNum (Fin 1))
  ∧ reactiveSetter false false getter_calls no_queue 3 0 (VNum (Fin 2))
      getter_only_store = (getter_only_store, Ok tt)
  ∧ dep_subs getter_only_store 0 = [1]
  ∧ w_dirty <$> watchers getter_only_store !! 1 = Some false
  ∧ w_dirty <$> watchers
      (Dep_notify getter_calls no_queue 3 0 getter_only_store).1 !! 1
    = Some true
  ∧ reactiveSetter false false getter_calls no_queue 3 0 (VNum (Fin 2))
      getter_only_store
    ≠ write_as_specified false getter_calls no_queue 2 0 (VNum (Fin 2))
        getter_only_store.
Proof.
  split_and!; by vm_compute.
Qed.

Lemma reactiveSetter_write_witness :
  cells data_store !! 0 = Some data_cell
  ∧ current_value no_calls 1 data_cell data_store = (data_store, Ok (VNum (Fin 1)))
  ∧ unchanged (VNum (Fin 2)) (VNum (Fin 1)) = false
  ∧ reactiveSetter false false no_calls no_queue 2 0 (VNum (Fin 2)) data_store
    = Dep_notify no_calls no_queue 1 0
        (set_cells (alter (with_childOb None) 0)
           (set_cells (alter (with_val (VNum (Fin 2))) 0) data_store)).
Proof.
  assert (HC : cells data_store !! 0 = Some data_cell) by (by vm_compute).
  assert (Hcur : current_value no_calls 1 data_cell data_store
                 = (data_store, Ok (VNum (Fin 1)))) by done.
  split_and!; [done..|].
  destruct (reactiveSetter_write false false no_calls no_queue 1 0 data_cell
              (VNum (Fin 2)) data_store data_store (VNum (Fin 1)) HC Hcur)
    as (_ & _ & H3).
  destruct H3 as (_ & _ & H3); [done..|].
  by apply H3.
Defined.

(** C2: the evaluation that the code does not reconcile.  The deep traversal
    reads the property whose getter throws; the exception leaves the
    [finally] block before [popTarget] and [cleanupDeps]: the watcher stays
    on the target stack, stays subscribed to the Dep [9] that the evaluation
    did not read, keeps its collections unswapped, and the seen-set is not
    cleared. *)
Theorem Watcher_get_skips_cleanup_when_traverse_throws :
  let r := Watcher_get throwing_calls 5 1 deep_throw_store in
  r.2 = Throw (VStr "boom")
  ∧ targetStack deep_throw_store = [] ∧ targetStack r.1 = [1]
  ∧ dep_subs r.1 9 = [1]
  ∧ (λ W, (w_deps W, w_newDeps W)) <$> watchers r.1 !! 1 = Some ([9], [7])
  ∧ elements (seenObjects r.1) = [3].
Proof. by vm_compute. Qed.

Lemma mutator_mutates_then_notifies_witness :
  original keep_order no_integer Push 0 [VObj 1; VNum (Fin 2)]
    watched_array_store
    = (watched_array_pushed, Ok (VNum (Fin 3)))
  ∧ heap watched_array_pushed !! 0 ≫= o_ob = Some (ObRef 0 2)
  ∧ heap watched_array_pushed !! 1 ≫= o_ob = None
  ∧ Forall (promotable watched_array_pushed) [VObj 1; VNum (Fin 2)]
  ∧ dep_subs watched_array_pushed 2 = [1]
  ∧ w_dirty <$> watchers watched_array_pushed !! 1 = Some false
  ∧ ∃ s3,
      mutator false no_calls no_queue keep_order no_integer 2 Push 0
        [VObj 1; VNum (Fin 2)] watched_array_store
      = (s3, Ok (VNum (Fin 3)))
      ∧ o_elems <$> heap s3 !! 0
        = Some [VNum (Fin 1); VObj 1; VNum (Fin 2)]
      ∧ (∃ o2, heap s3 !! 1 = Some o2 ∧ is_Some (o_ob o2))
      ∧ w_dirty <$> watchers s3 !! 1 = Some true.
Proof.
  assert (H1 : original keep_order no_integer Push 0 [VObj 1; VNum (Fin 2)]
                 watched_array_store
               = (watched_array_pushed, Ok (VNum (Fin 3))))
    by (by vm_compute).
  assert (H2 : heap watched_array_pushed !! 0 ≫= o_ob = Some (ObRef 0 2))
    by (by vm_compute).
  assert (Hy : heap watched_array_pushed !! 1
               = Some (plain_object [(KStr "y", data_prop (VNum (Fin 1)))]))
    by (by vm_compute).
  assert (H3 : Forall (promotable watched_array_pushed)
                 [VObj 1; VNum (Fin 2)]).
  { repeat constructor.
    exists (plain_object [(KStr "y", data_prop (VNum (Fin 1)))]).
    split_and!; [done|done|]. intros _. split_and!; [done|done| |done].
    split; [apply NoDup_singleton|].
    intros k p [= -> ->]%list_elem_of_singleton. by exists (VNum (Fin 1)). }
  split_and!; [done|done|by vm_compute|done|by vm_compute|by vm_compute|].
  destruct (mutator_mutates_then_notifies false no_calls no_queue keep_order
              no_integer 2 Push 0 [VObj 1; VNum (Fin 2)] watched_array_store
              watched_array_pushed) as (_ & _ & _ & _ & H).
  destruct (H _ _ H1 H2) as (s2 & _ & _ & Harr & Hobj & Hlazy & _);
    [done|done|lia|done|].
  destruct Hlazy as (s3 & Hrun & Hfr & Hws).
  { intros w Hw. exists (set_dirty false
                           (set_tracking [2] [] {[2]} ∅
                              (new_watcher 3 4 false false true false))).
    assert (w = 1) as ->; [|by vm_compute].
    assert (Hs : dep_subs watched_array_pushed 2 = [1]) by (by vm_compute).
    simpl in Hw. rewrite Hs in Hw. by apply list_elem_of_singleton in Hw. }
  destruct (Hobj 1 _ Hy) as (o2 & Ho2 & _ & _ & Hpromoted & _).
  exists s3. split_and!.
  - done.
  - rewrite Hfr. simpl. rewrite Harr. by vm_compute.
  - exists o2. rewrite Hfr. simpl. split; [done|].
    apply Hpromoted. simpl. by left.
  - rewrite Hws. by vm_compute.
Defined.

Lemma Watcher_run_fires_iff_witness :
  watchers run_store !! 1
    = Some (set_value (VNum (Fin 4)) (new_watcher 1 2 false false false false))
  ∧ Watcher_get run_calls 3 1 run_store = (run_store_1, Ok (VNum (Fin 5)))
  ∧ Watcher_run run_calls 3 1 run_store
    = (run_calls 2 VUndefined [VNum (Fin 5); VNum (Fin 4)];; mret tt)
        (set_watchers (alter (set_value (VNum (Fin 5))) 1) run_store_1)
  ∧ log (Watcher_run run_calls 3 1 run_store).1 = [EvWarn "callback"].
Proof.
  assert (HW : watchers run_store !! 1
    = Some (set_value (VNum (Fin 4)) (new_watcher 1 2 false false false false)))
    by (by vm_compute).
  assert (Hget : Watcher_get run_calls 3 1 run_store
                 = (run_store_1, Ok (VNum (Fin 5)))) by (by vm_compute).
  assert (HW1 : watchers run_store_1 !! 1
    = Some (set_value (VNum (Fin 4)) (new_watcher 1 2 false false false false)))
    by (by vm_compute).
  split_and!; [done|done| |by vm_compute].
  destruct (Watcher_run_fires_iff run_calls 3 1 run_store _ HW) as [_ H].
  destruct (H eq_refl _ _ _ Hget HW1) as [_ Hfire].
  apply Hfire. reflexivity.
Defined.

Lemma tracking_ok_stale_store : tracking_ok stale_store.
Proof.
  apply tracking_ok_cleanupDeps, tracking_ok_addDep, tracking_ok_cleanupDeps,
    tracking_ok_addDep, tracking_ok_new_watcher;
    [|reflexivity|by split_and!].
  apply tracking_ok_new_watcher; [apply tracking_ok_init|reflexivity|].
  by split_and!.
Qed.

Lemma tracking_ok_stale_read w : tracking_ok (stale_read w).
Proof.
  apply tracking_ok_addDep.
  apply (tracking_ok_other stale_store);
    [apply tracking_ok_stale_store|reflexivity|].
  intros v. apply same_tracking_refl.
Qed.

Lemma Watcher_errors_are_routed_witness :
  (watchers stale_store !! 1
     = Some (set_tracking [9] [] {[9]} ∅
               (new_watcher 1 3 false true false false))
   ∧ dep_subs stale_store 9 = [1; 2]
   ∧ stale_calls 1 VUndefined [VUndefined]
       (set_targetStack (cons 1) stale_store)
     = (stale_read 1, Throw (VStr "boom"))
   ∧ ∃ s', Watcher_get stale_calls 1 1 stale_store = (s', Ok VUndefined)
       ∧ log s' = [EvHandleError (VStr "boom") "getter for watcher w"]
       ∧ targetStack s' = []
       ∧ w_deps <$> watchers s' !! 1 = Some [7]
       ∧ (1 ∉ dep_subs s' 9) ∧ dep_subs s' 7 = [1])
  ∧ (watchers stale_store !! 2
       = Some (set_tracking [9] [] {[9]} ∅
                 (new_watcher 1 3 false false false false))
     ∧ ∃ s', Watcher_get stale_calls 1 2 stale_store
             = (s', Throw (VStr "boom"))
         ∧ log s' = [] ∧ targetStack s' = []
         ∧ w_deps <$> watchers s' !! 2 = Some [7]
         ∧ (2 ∉ dep_subs s' 9) ∧ dep_subs s' 7 = [2])
  ∧ (watchers run_store !! 3 = Some (new_watcher 1 3 false true false false)
     ∧ Watcher_get run_calls 3 3 run_store = (run_store_3, Ok (VNum (Fin 5)))
     ∧ Watcher_run run_calls 3 3 run_store
       = (add_log (EvHandleError (VStr "boom") "callback for watcher w")
            (set_watchers (alter (set_value (VNum (Fin 5))) 3) run_store_3),
          Ok tt)).
Proof.
  destruct (Watcher_errors_are_routed stale_calls 0 1) as [Huser _].
  destruct (Watcher_errors_are_routed stale_calls 0 2) as [Hinternal _].
  destruct (Watcher_errors_are_routed run_calls 3 3) as [_ Hrun].
  split_and!.
  - by vm_compute.
  - by vm_compute.
  - by vm_compute.
  - assert (HW : watchers stale_store !! 1
                 = Some (set_tracking [9] [] {[9]} ∅
                           (new_watcher 1 3 false true false false)))
      by (by vm_compute).
    assert (Hc : stale_calls 1 VUndefined [VUndefined]
                   (set_targetStack (cons 1) stale_store)
                 = (stale_read 1, Throw (VStr "boom"))) by (by vm_compute).
    assert (HW1 : watchers (stale_read 1) !! 1
                  = Some (set_tracking [9] [7] {[9]} {[7]}
                            (new_watcher 1 3 false true false false)))
      by (by vm_compute).
    destruct (Huser stale_store _ _ _ _ HW Hc HW1)
      as (s' & Hget & _ & Hfr & Hws & Hrec).
    destruct (Hrec (ok_subs _ (tracking_ok_stale_read 1)))
      as (_ & Hgone & Hkept).
    exists s'. split_and!.
    + done.
    + rewrite Hfr. by vm_compute.
    + rewrite Hfr. by vm_compute.
    + rewrite Hws, lookup_insert_eq. done.
    + apply Hgone; simpl; [by left|]. rewrite elem_of_singleton. lia.
    + rewrite Hkept by (simpl; by apply elem_of_singleton). by vm_compute.
  - by vm_compute.
  - assert (HW : watchers stale_store !! 2
                 = Some (set_tracking [9] [] {[9]} ∅
                           (new_watcher 1 3 false false false false)))
      by (by vm_compute).
    assert (Hc : stale_calls 1 VUndefined [VUndefined]
                   (set_targetStack (cons 2) stale_store)
                 = (stale_read 2, Throw (VStr "boom"))) by (by vm_compute).
    assert (HW1 : watchers (stale_read 2) !! 2
                  = Some (set_tracking [9] [7] {[9]} {[7]}
                            (new_watcher 1 3 false false false false)))
      by (by vm_compute).
    destruct (Hinternal stale_store _ _ _ _ HW Hc HW1)
      as (s' & Hget & _ & Hfr & Hws & Hrec).
    destruct (Hrec (ok_subs _ (tracking_ok_stale_read 2)))
      as (_ & Hgone & Hkept).
    exists s'. split_and!.
    + done.
    + rewrite Hfr. by vm_compute.
    + rewrite Hfr. by vm_compute.
    + rewrite Hws, lookup_insert_eq. done.
    + apply Hgone; simpl; [by left|]. rewrite elem_of_singleton. lia.
    + rewrite Hkept by (simpl; by apply elem_of_singleton). by vm_compute.
  - by vm_compute.
  - by vm_compute.
  - assert (HW : watchers run_store !! 3
                 = Some (new_watcher 1 3 false true false false))
      by (by vm_compute).
    assert (Hg : Watcher_get run_calls 3 3 run_store
                 = (run_store_3, Ok (VNum (Fin 5)))) by (by vm_compute).
    assert (HW1 : watchers run_store_3 !! 3
                 = Some (new_watcher 1 3 false true false false))
      by (by vm_compute).
    apply (Hrun run_store _ run_store_3 (VNum (Fin 5)) _
             (set_watchers (alter (set_value (VNum (Fin 5))) 3) run_store_3)
             (VStr "boom") HW eq_refl Hg HW1 eq_refl eq_refl).
    done.
Defined.

(** C7 fails as stated: on [undefined], [set] does not refuse silently but
    throws a [TypeError] after its diagnostic, and so does [del]; and on a
    Vue instance, [set] of a key the instance already has assigns the value
    without any diagnostic. *)
Lemma set_del_counterexample :
  set false false no_calls no_queue keep_order no_inherited no_keys no_integer
    1 VUndefined (KStr "x") (VNum (Fin 1)) init_store
  = (add_log (EvWarn msg_set_primitive) init_store, Throw TypeError)
  ∧ del false false no_calls no_queue keep_order no_integer
      1 VUndefined (KStr "x") init_store
    = (add_log (EvWarn msg_del_primitive) init_store, Throw TypeError)
  ∧ (let r := set false false no_calls no_queue keep_order no_inherited
                no_keys no_integer 1 (VObj 0) (KStr "count") (VNum (Fin 5))
                vue_store in
     r.2 = Ok (VNum (Fin 5)) ∧ log r.1 = []
     ∧ (heap vue_store !! 0 ≫= λ o, lookup_prop o (KStr "count"))
       = Some (data_prop (VNum (Fin 0)))
     ∧ (heap r.1 !! 0 ≫= λ o, lookup_prop o (KStr "count"))
       = Some (data_prop (VNum (Fin 5)))).
Proof. vm_compute. repeat split. Qed.

Lemma set_del_refusals_witness :
  (isUndef VNull || isPrimitive VNull = true
   ∧ set false false no_calls no_queue keep_order no_inherited no_keys
       no_integer 1 VNull (KStr "x") VNull init_store
     = (add_log (EvWarn msg_set_primitive) init_store, Throw TypeError))
  ∧ (heap root_store !! 0
       = Some (Obj CPlain [] [] true false (Some (ObRef 0 2)) 1 false)
     ∧ read_isVue no_calls 1 (VObj 0) root_store = (root_store, Ok false)
     ∧ del false false no_calls no_queue keep_order no_integer 1 (VObj 0)
         (KStr "x") root_store
       = (add_log (EvWarn msg_del_root) root_store, Ok tt)
     ∧ set false false no_calls no_queue keep_order no_inherited no_keys
         no_integer 1 (VObj 0) (KStr "x") VNull root_store
       = (add_log (EvWarn msg_set_root) root_store, Ok VNull))
  ∧ (heap array_store !! 0
       = Some (Obj CArray [] [VNum (Fin 1)] true false (Some (ObRef 0 2)) 0 true)
     ∧ set false false no_calls no_queue keep_order no_inherited no_keys
         no_integer 2 (VObj 0) (KIdx 0) VNull array_store
       = (set_length 0 1;;
          mutator false no_calls no_queue keep_order no_integer 2 Splice 0
            [VNum (Fin 0); VNum (Fin 1); VNull];;
          mret VNull) array_store).
Proof.
  split; [|split].
  - split; [done|].
    destruct (set_del_refusals false false no_calls no_queue keep_order
                no_inherited no_keys no_integer 1) as (H & _).
    by apply H.
  - assert (Ho : heap root_store !! 0
       = Some (Obj CPlain [] [] true false (Some (ObRef 0 2)) 1 false))
      by (by vm_compute).
    assert (Hv : read_isVue no_calls 1 (VObj 0) root_store
                 = (root_store, Ok false)) by (by vm_compute).
    destruct (set_del_refusals false false no_calls no_queue keep_order
                no_inherited no_keys no_integer 1) as (_ & _ & H & _).
    destruct (H 0 _ (KStr "x") VNull root_store false Ho eq_refl Hv eq_refl)
      as [Hdel Hset].
    split_and!; [done|done|apply Hdel|by apply Hset].
  - assert (Ho : heap array_store !! 0
       = Some (Obj CArray [] [VNum (Fin 1)] true false (Some (ObRef 0 2)) 0 true))
      by (by vm_compute).
    split; [done|].
    destruct (set_del_refusals false false no_calls no_queue keep_order
                no_inherited no_keys no_integer 2) as (_ & _ & _ & H).
    apply (H 0 _ 0 VNull array_store Ho eq_refl eq_refl).
Defined.

(** C8 fails as stated: where the platform has no [Promise], [nextTick]
    without a callback returns [undefined], and its queue entry resolves
    nothing. *)
Lemma nextTick_without_Promise_counterexample :
  nextTick false None VNull init_store
  = (add_log EvTimer
       (set_pending true
          (set_callbacks (λ _, [Tick None VNull None]) init_store)),
     Ok None).
Proof. by vm_compute. Qed.

Lemma nextTick_drain_contract_witness :
  (tick_calls 3 VNull [] init_store = (init_store, Throw (VStr "boom"))
   ∧ run_tick tick_calls (Tick (Some 3) VNull None) init_store
     = (add_log (EvHandleError (VStr "boom") "nextTick") init_store, Ok tt))
  ∧ (callbacks one_tick = [Tick (Some 1) VUndefined None]
     ∧ ∃ s', flushCallbacks tick_calls one_tick = (s', Ok tt)
             ∧ callbacks s' = [Tick (Some 2) VNull None]
             ∧ pending s' = true
             ∧ log s' = log one_tick ++ [EvTimer])
  ∧ (∃ s', nextTick true None VNull init_store = (s', Ok (Some 0))
           ∧ promises s' !! 0 = Some None
           ∧ (promises s' !! 0 = Some None →
              ∃ s3, run_tick tick_calls (Tick None VNull (Some 0)) s' = (s3, Ok tt)
                    ∧ promises s3 !! 0 = Some (Some VNull))).
Proof.
  destruct (nextTick_drain_contract true tick_calls)
    as (_ & _ & H3 & _ & H5 & H6).
  split; [|split].
  - split; [done|]. by apply H3.
  - split; [done|]. apply (H5 one_tick 1 VUndefined 2 VNull); [done|].
    intros s0. reflexivity.
  - destruct (H6 eq_refl VNull init_store) as (s' & Hn & Hp & Hr).
    exists s'. split_and!; [done|done|]. intros Hp'. by apply Hr.
Defined.

Lemma getter_only_field_stays_read_only_witness :
  heap accessor_object !! 0
    = Some (plain_object [(KStr "x", Prop_ (PAccessor (Some 1) None) true true)])
  ∧ ∃ s',
      defineReactive false getter_calls 1 0 (KStr "x") None None false
        accessor_object = (s', Ok tt)
      ∧ getter_calls 1 (VObj 0) [] s' = (s', Ok (VNum (Fin 1)))
      ∧ reactiveGetter getter_calls 2 0 s' = (s', Ok (VNum (Fin 1)))
      ∧ reactiveSetter false false getter_calls no_queue 2 0 (VNum (Fin 2)) s'
        = (s', Ok tt).
Proof.
  assert (Ho : heap accessor_object !! 0
    = Some (plain_object [(KStr "x", Prop_ (PAccessor (Some 1) None) true true)]))
    by (by vm_compute).
  split; [done|].
  destruct (getter_only_field_stays_read_only false false getter_calls no_queue
              0 0 (KStr "x") 1 None _ _ accessor_object Ho eq_refl eq_refl
              eq_refl)
    as (_ & Hget & Hdef & _ & Hset).
  destruct (Hdef eq_refl) as (s' & Hrun & Hcell).
  exists s'. split_and!; [done|done| |].
  - rewrite (Hget 0 1 s' _ Hcell eq_refl eq_refl).
    assert (Hs' : s' = (defineReactive false getter_calls 1 0 (KStr "x") None
                          None false accessor_object).1) by (by rewrite Hrun).
    rewrite Hs'. by vm_compute.
  - apply (Hset 0 1 s' _ s' (Ok (VNum (Fin 1))) (VNum (Fin 2)) Hcell);
      reflexivity.
Defined.

Lemma traverse_loops_on_vue_instance n :
  _traverse no_calls n (VObj 0) vue_store = (vue_store, Diverge).
Proof.
  induction n as [|n IH]; [done|].
  simpl. unfold mbind, M_bind, bind, gets.
  replace (heap vue_store !! 0) with (Some vue_instance) by (by vm_compute).
  simpl. unfold traverse_children. simpl. unfold bind, mbind, M_bind, bind, gets.
  replace (heap vue_store !! 0) with (Some vue_instance) by (by vm_compute).
  simpl. destruct n as [|m]; [done|].
  rewrite traverse_non_object by done.
  remember (S m) as k.
  replace (heap vue_store !! 0) with (Some vue_instance) by (by vm_compute).
  simpl. by rewrite IH.
Qed.

(** C10 fails as stated: a Vue instance is never observed and refers to
    itself through [_self], so the traversal of a value that holds one
    descends without end: no recursion budget lets [traverse] return. *)
Lemma traverse_diverges_on_vue_instance :
  heap vue_store !! 0 = Some vue_instance
  ∧ ¬ ∃ n s' r, r ≠ Diverge ∧ traverse no_calls n (VObj 0) vue_store = (s', r).
Proof.
  split; [by vm_compute|].
  intros (n & s' & r & Hr & Ht).
  unfold traverse, mbind, M_bind, bind in Ht.
  rewrite traverse_loops_on_vue_instance in Ht. congruence.
Qed.

Lemma traverse_terminates_on_guarded_cycles_witness :
  (∀ a, flat a ≤ 0)
  ∧ plain_data cycle_store ∧ rank_ok cycle_store flat ∧ target_ok cycle_store
  ∧ traverse_fuel flat 0 cycle_store (VObj 0) ≤ 5
  ∧ ∃ s', traverse no_calls 5 (VObj 0) cycle_store = (s', Ok tt)
          ∧ seenObjects s' = ∅ ∧ heap s' = heap cycle_store.
Proof.
  assert (Hflat : ∀ a, flat a ≤ 0) by done.
  assert (Hpd : plain_data cycle_store).
  { intros a o k p Ho Hin. simpl in Ho. heap_cases Ho;
      apply list_elem_of_singleton in Hin; simplify_eq; by eexists. }
  assert (Hrk : rank_ok cycle_store flat).
  { split.
    - intros a o b Ho Hob. simpl in Ho. heap_cases Ho; done.
    - intros a o b o' Ho Hb. simpl in Ho. heap_cases Ho;
        by apply elem_of_nil in Hb. }
  assert (Htg : target_ok cycle_store) by (by intros w).
  assert (Hfuel : traverse_fuel flat 0 cycle_store (VObj 0) ≤ 5)
    by (vm_compute; lia).
  split_and!; [done..|].
  destruct (traverse_terminates_on_guarded_cycles no_calls flat 0 Hflat
              (VObj 0) cycle_store) as (_ & _ & _ & _ & H).
  apply (H Hpd Hrk Htg 5 Hfuel).
Defined.

(** ** The added properties on concrete stores *)

Lemma subscribed_init : subscribed init_store.
Proof. intros w W d H. simpl in H. by rewrite lookup_empty in H. Qed.

Lemma subscribed_new_watcher s w W :
  subscribed s → fresh_watcher W → subscribed (set_watchers <[w := W]> s).
Proof.
  intros Hs (_ & _ & Hd & Hn) v V d. simpl.
  destruct (decide (v = w)) as [->|Hne].
  - rewrite lookup_insert_eq. intros [= <-]. rewrite Hd, Hn. set_solver.
  - rewrite lookup_insert_ne by done. apply Hs.
Qed.

Lemma in_agreement_new_watcher s w W :
  in_agreement s → watchers s !! w = None → fresh_watcher W →
  in_agreement (set_watchers <[w := W]> s).
Proof.
  intros [Hok Hsub] Hw HW. split;
    [by apply tracking_ok_new_watcher|by apply subscribed_new_watcher].
Qed.

Lemma in_agreement_init : in_agreement init_store.
Proof. split; [apply tracking_ok_init|apply subscribed_init]. Qed.

Lemma in_agreement_one_dependency : in_agreement one_dependency.
Proof.
  apply in_agreement_addDep, in_agreement_new_watcher;
    [apply in_agreement_init|reflexivity|by split_and!].
Qed.

Lemma subscriptions_stay_in_agreement_witness :
  tracking_ok one_dependency ∧ subscribed one_dependency
  ∧ subscribed (Watcher_addDep 1 8 one_dependency).1
  ∧ subscribed (Watcher_cleanupDeps 1 one_dependency).1.
Proof.
  destruct in_agreement_one_dependency as [Hok Hsub].
  destruct (subscriptions_stay_in_agreement one_dependency 1 8 Hok Hsub)
    as (H1 & H2 & _).
  by split_and!.
Defined.

Lemma teardown_unsubscribes_witness :
  tracking_ok owned_store
  ∧ watchers owned_store !! 1
    = Some (set_tracking [7] [] {[7]} ∅ owned_watcher)
  ∧ dep_subs owned_store 7 = [1]
  ∧ ∃ s', teardown no_calls no_owner 1 1 owned_store = (s', Ok tt)
      ∧ (∀ d, 1 ∉ dep_subs s' d)
      ∧ teardown no_calls no_owner 1 1 s' = (s', Ok tt).
Proof.
  assert (Hok : tracking_ok owned_store).
  { apply (tracking_ok_other
             (Watcher_cleanupDeps 1
                (Watcher_addDep 1 7
                   (set_watchers <[1 := owned_watcher]> init_store)).1).1);
      [|reflexivity|intros w; apply same_tracking_refl].
    apply tracking_ok_cleanupDeps, tracking_ok_addDep,
      tracking_ok_new_watcher;
      [apply tracking_ok_init|reflexivity|by split_and!]. }
  assert (HW : watchers owned_store !! 1
               = Some (set_tracking [7] [] {[7]} ∅ owned_watcher))
    by (by vm_compute).
  destruct (teardown_unsubscribes no_calls no_owner 1 1 _ owned_store
              VUndefined owned_store Hok HW)
    as (s' & Hrun & _ & Hnone & _ & _ & Hagain); [done..|].
  split_and!; [done|done|by vm_compute|].
  exists s'. split_and!; [done| |done].
  by apply Hnone.
Defined.

Lemma Watcher_depend_records_witness :
  watchers depend_store !! 1 = Some (set_tracking [7] [] {[7]} ∅
                                       (new_watcher 1 2 false false false false))
  ∧ Dep_target depend_store = Some 2
  ∧ ∃ s' nd ni, Watcher_depend 1 depend_store = (s', Ok tt)
      ∧ watchers s' !! 2
        = Some (set_tracking [] nd ∅ ni (new_watcher 3 4 false false true false))
      ∧ (∀ d, d ∈ ni ↔ d = 7)
      ∧ dep_subs s' 7 = [1; 2].
Proof.
  assert (HW : watchers depend_store !! 1
               = Some (set_tracking [7] [] {[7]} ∅
                         (new_watcher 1 2 false false false false)))
    by (by vm_compute).
  split_and!; [done|done|].
  destruct (Watcher_depend_records 1 _ depend_store HW) as [_ H].
  destruct (H 2 (new_watcher 3 4 false false true false))
    as (s' & nd & ni & Hrun & _ & Hws & Hni & Hsubs); [done|by vm_compute|].
  exists s', nd, ni. split_and!.
  - done.
  - rewrite Hws. by rewrite lookup_insert_eq.
  - intros d. rewrite Hni. simpl. set_solver.
  - rewrite Hsubs. simpl. rewrite decide_True by set_solver. by vm_compute.
Defined.

Lemma observe_flat_object_witness :
  heap plain_store !! 0 = Some plain_y
  ∧ flat_object plain_y
  ∧ ∃ s' o', observe false no_calls 2 (VObj 0) true plain_store
             = (s', Ok (Some (ObRef 0 0)))
      ∧ heap s' = <[0 := o']> (heap plain_store)
      ∧ dep_uid s' = 2 ∧ o_vmCount o' = 1
      ∧ (∃ c, lookup_prop o' (KStr "y") = Some (Prop_ (PReactive c) true true)
              ∧ cells s' !! c
                = Some (Cell 0 (VNum (Fin 1)) None 1 None None false None)).
Proof.
  assert (Hflat : flat_object plain_y).
  { split; [apply NoDup_singleton|].
    intros k p [= -> ->]%list_elem_of_singleton. by exists (VNum (Fin 1)). }
  split_and!; [done|done|].
  destruct (observe_flat_object false no_calls 0 0 plain_y plain_store true)
    as (s' & o' & Hrun & _ & Hheap & Huid & _ & Hcount & _ & _ & _ & Hfield
        & _); [done..|].
  exists s', o'. split_and!; [done..|].
  destruct (Hfield 0 (KStr "y") (data_prop (VNum (Fin 1))) (VNum (Fin 1)))
    as (c & Hl & Hc & _); [done|apply list_elem_of_singleton; done|done..|].
  by exists c.
Defined.

Lemma defineReactive_data_field_witness :
  heap plain_store !! 0 = Some plain_y
  ∧ field_value plain_y (KStr "y") = Some (VNum (Fin 1))
  ∧ defineReactive false no_calls 1 0 (KStr "y") None None false plain_store
    = (instrumented 0 (KStr "y") (VNum (Fin 1)) None false plain_store, Ok tt).
Proof.
  split_and!; [done|done|].
  destruct (defineReactive_data_field false no_calls 1 0 (KStr "y") None None
              false plain_y (VNum (Fin 1)) plain_store) as (_ & _ & H);
    [done..|].
  apply H; [done|by right].
Defined.

Lemma reactiveGetter_subscribes_witness :
  cells tracked_data_store !! 0 = Some data_cell
  ∧ current_value no_calls 1 data_cell tracked_data_store
    = (tracked_data_store, Ok (VNum (Fin 1)))
  ∧ Dep_target tracked_data_store = Some 1
  ∧ ∃ s', reactiveGetter no_calls 2 0 tracked_data_store
          = (s', Ok (VNum (Fin 1)))
      ∧ dep_subs s' 0 = [1].
Proof.
  assert (HC : cells tracked_data_store !! 0 = Some data_cell)
    by (by vm_compute).
  assert (Hcur : current_value no_calls 1 data_cell tracked_data_store
                 = (tracked_data_store, Ok (VNum (Fin 1)))) by done.
  split_and!; [done..|].
  destruct (reactiveGetter_subscribes no_calls 1 0 data_cell
              tracked_data_store tracked_data_store (VNum (Fin 1)) HC Hcur)
    as [_ H].
  destruct (H 1 (new_watcher 1 2 true false false false))
    as (s' & nd & ni & Hrun & _ & _ & _ & Hsubs);
    [done|by vm_compute|done|by left|].
  exists s'. split; [done|].
  rewrite Hsubs. simpl. rewrite decide_True by set_solver. by vm_compute.
Defined.

Lemma traverse_subscribes_to_fields_witness :
  heap tracked_data_store !! 0 = Some reactive_y
  ∧ reactive_fields tracked_data_store reactive_y [0]
  ∧ Dep_target tracked_data_store = Some 1
  ∧ ∃ s', traverse no_calls 2 (VObj 0) tracked_data_store = (s', Ok tt)
      ∧ seenObjects s' = ∅
      ∧ dep_subs s' 0 = [1].
Proof.
  assert (Hh : heap tracked_data_store !! 0 = Some reactive_y)
    by (by vm_compute).
  assert (Hf : reactive_fields tracked_data_store reactive_y [0]).
  { unfold reactive_fields.
    assert (object_keys reactive_y = [KStr "y"]) as -> by (by vm_compute).
    repeat constructor.
    exists (Prop_ (PReactive 0) true true), 0, data_cell.
    split_and!; try done; by vm_compute. }
  split_and!; [done..|].
  destruct (traverse_subscribes_to_fields no_calls 0 0 reactive_y [0] 1
              (new_watcher 1 2 true false false false) tracked_data_store)
    as (s' & nd & ni & Hrun & Hseen & _ & _ & _ & _ & Hsubs);
    [done..|by vm_compute|].
  exists s'. split_and!; [done..|].
  rewrite Hsubs. simpl. rewrite decide_True by set_solver. by vm_compute.
Defined.

Lemma set_adds_property_witness :
  heap plain_store !! 0 = Some plain_y
  ∧ set false false no_calls no_queue keep_order no_inherited no_keys
      no_integer 1 (VObj 0) (KStr "z") (VNum (Fin 2)) plain_store
    = (set_heap
         (alter (with_props (put_assoc (KStr "z")
                               (Prop_ (PData (VNum (Fin 2))) true true))) 0)
         plain_store, Ok (VNum (Fin 2)))
  ∧ set false false no_calls no_queue keep_order no_inherited no_keys
      no_integer 1 (VObj 0) (KStr "y") (VNum (Fin 2)) plain_store
    = (set_heap
         (alter (with_props (put_assoc (KStr "y")
                               (Prop_ (PData (VNum (Fin 2))) true true))) 0)
         plain_store, Ok (VNum (Fin 2))).
Proof.
  split_and!; [done| |].
  - destruct (set_adds_property false false no_calls no_queue keep_order
                no_inherited no_keys no_integer 1 0 plain_y (KStr "z")
                (VNum (Fin 2)) plain_store) as [_ H]; [done..|].
    destruct H as [H _]; [done..|].
    destruct H as [_ H]; [done|]. by apply H.
  - destruct (set_adds_property false false no_calls no_queue keep_order
                no_inherited no_keys no_integer 1 0 plain_y (KStr "y")
                (VNum (Fin 2)) plain_store) as [H _]; [done..|].
    rewrite H by done. by vm_compute.
Defined.

Lemma del_removes_property_witness :
  heap plain_store !! 0 = Some plain_y
  ∧ read_isVue no_calls 1 (VObj 0) plain_store = (plain_store, Ok false)
  ∧ del false false no_calls no_queue keep_order no_integer 1 (VObj 0)
      (KStr "z") plain_store = (plain_store, Ok tt)
  ∧ del false false no_calls no_queue keep_order no_integer 1 (VObj 0)
      (KStr "y") plain_store
    = (set_heap (alter (with_props (del_assoc (KStr "y"))) 0) plain_store,
       Ok tt).
Proof.
  destruct (del_removes_property false false no_calls no_queue keep_order
              no_inherited no_keys no_integer 1 0 plain_y (KStr "z")
              plain_store) as (Habsent & _ & _); [done..|].
  destruct (del_removes_property false false no_calls no_queue keep_order
              no_inherited no_keys no_integer 1 0 plain_y (KStr "y")
              plain_store) as (_ & Hown & _); [done..|].
  split_and!; [done|done|by apply Habsent|].
  by destruct (Hown (data_prop (VNum (Fin 1))) eq_refl) as [H _].
Defined.

Lemma observe_array_witness :
  heap plain_array_store !! 0 = Some plain_array
  ∧ read_isVue no_calls 1 (VObj 0) plain_array_store
    = (plain_array_store, Ok false)
  ∧ ∃ s', observe false no_calls 2 (VObj 0) false plain_array_store
          = (s', Ok (Some (ObRef 0 0)))
      ∧ heap s' !! 0
        = Some (Obj CArray [] [VNum (Fin 1)] true false (Some (ObRef 0 0)) 0
                  true)
      ∧ call_method false no_calls no_queue keep_order no_integer 2 Push 0
          [VNum (Fin 2)] s'
        = mutator false no_calls no_queue keep_order no_integer 2 Push 0
            [VNum (Fin 2)] s'.
Proof.
  split_and!; [done|done|].
  destruct (observe_array false no_calls no_queue keep_order no_integer 0 0
              plain_array plain_array_store false)
    as (s' & Hrun & Hheap & _ & _ & _ & _ & Hcall);
    [done..|by repeat constructor|done|].
  exists s'. split_and!; [done| |apply Hcall].
  rewrite Hheap. by rewrite lookup_insert_eq.
Defined.

Lemma no_calls_keep_agreement f this args :
  preserves in_agreement (no_calls f this args).
Proof. by intros s Hs. Qed.

Lemma Watcher_get_tracks_exactly_witness :
  in_agreement one_dependency
  ∧ Watcher_compute no_calls 1 (set_targetStack (cons 1) one_dependency)
    = (set_targetStack (cons 1) one_dependency, Ok VUndefined)
  ∧ ∃ s', Watcher_get no_calls 1 1 one_dependency = (s', Ok VUndefined)
      ∧ targetStack s' = []
      ∧ watchers s' !! 1
        = Some (set_tracking [7] [] {[7]} ∅
                  (new_watcher 1 2 false false false false))
      ∧ (∀ d, 1 ∈ dep_subs s' d ↔ d = 7).
Proof.
  assert (Hag := in_agreement_one_dependency).
  assert (Hc : Watcher_compute no_calls 1
                 (set_targetStack (cons 1) one_dependency)
               = (set_targetStack (cons 1) one_dependency, Ok VUndefined))
    by (by vm_compute).
  split_and!; [done|done|].
  destruct (Watcher_get_tracks_exactly no_calls no_calls_keep_agreement 1 1
              one_dependency _ _ one_dependency_watcher Hag Hc)
    as (s' & Hrun & Hstack & HW & Hsubs & _); [done|by vm_compute|done|].
  exists s'. split_and!; [done|done| |].
  - rewrite HW. by vm_compute.
  - intros d. rewrite Hsubs. simpl. set_solver.
Defined.

Lemma dependArray_registers_elements_witness :
  Dep_target item_store = Some 1
  ∧ array_deps (heap item_store) 2 0 = Some [5]
  ∧ ∃ s', dependArray 2 0 item_store = (s', Ok tt)
      ∧ dep_subs s' 5 = [1]
      ∧ dep_subs s' 4 = [].
Proof.
  assert (HL : array_deps (heap item_store) 2 0 = Some [5])
    by (by vm_compute).
  split_and!; [done|done|].
  destruct (dependArray_registers_elements 2 0 1
              (new_watcher 1 2 false false false false) item_store [5])
    as (_ & s' & nd & ni & Hrun & _ & _ & _ & Hsubs);
    [done|by vm_compute|done|].
  exists s'. split_and!; [done| |].
  - rewrite Hsubs. by vm_compute.
  - rewrite Hsubs. by vm_compute.
Defined.

Lemma mergeData_fills_missing_keys_witness :
  heap merge_store !! 0 = Some merge_to
  ∧ heap merge_store !! 1 = Some merge_from
  ∧ data_object merge_to ∧ data_object merge_from
  ∧ mergeData false false true no_calls no_queue keep_order no_inherited
      no_keys no_integer 1 0 (Some 1) merge_store
    = (set_heap (λ h, <[0 := merge_result]> h) merge_store, Ok 0).
Proof.
  assert (HdT : data_object merge_to).
  { split; [apply NoDup_singleton|].
    intros k p [= -> ->]%list_elem_of_singleton. by eexists. }
  assert (HdF : data_object merge_from).
  { split.
    - simpl. apply NoDup_cons. split; [set_solver|apply NoDup_singleton].
    - intros k p [[= -> ->]|[= -> ->]%list_elem_of_singleton]%elem_of_cons;
        by eexists. }
  split_and!; [done..|].
  destruct (mergeData_fills_missing_keys false false true no_calls no_queue
              keep_order no_inherited no_keys no_integer 0 0 1 merge_to
              merge_from merge_store) as (H & _); try done.
  - simpl. set_solver.
  - simpl. set_solver.
  - intros k pT vT vF Hl Hk _. unfold lookup_prop in Hl. simpl in Hl.
    destruct (decide (KStr "a" = k)); [|done]. simplify_eq. simpl in Hk.
    simplify_eq. by rewrite andb_false_r.
Defined.
